(** * quickenv: a shallow embedding of the [.env] loader and its properties

    The development follows [quickenv.go].  Go strings are byte sequences,
    modelled as [list ascii] (one [ascii] per byte); a [rune] is a code point
    in [Z].  The process environment is a finite map, the standard error
    stream a list of entries, and the file system an interface record.

    Layout: the pieces of the Go standard library the package calls
    ([unicode/utf8], [unicode], [strings], [bufio], [os], [path/filepath]),
    then the package itself, then the properties. *)

From Stdlib Require Import ZArith Ascii String List Bool Lia.
From stdpp Require Import gmap strings list.

Local Open Scope Z_scope.

(** ** Bytes and strings *)


Definition byteZ (c : ascii) : Z := Z.of_N (N_of_ascii c).

Definition str (s : string) : list ascii := list_ascii_of_string s.

(** [s[i]] for an index known to be in range. *)
Definition byteAt (s : list ascii) (i : nat) : Z := byteZ (nth i s zero).

(** [s[lo:hi]] *)
Definition slice (s : list ascii) (lo hi : nat) : list ascii :=
  firstn (hi - lo) (skipn lo s).

Definition dquote : ascii := "034"%char.
Definition squote : ascii := "039"%char.
Definition equals : ascii := "061"%char.
Definition hash : ascii := "035"%char.
Definition underscore : ascii := "095"%char.
Definition star : ascii := "042"%char.
Definition space : ascii := "032"%char.
Definition newline : ascii := "010"%char.
Definition creturn : ascii := "013"%char.

Definition bytes_eqb (a b : list ascii) : bool := bool_decide (a = b).

(** ** unicode/utf8 *)
Module utf8.

Definition RuneError : Z := 65533.
Definition RuneSelf : Z := 128.
Definition UTFMax : Z := 4.

Definition locb : Z := 128.
Definition hicb : Z := 191.

Definition xx : Z := 241.  (* 0xF1: invalid, size 1 *)
Definition as_ : Z := 240. (* 0xF0: ASCII, size 1 *)
Definition s1 : Z := 2.    (* 0x02: accept 0, size 2 *)
Definition s2 : Z := 19.   (* 0x13: accept 1, size 3 *)
Definition s3 : Z := 3.    (* 0x03: accept 0, size 3 *)
Definition s4 : Z := 35.   (* 0x23: accept 2, size 3 *)
Definition s5 : Z := 52.   (* 0x34: accept 3, size 4 *)
Definition s6 : Z := 4.    (* 0x04: accept 0, size 4 *)
Definition s7 : Z := 68.   (* 0x44: accept 4, size 4 *)

(** The table [first], indexed by the leading byte. *)
Definition first (b : Z) : Z :=
  if b <? 128 then as_          (* 0x00-0x7F *)
  else if b <? 194 then xx      (* 0x80-0xC1 *)
  else if b <? 224 then s1      (* 0xC2-0xDF *)
  else if b =? 224 then s2      (* 0xE0 *)
  else if b <? 237 then s3      (* 0xE1-0xEC *)
  else if b =? 237 then s4      (* 0xED *)
  else if b <? 240 then s3      (* 0xEE-0xEF *)
  else if b =? 240 then s5      (* 0xF0 *)
  else if b <? 244 then s6      (* 0xF1-0xF3 *)
  else if b =? 244 then s7      (* 0xF4 *)
  else xx.                      (* 0xF5-0xFF *)

(** [acceptRanges]: bounds on the second byte. *)
Definition acceptRanges (i : Z) : Z * Z :=
  if i =? 1 then (160, hicb)
  else if i =? 2 then (locb, 159)
  else if i =? 3 then (144, hicb)
  else if i =? 4 then (locb, 143)
  else (locb, hicb).

Definition mask2 : Z := 31.
Definition mask3 : Z := 15.
Definition mask4 : Z := 7.
Definition maskx : Z := 63.

(** [utf8.DecodeRuneInString]: the first rune of [s] and its width in bytes;
    [(RuneError, 0)] on the empty string and [(RuneError, 1)] on an invalid
    encoding. *)
Definition DecodeRuneInString (s : list ascii) : Z * nat :=
  match s with
  | [] => (RuneError, 0%nat)
  | _ :: _ =>
    let n := Z.of_nat (length s) in
    let b0 := byteAt s 0 in
    let x := first b0 in
    if as_ <=? x then ((if x =? xx then RuneError else b0), 1%nat)
    else
      let sz := Z.land x 7 in
      let accept := acceptRanges (Z.shiftr x 4) in
      if n <? sz then (RuneError, 1%nat)
      else
        let b1 := byteAt s 1 in
        if (b1 <? fst accept) || (snd accept <? b1) then (RuneError, 1%nat)
        else if sz <=? 2 then
          (Z.lor (Z.shiftl (Z.land b0 mask2) 6) (Z.land b1 maskx), 2%nat)
        else
          let b2 := byteAt s 2 in
          if (b2 <? locb) || (hicb <? b2) then (RuneError, 1%nat)
          else if sz <=? 3 then
            (Z.lor (Z.lor (Z.shiftl (Z.land b0 mask3) 12)
                          (Z.shiftl (Z.land b1 maskx) 6))
                   (Z.land b2 maskx), 3%nat)
          else
            let b3 := byteAt s 3 in
            if (b3 <? locb) || (hicb <? b3) then (RuneError, 1%nat)
            else
              (Z.lor (Z.lor (Z.lor (Z.shiftl (Z.land b0 mask4) 18)
                                   (Z.shiftl (Z.land b1 maskx) 12))
                            (Z.shiftl (Z.land b2 maskx) 6))
                     (Z.land b3 maskx), 4%nat)
  end.

(** [utf8.RuneStart]: the byte is not a continuation byte. *)
Definition RuneStart (b : Z) : bool := negb (Z.land b 192 =? 128).

(** The backward search of [DecodeLastRuneInString]:
    [for start--; start >= lim; start-- { if RuneStart(s[start]) { break } }],
    entered with [start] already decremented. *)
Fixpoint backUp (fuel : nat) (s : list ascii) (start lim : Z) : Z :=
  match fuel with
  | O => start
  | S fuel' =>
    if start <? lim then start
    else if RuneStart (byteAt s (Z.to_nat start)) then start
    else backUp fuel' s (start - 1) lim
  end.

(** [utf8.DecodeLastRuneInString]: the last rune of [s] and its width. *)
Definition DecodeLastRuneInString (s : list ascii) : Z * nat :=
  let end_ := Z.of_nat (length s) in
  if end_ =? 0 then (RuneError, 0%nat)
  else
    let start := end_ - 1 in
    let r := byteAt s (Z.to_nat start) in
    if r <? RuneSelf then (r, 1%nat)
    else
      let lim := Z.max (end_ - UTFMax) 0 in
      let start := backUp 4 s (start - 1) lim in
      let start := Z.max start 0 in
      let '(r, size) := DecodeRuneInString (slice s (Z.to_nat start) (length s)) in
      if negb (start + Z.of_nat size =? end_) then (RuneError, 1%nat)
      else (r, size).

(** [for i, r := range s]: the pairs (byte offset, rune) the loop visits.
    [skip] counts the bytes of the current rune still to pass over. *)
Fixpoint rangeFrom (i skip : nat) (s : list ascii) : list (nat * Z) :=
  match s with
  | [] => []
  | _ :: t =>
    match skip with
    | S k => rangeFrom (S i) k t
    | O =>
      let '(r, size) := DecodeRuneInString s in
      (i, r) :: rangeFrom (S i) (size - 1) t
    end
  end.

Definition rangeString (s : list ascii) : list (nat * Z) := rangeFrom 0 0 s.

End utf8.

(** ** unicode *)
Module unicode.

Definition MaxLatin1 : Z := 255.

(** Membership in a range table.  The library searches [Range16]/[Range32]
    entries with strides; the tables below list the same sets as plain
    closed intervals. *)
Definition inTable (tab : list (Z * Z)) (r : Z) : bool :=
  existsb (fun '(lo, hi) => (lo <=? r) && (r <=? hi)) tab.

(** The letters (general category L) above Latin-1: the ranges of the
    Unicode Character Database 14.0.0 and the letters that version 15.0.0
    added (U+1123F, U+11240, U+11F02, U+11F04 to U+11F10, U+11F12 to
    U+11F33, U+13441 to U+13446, U+1B132, U+1B155, U+1DF25 to U+1DF2A,
    U+1E030 to U+1E06D, U+1E4D0 to U+1E4EB, U+2B739 and U+31350 to
    U+323AF). *)
Definition LetterTable : list (Z * Z) :=
  [ (256, 705); (710, 721); (736, 740); (748, 748); (750, 750); (880, 884);
    (886, 887); (890, 893); (895, 895); (902, 902); (904, 906); (908, 908);
    (910, 929); (931, 1013); (1015, 1153); (1162, 1327); (1329, 1366);
    (1369, 1369); (1376, 1416); (1488, 1514); (1519, 1522); (1568, 1610);
    (1646, 1647); (1649, 1747); (1749, 1749); (1765, 1766); (1774, 1775);
    (1786, 1788); (1791, 1791); (1808, 1808); (1810, 1839); (1869, 1957);
    (1969, 1969); (1994, 2026); (2036, 2037); (2042, 2042); (2048, 2069);
    (2074, 2074); (2084, 2084); (2088, 2088); (2112, 2136); (2144, 2154);
    (2160, 2183); (2185, 2190); (2208, 2249); (2308, 2361); (2365, 2365);
    (2384, 2384); (2392, 2401); (2417, 2432); (2437, 2444); (2447, 2448);
    (2451, 2472); (2474, 2480); (2482, 2482); (2486, 2489); (2493, 2493);
    (2510, 2510); (2524, 2525); (2527, 2529); (2544, 2545); (2556, 2556);
    (2565, 2570); (2575, 2576); (2579, 2600); (2602, 2608); (2610, 2611);
    (2613, 2614); (2616, 2617); (2649, 2652); (2654, 2654); (2674, 2676);
    (2693, 2701); (2703, 2705); (2707, 2728); (2730, 2736); (2738, 2739);
    (2741, 2745); (2749, 2749); (2768, 2768); (2784, 2785); (2809, 2809);
    (2821, 2828); (2831, 2832); (2835, 2856); (2858, 2864); (2866, 2867);
    (2869, 2873); (2877, 2877); (2908, 2909); (2911, 2913); (2929, 2929);
    (2947, 2947); (2949, 2954); (2958, 2960); (2962, 2965); (2969, 2970);
    (2972, 2972); (2974, 2975); (2979, 2980); (2984, 2986); (2990, 3001);
    (3024, 3024); (3077, 3084); (3086, 3088); (3090, 3112); (3114, 3129);
    (3133, 3133); (3160, 3162); (3165, 3165); (3168, 3169); (3200, 3200);
    (3205, 3212); (3214, 3216); (3218, 3240); (3242, 3251); (3253, 3257);
    (3261, 3261); (3293, 3294); (3296, 3297); (3313, 3314); (3332, 3340);
    (3342, 3344); (3346, 3386); (3389, 3389); (3406, 3406); (3412, 3414);
    (3423, 3425); (3450, 3455); (3461, 3478); (3482, 3505); (3507, 3515);
    (3517, 3517); (3520, 3526); (3585, 3632); (3634, 3635); (3648, 3654);
    (3713, 3714); (3716, 3716); (3718, 3722); (3724, 3747); (3749, 3749);
    (3751, 3760); (3762, 3763); (3773, 3773); (3776, 3780); (3782, 3782);
    (3804, 3807); (3840, 3840); (3904, 3911); (3913, 3948); (3976, 3980);
    (4096, 4138); (4159, 4159); (4176, 4181); (4186, 4189); (4193, 4193);
    (4197, 4198); (4206, 4208); (4213, 4225); (4238, 4238); (4256, 4293);
    (4295, 4295); (4301, 4301); (4304, 4346); (4348, 4680); (4682, 4685);
    (4688, 4694); (4696, 4696); (4698, 4701); (4704, 4744); (4746, 4749);
    (4752, 4784); (4786, 4789); (4792, 4798); (4800, 4800); (4802, 4805);
    (4808, 4822); (4824, 4880); (4882, 4885); (4888, 4954); (4992, 5007);
    (5024, 5109); (5112, 5117); (5121, 5740); (5743, 5759); (5761, 5786);
    (5792, 5866); (5873, 5880); (5888, 5905); (5919, 5937); (5952, 5969);
    (5984, 5996); (5998, 6000); (6016, 6067); (6103, 6103); (6108, 6108);
    (6176, 6264); (6272, 6276); (6279, 6312); (6314, 6314); (6320, 6389);
    (6400, 6430); (6480, 6509); (6512, 6516); (6528, 6571); (6576, 6601);
    (6656, 6678); (6688, 6740); (6823, 6823); (6917, 6963); (6981, 6988);
    (7043, 7072); (7086, 7087); (7098, 7141); (7168, 7203); (7245, 7247);
    (7258, 7293); (7296, 7304); (7312, 7354); (7357, 7359); (7401, 7404);
    (7406, 7411); (7413, 7414); (7418, 7418); (7424, 7615); (7680, 7957);
    (7960, 7965); (7968, 8005); (8008, 8013); (8016, 8023); (8025, 8025);
    (8027, 8027); (8029, 8029); (8031, 8061); (8064, 8116); (8118, 8124);
    (8126, 8126); (8130, 8132); (8134, 8140); (8144, 8147); (8150, 8155);
    (8160, 8172); (8178, 8180); (8182, 8188); (8305, 8305); (8319, 8319);
    (8336, 8348); (8450, 8450); (8455, 8455); (8458, 8467); (8469, 8469);
    (8473, 8477); (8484, 8484); (8486, 8486); (8488, 8488); (8490, 8493);
    (8495, 8505); (8508, 8511); (8517, 8521); (8526, 8526); (8579, 8580);
    (11264, 11492); (11499, 11502); (11506, 11507); (11520, 11557);
    (11559, 11559); (11565, 11565); (11568, 11623); (11631, 11631);
    (11648, 11670); (11680, 11686); (11688, 11694); (11696, 11702);
    (11704, 11710); (11712, 11718); (11720, 11726); (11728, 11734);
    (11736, 11742); (11823, 11823); (12293, 12294); (12337, 12341);
    (12347, 12348); (12353, 12438); (12445, 12447); (12449, 12538);
    (12540, 12543); (12549, 12591); (12593, 12686); (12704, 12735);
    (12784, 12799); (13312, 19903); (19968, 42124); (42192, 42237);
    (42240, 42508); (42512, 42527); (42538, 42539); (42560, 42606);
    (42623, 42653); (42656, 42725); (42775, 42783); (42786, 42888);
    (42891, 42954); (42960, 42961); (42963, 42963); (42965, 42969);
    (42994, 43009); (43011, 43013); (43015, 43018); (43020, 43042);
    (43072, 43123); (43138, 43187); (43250, 43255); (43259, 43259);
    (43261, 43262); (43274, 43301); (43312, 43334); (43360, 43388);
    (43396, 43442); (43471, 43471); (43488, 43492); (43494, 43503);
    (43514, 43518); (43520, 43560); (43584, 43586); (43588, 43595);
    (43616, 43638); (43642, 43642); (43646, 43695); (43697, 43697);
    (43701, 43702); (43705, 43709); (43712, 43712); (43714, 43714);
    (43739, 43741); (43744, 43754); (43762, 43764); (43777, 43782);
    (43785, 43790); (43793, 43798); (43808, 43814); (43816, 43822);
    (43824, 43866); (43868, 43881); (43888, 44002); (44032, 55203);
    (55216, 55238); (55243, 55291); (63744, 64109); (64112, 64217);
    (64256, 64262); (64275, 64279); (64285, 64285); (64287, 64296);
    (64298, 64310); (64312, 64316); (64318, 64318); (64320, 64321);
    (64323, 64324); (64326, 64433); (64467, 64829); (64848, 64911);
    (64914, 64967); (65008, 65019); (65136, 65140); (65142, 65276);
    (65313, 65338); (65345, 65370); (65382, 65470); (65474, 65479);
    (65482, 65487); (65490, 65495); (65498, 65500); (65536, 65547);
    (65549, 65574); (65576, 65594); (65596, 65597); (65599, 65613);
    (65616, 65629); (65664, 65786); (66176, 66204); (66208, 66256);
    (66304, 66335); (66349, 66368); (66370, 66377); (66384, 66421);
    (66432, 66461); (66464, 66499); (66504, 66511); (66560, 66717);
    (66736, 66771); (66776, 66811); (66816, 66855); (66864, 66915);
    (66928, 66938); (66940, 66954); (66956, 66962); (66964, 66965);
    (66967, 66977); (66979, 66993); (66995, 67001); (67003, 67004);
    (67072, 67382); (67392, 67413); (67424, 67431); (67456, 67461);
    (67463, 67504); (67506, 67514); (67584, 67589); (67592, 67592);
    (67594, 67637); (67639, 67640); (67644, 67644); (67647, 67669);
    (67680, 67702); (67712, 67742); (67808, 67826); (67828, 67829);
    (67840, 67861); (67872, 67897); (67968, 68023); (68030, 68031);
    (68096, 68096); (68112, 68115); (68117, 68119); (68121, 68149);
    (68192, 68220); (68224, 68252); (68288, 68295); (68297, 68324);
    (68352, 68405); (68416, 68437); (68448, 68466); (68480, 68497);
    (68608, 68680); (68736, 68786); (68800, 68850); (68864, 68899);
    (69248, 69289); (69296, 69297); (69376, 69404); (69415, 69415);
    (69424, 69445); (69488, 69505); (69552, 69572); (69600, 69622);
    (69635, 69687); (69745, 69746); (69749, 69749); (69763, 69807);
    (69840, 69864); (69891, 69926); (69956, 69956); (69959, 69959);
    (69968, 70002); (70006, 70006); (70019, 70066); (70081, 70084);
    (70106, 70106); (70108, 70108); (70144, 70161); (70163, 70187);
    (70207, 70208); (70272, 70278); (70280, 70280); (70282, 70285);
    (70287, 70301); (70303, 70312); (70320, 70366); (70405, 70412);
    (70415, 70416); (70419, 70440); (70442, 70448); (70450, 70451);
    (70453, 70457); (70461, 70461); (70480, 70480); (70493, 70497);
    (70656, 70708); (70727, 70730); (70751, 70753); (70784, 70831);
    (70852, 70853); (70855, 70855); (71040, 71086); (71128, 71131);
    (71168, 71215); (71236, 71236); (71296, 71338); (71352, 71352);
    (71424, 71450); (71488, 71494); (71680, 71723); (71840, 71903);
    (71935, 71942); (71945, 71945); (71948, 71955); (71957, 71958);
    (71960, 71983); (71999, 71999); (72001, 72001); (72096, 72103);
    (72106, 72144); (72161, 72161); (72163, 72163); (72192, 72192);
    (72203, 72242); (72250, 72250); (72272, 72272); (72284, 72329);
    (72349, 72349); (72368, 72440); (72704, 72712); (72714, 72750);
    (72768, 72768); (72818, 72847); (72960, 72966); (72968, 72969);
    (72971, 73008); (73030, 73030); (73056, 73061); (73063, 73064);
    (73066, 73097); (73112, 73112); (73440, 73458); (73474, 73474);
    (73476, 73488); (73490, 73523); (73648, 73648); (73728, 74649);
    (74880, 75075); (77712, 77808); (77824, 78894); (78913, 78918);
    (82944, 83526); (92160, 92728); (92736, 92766); (92784, 92862);
    (92880, 92909); (92928, 92975); (92992, 92995); (93027, 93047);
    (93053, 93071); (93760, 93823); (93952, 94026); (94032, 94032);
    (94099, 94111); (94176, 94177); (94179, 94179); (94208, 100343);
    (100352, 101589); (101632, 101640); (110576, 110579); (110581, 110587);
    (110589, 110590); (110592, 110882); (110898, 110898); (110928, 110930);
    (110933, 110933); (110948, 110951); (110960, 111355); (113664, 113770);
    (113776, 113788); (113792, 113800); (113808, 113817); (119808, 119892);
    (119894, 119964); (119966, 119967); (119970, 119970); (119973, 119974);
    (119977, 119980); (119982, 119993); (119995, 119995); (119997, 120003);
    (120005, 120069); (120071, 120074); (120077, 120084); (120086, 120092);
    (120094, 120121); (120123, 120126); (120128, 120132); (120134, 120134);
    (120138, 120144); (120146, 120485); (120488, 120512); (120514, 120538);
    (120540, 120570); (120572, 120596); (120598, 120628); (120630, 120654);
    (120656, 120686); (120688, 120712); (120714, 120744); (120746, 120770);
    (120772, 120779); (122624, 122654); (122661, 122666); (122928, 122989);
    (123136, 123180); (123191, 123197); (123214, 123214); (123536, 123565);
    (123584, 123627); (124112, 124139); (124896, 124902); (124904, 124907);
    (124909, 124910); (124912, 124926); (124928, 125124); (125184, 125251);
    (125259, 125259); (126464, 126467); (126469, 126495); (126497, 126498);
    (126500, 126500); (126503, 126503); (126505, 126514); (126516, 126519);
    (126521, 126521); (126523, 126523); (126530, 126530); (126535, 126535);
    (126537, 126537); (126539, 126539); (126541, 126543); (126545, 126546);
    (126548, 126548); (126551, 126551); (126553, 126553); (126555, 126555);
    (126557, 126557); (126559, 126559); (126561, 126562); (126564, 126564);
    (126567, 126570); (126572, 126578); (126580, 126583); (126585, 126588);
    (126590, 126590); (126592, 126601); (126603, 126619); (126625, 126627);
    (126629, 126633); (126635, 126651); (131072, 173791); (173824, 177977);
    (177984, 178205); (178208, 183969); (183984, 191456); (194560, 195101);
    (196608, 201546); (201552, 205743) ]%Z.

(** The decimal digits (general category Nd) above Latin-1: the ranges of
    version 14.0.0 and the digits that version 15.0.0 added (U+11F50 to
    U+11F59 and U+1E4F0 to U+1E4F9). *)
Definition DigitTable : list (Z * Z) :=
  [ (1632, 1641); (1776, 1785); (1984, 1993); (2406, 2415); (2534, 2543);
    (2662, 2671); (2790, 2799); (2918, 2927); (3046, 3055); (3174, 3183);
    (3302, 3311); (3430, 3439); (3558, 3567); (3664, 3673); (3792, 3801);
    (3872, 3881); (4160, 4169); (4240, 4249); (6112, 6121); (6160, 6169);
    (6470, 6479); (6608, 6617); (6784, 6793); (6800, 6809); (6992, 7001);
    (7088, 7097); (7232, 7241); (7248, 7257); (42528, 42537); (43216, 43225);
    (43264, 43273); (43472, 43481); (43504, 43513); (43600, 43609);
    (44016, 44025); (65296, 65305); (66720, 66729); (68912, 68921);
    (69734, 69743); (69872, 69881); (69942, 69951); (70096, 70105);
    (70384, 70393); (70736, 70745); (70864, 70873); (71248, 71257);
    (71360, 71369); (71472, 71481); (71904, 71913); (72016, 72025);
    (72784, 72793); (73040, 73049); (73120, 73129); (73552, 73561);
    (92768, 92777); (92864, 92873); (93008, 93017); (120782, 120831);
    (123200, 123209); (123632, 123641); (124144, 124153); (125264, 125273);
    (130032, 130041) ]%Z.

(** The range tables [unicode.Letter] and [unicode.Digit] of the toolchain.
    What they hold above Latin-1 depends on the Unicode version the
    toolchain was built with: 15.0.0 for Go 1.22, the first release that
    compiles the package's [for range maxLevels], and later versions add
    code points.  The package is therefore modelled over any pair of tables.
    One fact is asked of them: U+FFFD, the replacement character that the
    decoder returns for malformed input, is a symbol in every version,
    neither a letter nor a digit. *)
Class Tables : Type := {
  Letter : list (Z * Z);
  Digit : list (Z * Z);
  Letter_RuneError : inTable Letter 65533 = false;
  Digit_RuneError : inTable Digit 65533 = false
}.

(** The tables the examples are evaluated with. *)
#[global] Instance sampleTables : Tables := {|
  Letter := LetterTable;
  Digit := DigitTable;
  Letter_RuneError := eq_refl;
  Digit_RuneError := eq_refl
|}.

(** [unicode.White_Space] above Latin-1. *)
Definition WhiteSpaceTable : list (Z * Z) :=
  [ (5760, 5760); (8192, 8202); (8232, 8233); (8239, 8239); (8287, 8287);
    (12288, 12288) ].

(** The letters of the Latin-1 block ([properties[r] & pLmask != 0]):
    A-Z, a-z, U+00AA, U+00B5, U+00BA, U+00C0-U+00D6, U+00D8-U+00F6,
    U+00F8-U+00FF. *)
Definition latin1Letter (r : Z) : bool :=
  ((65 <=? r) && (r <=? 90)) || ((97 <=? r) && (r <=? 122))
  || (r =? 170) || (r =? 181) || (r =? 186)
  || ((192 <=? r) && (r <=? 214)) || ((216 <=? r) && (r <=? 246))
  || ((248 <=? r) && (r <=? 255)).

Definition IsLetter {tables : Tables} (r : Z) : bool :=
  if (0 <=? r) && (r <=? MaxLatin1) then latin1Letter r
  else inTable Letter r.

Definition IsDigit {tables : Tables} (r : Z) : bool :=
  if r <=? MaxLatin1 then (48 <=? r) && (r <=? 57)
  else inTable Digit r.

Definition IsSpace (r : Z) : bool :=
  if (0 <=? r) && (r <=? MaxLatin1) then
    (r =? 9) || (r =? 10) || (r =? 11) || (r =? 12) || (r =? 13)
    || (r =? 32) || (r =? 133) || (r =? 160)
  else inTable WhiteSpaceTable r.

End unicode.

(** ** strings *)
Module strings.

(** [strings.HasPrefix]: [len(s) >= len(prefix) && s[:len(prefix)] == prefix]. *)
Definition HasPrefix (s prefix : list ascii) : bool :=
  (length prefix <=? length s)%nat
  && bytes_eqb (slice s 0 (length prefix)) prefix.

(** [strings.TrimPrefix] *)
Definition TrimPrefix (s prefix : list ascii) : list ascii :=
  if HasPrefix s prefix then slice s (length prefix) (length s) else s.

(** [strings.Repeat] of a one-byte string. *)
Definition Repeat (c : ascii) (count : nat) : list ascii := repeat c count.

(** [indexFunc(s, f, false)]: the byte offset of the first rune that does
    not satisfy [f]; [None] stands for [-1]. *)
Fixpoint firstNot (f : Z -> bool) (rs : list (nat * Z)) : option nat :=
  match rs with
  | [] => None
  | (i, r) :: rest => if f r then firstNot f rest else Some i
  end.

Definition indexFuncFalse (s : list ascii) (f : Z -> bool) : option nat :=
  firstNot f (utf8.rangeString s).

(** [strings.TrimLeftFunc] *)
Definition TrimLeftFunc (s : list ascii) (f : Z -> bool) : list ascii :=
  match indexFuncFalse s f with
  | None => []
  | Some i => slice s i (length s)
  end.

(** [lastIndexFunc(s, f, false)]:
    [for i := len(s); i > 0; { r, size := DecodeLastRuneInString(s[0:i]);
    i -= size; if !f(r) { return i } }; return -1].  Every step takes at least
    one byte, so [len(s)] rounds of fuel are enough. *)
Fixpoint lastIndexLoop (fuel : nat) (s : list ascii) (f : Z -> bool) (i : nat)
  : option nat :=
  match fuel with
  | O => None
  | S fuel' =>
    if (0 <? i)%nat then
      let '(r, size) := utf8.DecodeLastRuneInString (slice s 0 i) in
      let i' := (i - size)%nat in
      if f r then lastIndexLoop fuel' s f i' else Some i'
    else None
  end.

Definition lastIndexFuncFalse (s : list ascii) (f : Z -> bool) : option nat :=
  lastIndexLoop (length s) s f (length s).

(** [strings.TrimRightFunc] *)
Definition TrimRightFunc (s : list ascii) (f : Z -> bool) : list ascii :=
  match lastIndexFuncFalse s f with
  | Some i =>
    if utf8.RuneSelf <=? byteAt s i then
      let '(_, wid) := utf8.DecodeRuneInString (slice s i (length s)) in
      slice s 0 (i + wid)
    else slice s 0 (i + 1)
  | None => slice s 0 0
  end.

(** [strings.TrimFunc] *)
Definition TrimFunc (s : list ascii) (f : Z -> bool) : list ascii :=
  TrimRightFunc (TrimLeftFunc s f) f.

(** [strings.TrimSpace]: all leading and trailing white space removed, as
    defined by Unicode.  The library first runs a byte loop over ASCII and
    hands over to [TrimFunc(_, unicode.IsSpace)] at the first non-ASCII byte;
    both compute [TrimFunc s unicode.IsSpace]. *)
Definition TrimSpace (s : list ascii) : list ascii :=
  TrimFunc s unicode.IsSpace.

End strings.

(** ** bufio *)
Module bufio.

Definition MaxScanTokenSize : Z := 65536.

(** What [Scanner.Err] can report: the reader's own failure, or a line that
    does not fit the buffer. *)
Inductive ScanError : Type :=
| ErrTooLong
| ErrReader (code : Z).

(** An [io.Reader] as the loader sees it: the bytes it delivers, followed by
    end of file or by a failure. *)
Record Reader : Type := mkReader {
  content : list ascii;
  failure : option Z
}.

(** [dropCR]: drop one trailing carriage return. *)
Definition dropCR (data : list ascii) : list ascii :=
  match rev data with
  | c :: before => if bool_decide (c = creturn) then rev before else data
  | [] => data
  end.

(** The lines of the input in order, each with a flag telling whether a
    newline ended it; [cur] holds the bytes of the current line, last first. *)
Fixpoint rawLines (cur data : list ascii) : list (list ascii * bool) :=
  match data with
  | [] => match cur with [] => [] | _ :: _ => [(rev cur, false)] end
  | c :: rest =>
    if bool_decide (c = newline) then (rev cur, true) :: rawLines [] rest
    else rawLines (c :: cur) rest
  end.

(** [ScanLines] under the scanner's buffer limit: a line is delivered while
    it fits, with its newline, in [MaxScanTokenSize] bytes; the first one
    that does not ends the scan with [ErrTooLong]. *)
Fixpoint tokens (ls : list (list ascii * bool)) : list (list ascii) * bool :=
  match ls with
  | [] => ([], false)
  | (l, _) :: rest =>
    if Z.of_nat (length l) <? MaxScanTokenSize then
      let '(ts, long) := tokens rest in (dropCR l :: ts, long)
    else ([], true)
  end.

(** A whole scan: the texts [scanner.Text()] yields while [scanner.Scan()]
    is true, and the final [scanner.Err()]. *)
Definition Scan (r : Reader) : list (list ascii) * option ScanError :=
  let '(ts, long) := tokens (rawLines [] (content r)) in
  (ts, if long then Some ErrTooLong
       else match failure r with
            | Some e => Some (ErrReader e)
            | None => None
            end).

End bufio.

(** ** os and path/filepath *)
Module os.

Definition EINVAL : Z := 22.

(** [os.Getenv]: the value, empty when the variable is not present. *)
Definition Getenv (env : gmap (list ascii) (list ascii)) (key : list ascii)
  : list ascii :=
  default [] (env !! key).

Definition hasByte (b : Z) (s : list ascii) : bool :=
  existsb (fun c => byteZ c =? b) s.

(** [os.Setenv] ([syscall.Setenv] on Unix): [EINVAL] for an empty key, a key
    holding [=] or NUL, or a value holding NUL; otherwise the table with the
    entry written. *)
Definition Setenv (env : gmap (list ascii) (list ascii))
  (key value : list ascii) : Z + gmap (list ascii) (list ascii) :=
  if (length key =? 0)%nat then inl EINVAL
  else if hasByte 61 key || hasByte 0 key then inl EINVAL
  else if hasByte 0 value then inl EINVAL
  else inr (<[key := value]> env).

(** Paths.  A directory is the list of its components below the root, so the
    root is [[]]; [filepath.Dir] drops the last component and leaves the root
    as it is.  A path handed to [os.Stat] or [os.Open] is either the bare
    [pathname], resolved by the system against the working directory, or
    [filepath.Join(dir, pathname)]. *)
Definition filepath_Dir (dir : list (list ascii)) : list (list ascii) :=
  removelast dir.

Inductive Path : Type :=
| Bare (pathname : list ascii)
| Join (dir : list (list ascii)) (pathname : list ascii).

(** What the package sees of the system during one call: the answers of
    [os.Getwd], [os.Stat] and [os.Open].  A value of this type stands for
    one call of [Load] only.  On Unix [os.Getwd] may answer from the
    variable [PWD], which a load can write, so a later call has a view of
    its own. *)
Record FileSystem : Type := mkFS {
  Getwd : Z + list (list ascii);       (* error or working directory *)
  Stat : Path -> bool;                 (* [err == nil] *)
  Open : Path -> Z + bufio.Reader
}.

End os.

(** ** The package *)

(** [LoadOptions] *)
Record LoadOptions : Type := mkLoadOptions {
  Pathname : list ascii;
  Overwrite : bool;
  Debug : bool;
  MaxLevels : Z
}.

(** The errors [parseLine] builds with [fmt.Errorf]. *)
Inductive ParseError : Type :=
| MissingEquals                      (* "invalid line format, missing equals sign" *)
| EmptyKey                           (* "empty key" *)
| InvalidKeyFormat (key : list ascii). (* "invalid key format: %s" *)

(** The errors of the file search and of the loader. *)
Inductive Error : Type :=
| CannotGetCurrentDir (e : Z)                 (* "cannot get current dir: %w" *)
| EnvFileNotFound (pathname : list ascii)     (* "env file not found: %s" *)
| Quickenv (e : Error)                        (* "quickenv: %w" *)
| FailedToOpen (path : os.Path) (e : Z)       (* "quickenv: failed to open %s:%w" *)
| FailedToSet (key : list ascii) (e : Z)      (* "failed to set %s: %w" *)
| ReadError (e : bufio.ScanError).            (* "read error: %w" *)

(** What the package writes to standard error in debug mode. *)
Inductive LogEntry : Type :=
| DebugSkip (line : list ascii) (err : ParseError)
    (* "quickenv: [DEBUG] skip invalid line %q: %v\n" *)
| DebugSet (key mask : list ascii).
    (* "quickenv: [DEBUG] set %s=%s\n" *)

(** The process state the package touches: the environment table and the
    standard error stream. *)
Record Process : Type := mkProcess {
  environ : gmap (list ascii) (list ascii);
  stderr : list LogEntry
}.

Definition Fprintf (p : Process) (e : LogEntry) : Process :=
  mkProcess (environ p) (stderr p ++ [e]).

Definition DefaultLoadOptions : LoadOptions :=
  mkLoadOptions (str ".env") false false 3.

(** [parseOptions]; a [nil] pointer is [None]. *)
Definition parseOptions (opts : list (option LoadOptions)) : LoadOptions :=
  match opts with
  | Some o :: _ =>
    let result := o in
    let result :=
      if bytes_eqb (Pathname result) [] then
        mkLoadOptions (str ".env") (Overwrite result) (Debug result) (MaxLevels result)
      else result in
    let result :=
      if MaxLevels result <=? 0 then
        mkLoadOptions (Pathname result) (Overwrite result) (Debug result) 3
      else result in
    result
  | _ => DefaultLoadOptions
  end.

(** The loop of [findEnvFile]: [n] iterations left, [dir] the directory
    reached so far. *)
Fixpoint climb (fs : os.FileSystem) (pathname : list ascii) (n : nat)
  (dir : list (list ascii)) : Error + os.Path :=
  match n with
  | O => inl (EnvFileNotFound pathname)
  | S n' =>
    let parent := os.filepath_Dir dir in
    if bool_decide (parent = dir) then inl (EnvFileNotFound pathname)
    else
      let dir := parent in
      let path := os.Join dir pathname in
      if os.Stat fs path then inr path
      else climb fs pathname n' dir
  end.

(** [findEnvFile]; [for range maxLevels] runs [max(maxLevels, 0)] times. *)
Definition findEnvFile (fs : os.FileSystem) (pathname : list ascii)
  (maxLevels : Z) : Error + os.Path :=
  if os.Stat fs (os.Bare pathname) then inr (os.Bare pathname)
  else
    match os.Getwd fs with
    | inl err => inl (CannotGetCurrentDir err)
    | inr dir => climb fs pathname (Z.to_nat maxLevels) dir
    end.

(** [unquoteValue] *)
Definition unquoteValue (value : list ascii) : list ascii :=
  if (2 <=? length value)%nat then
    let first := byteAt value 0 in
    let last := byteAt value (length value - 1) in
    if ((first =? 34) && (last =? 34)) || ((first =? 39) && (last =? 39)) then
      slice value 1 (length value - 1)
    else value
  else value.

(** The loop of [isValidEnvKey] over the runes of [key[1:]]. *)
Fixpoint restValid {tables : unicode.Tables} (rs : list (nat * Z)) : bool :=
  match rs with
  | [] => true
  | (_, char) :: rest =>
    if negb (unicode.IsLetter char) && negb (unicode.IsDigit char)
       && negb (char =? 95) then false
    else restValid rest
  end.

(** [isValidEnvKey]; [firstChar] is [rune(key[0])], the first byte. *)
Definition isValidEnvKey {tables : unicode.Tables} (key : list ascii) : bool :=
  if bytes_eqb key [] then false
  else
    let firstChar := byteAt key 0 in
    if negb (unicode.IsLetter firstChar) && negb (firstChar =? 95) then false
    else restValid (utf8.rangeString (slice key 1 (length key))).

(** The labelled loop of [parseLine]: the offset of the first [=] met
    outside quotes, [None] for [equalsIndex == -1]. *)
Fixpoint findEquals (rs : list (nat * Z)) (inQuotes : bool) (quoteChar : Z)
  : option nat :=
  match rs with
  | [] => None
  | (i, char) :: rest =>
    if (char =? 34) || (char =? 39) then
      if negb inQuotes then findEquals rest true char
      else if char =? quoteChar then findEquals rest false quoteChar
      else findEquals rest inQuotes quoteChar
    else if (char =? 61) && negb inQuotes then Some i
    else findEquals rest inQuotes quoteChar
  end.

(** [parseLine]: [(key, value, nil)] is [inr (key, value)] and
    [("", "", err)] is [inl err]. *)
Definition parseLine {tables : unicode.Tables} (line : list ascii)
  : ParseError + (list ascii * list ascii) :=
  let line := strings.TrimPrefix line (str "export") in
  match findEquals (utf8.rangeString line) false 0 with
  | None => inl MissingEquals
  | Some equalsIndex =>
    let key := strings.TrimSpace (slice line 0 equalsIndex) in
    let value := strings.TrimSpace (slice line (equalsIndex + 1) (length line)) in
    if bytes_eqb key [] then inl EmptyKey
    else if negb (isValidEnvKey key) then inl (InvalidKeyFormat key)
    else inr (key, unquoteValue value)
  end.

(** The mask logged in place of a value. *)
Definition maskOf (value : list ascii) : list ascii :=
  let mask := str "***" in
  if (length value <? 5)%nat then strings.Repeat star (length value) else mask.

(** The scanning loop of [loadFromReader] over the texts the scanner yields.
    The result is the process state, the count, and the error of an early
    return. *)
Fixpoint loadLines {tables : unicode.Tables}
  (options : LoadOptions) (texts : list (list ascii))
  (p : Process) (loaded : nat) : Process * (nat * option Error) :=
  match texts with
  | [] => (p, (loaded, None))
  | text :: rest =>
    let line := strings.TrimSpace text in
    if bytes_eqb line [] || strings.HasPrefix line [hash] then
      loadLines options rest p loaded
    else
      match parseLine line with
      | inl err =>
        let p := if Debug options then Fprintf p (DebugSkip line err) else p in
        loadLines options rest p loaded
      | inr (key, value) =>
        if Overwrite options || bytes_eqb (os.Getenv (environ p) key) [] then
          match os.Setenv (environ p) key value with
          | inl err => (p, (loaded, Some (FailedToSet key err)))
          | inr env =>
            let p := mkProcess env (stderr p) in
            let loaded := S loaded in
            let p :=
              if Debug options then Fprintf p (DebugSet key (maskOf value))
              else p in
            loadLines options rest p loaded
          end
        else loadLines options rest p loaded
      end
  end.

(** [loadFromReader] *)
Definition loadFromReader {tables : unicode.Tables}
  (reader : bufio.Reader) (options : LoadOptions)
  (p : Process) : Process * (nat * option Error) :=
  let '(texts, scanErr) := bufio.Scan reader in
  match loadLines options texts p 0 with
  | (p, (loaded, Some err)) => (p, (loaded, Some err))
  | (p, (loaded, None)) =>
    match scanErr with
    | Some err => (p, (loaded, Some (ReadError err)))
    | None => (p, (loaded, None))
    end
  end.

(** [Load] *)
Definition Load {tables : unicode.Tables}
  (fs : os.FileSystem) (opts : list (option LoadOptions))
  (p : Process) : Process * (nat * option Error) :=
  let options := parseOptions opts in
  match findEnvFile fs (Pathname options) (MaxLevels options) with
  | inl err => (p, (0%nat, Some (Quickenv err)))
  | inr filePath =>
    match os.Open fs filePath with
    | inl err => (p, (0%nat, Some (FailedToOpen filePath err)))
    | inr file => loadFromReader file options p
    end
  end.

(** What [MustLoad] does: it returns the count, or panics with the message
    ["quickenv: %s"] built from the error, carried here as the error itself. *)
Inductive CountOutcome : Type :=
| Count (count : nat)
| Panic (err : Error).

(** [MustLoad] *)
Definition MustLoad {tables : unicode.Tables}
  (fs : os.FileSystem) (opts : list (option LoadOptions))
  (p : Process) : Process * CountOutcome :=
  let '(p, (count, err)) := Load fs opts p in
  match err with
  | Some err => (p, Panic err)
  | None => (p, Count count)
  end.

(** The result of a call that may panic. *)
Inductive Outcome : Type :=
| Returned (value : list ascii)
| Panicked (message : list ascii).

(** [GetEnv] *)
Definition GetEnv (p : Process) (key defaultValue : list ascii) : list ascii :=
  let value := os.Getenv (environ p) key in
  if negb (bytes_eqb value []) then value else defaultValue.

(** [GetEnvOrPanic] *)
Definition GetEnvOrPanic (p : Process) (key : list ascii) : Outcome :=
  let value := os.Getenv (environ p) key in
  if negb (bytes_eqb value []) then Returned value
  else Panicked (str "quickenv: required environment variable " ++ key
                 ++ str " is not set").

(** ** Notions used to state the properties *)

(** The quote state of [parseLine] as a pair ([inQuotes], [quoteChar]), and
    its change on one byte. *)
Definition quoteStep (st : bool * Z) (b : Z) : bool * Z :=
  if (b =? 34) || (b =? 39) then
    if negb (fst st) then (true, b)
    else if b =? snd st then (false, snd st)
    else st
  else st.

Definition stateAfter (st : bool * Z) (prefix : list ascii) : bool * Z :=
  fold_left quoteStep (map byteZ prefix) st.

(** Whether the position right after [prefix] lies inside a quoted span. *)
Definition insideQuotes (prefix : list ascii) : bool :=
  fst (stateAfter (false, 0) prefix).

(** Byte [i] of [body] is an equals sign outside every quoted span. *)
Definition unquotedEquals (body : list ascii) (i : nat) : Prop :=
  nth_error body i = Some equals /\ insideQuotes (firstn i body) = false.

(** The scan of [parseLine] taken byte by byte instead of rune by rune. *)
Fixpoint findEqualsBytes (i : nat) (s : list ascii) (inQuotes : bool)
  (quoteChar : Z) : option nat :=
  match s with
  | [] => None
  | c :: t =>
    let char := byteZ c in
    if (char =? 34) || (char =? 39) then
      if negb inQuotes then findEqualsBytes (S i) t true char
      else if char =? quoteChar then findEqualsBytes (S i) t false quoteChar
      else findEqualsBytes (S i) t inQuotes quoteChar
    else if (char =? 61) && negb inQuotes then Some i
    else findEqualsBytes (S i) t inQuotes quoteChar
  end.

(** The end of [parseLine], once key and value are cut out: the checks on
    the key and the unquoting of the value. *)
Definition checkEntry {tables : unicode.Tables} (key value : list ascii)
  : ParseError + (list ascii * list ascii) :=
  if bytes_eqb key [] then inl EmptyKey
  else if negb (isValidEnvKey key) then inl (InvalidKeyFormat key)
  else inr (key, unquoteValue value).

(** [parseLine] after the prefix has been dealt with. *)
Definition parseBody {tables : unicode.Tables} (body : list ascii)
  : ParseError + (list ascii * list ascii) :=
  match findEquals (utf8.rangeString body) false 0 with
  | None => inl MissingEquals
  | Some equalsIndex =>
    checkEntry (strings.TrimSpace (slice body 0 equalsIndex))
               (strings.TrimSpace (slice body (equalsIndex + 1) (length body)))
  end.

Definition noEquals (s : list ascii) : Prop := Forall (fun c => c <> equals) s.

(** The first [k] bytes of [s] lie outside ASCII. *)
Definition highs (k : nat) (s : list ascii) : Prop :=
  forall j, (j < k)%nat -> (j < length s)%nat -> 128 <= byteAt s j.

(** The bytes a trim may drop: every ASCII byte among them satisfies [f]. *)
Definition droppable (f : Z -> bool) (s : list ascii) : Prop :=
  Forall (fun c => byteZ c < 128 -> f (byteZ c) = true) s.

(** A character allowed after the first one of a key. *)
Definition okChar {tables : unicode.Tables} (ch : Z) : bool :=
  unicode.IsLetter ch || unicode.IsDigit ch || (ch =? 95).

(** A text that is blank or a comment once trimmed. *)
Definition isBlankOrComment (text : list ascii) : bool :=
  let line := strings.TrimSpace text in
  bytes_eqb line [] || strings.HasPrefix line [hash].

(** A text the loader passes over: blank, a comment, or not parsable. *)
Definition isSkipped {tables : unicode.Tables} (text : list ascii) : bool :=
  let line := strings.TrimSpace text in
  bytes_eqb line [] || strings.HasPrefix line [hash]
  || match parseLine line with inl _ => true | inr _ => false end.

Definition isSetEntry (e : LogEntry) : bool :=
  match e with
  | DebugSet _ _ => true
  | DebugSkip _ _ => false
  end.

(** A debug entry that shows no more of a value than a run of at most four
    asterisks. *)
Definition maskedEntry (e : LogEntry) : Prop :=
  match e with
  | DebugSet _ mask => exists n, (n <= 4)%nat /\ mask = repeat star n
  | DebugSkip _ _ => True
  end.

(** The [k]-th ancestor of a directory. *)
Definition ancestor (k : nat) (dir : list (list ascii)) : list (list ascii) :=
  Nat.iter k os.filepath_Dir dir.

(** ** The rules as the specification words them

    Three rules whose wording differs from what the code does; each is
    compared with the code further down. *)
Module Spec.

(** Keys: the first character a letter or the underscore, every later
    character a letter, a digit or the underscore, over the characters of the
    whole string. *)
Definition validKey {tables : unicode.Tables} (s : list ascii) : bool :=
  match map snd (utf8.rangeString s) with
  | [] => false
  | first :: rest =>
    (unicode.IsLetter first || (first =? 95))
    && forallb (fun ch => unicode.IsLetter ch || unicode.IsDigit ch || (ch =? 95))
               rest
  end.

(** The split point: a quoted span opens on a quote that no backslash
    precedes, and closes when the same quote character recurs; the result is
    the first equals sign outside every span. *)
Fixpoint splitFrom (i : nat) (escaped : bool) (quote : option Z)
  (s : list ascii) : option nat :=
  match s with
  | [] => None
  | c :: t =>
    let b := byteZ c in
    match quote with
    | Some q =>
      if b =? q then splitFrom (S i) false None t
      else splitFrom (S i) (b =? 92) quote t
    | None =>
      if ((b =? 34) || (b =? 39)) && negb escaped then
        splitFrom (S i) false (Some b) t
      else if b =? 61 then Some i
      else splitFrom (S i) (b =? 92) None t
    end
  end.

Definition splitIndex (s : list ascii) : option nat := splitFrom 0 false None s.

(** The mask: one asterisk per byte below four bytes, three asterisks from
    four bytes on. *)
Definition mask (value : list ascii) : list ascii :=
  if (length value <? 4)%nat then repeat star (length value) else str "***".

End Spec.

(** ** Sample inputs *)

(** The working directory [/home/user/project/cmd/api] with the file two
    directories up, in [/home/user/project]. *)
Definition sampleDir : list (list ascii) :=
  [str "home"; str "user"; str "project"; str "cmd"; str "api"].

Definition sampleFS : os.FileSystem :=
  os.mkFS (inr sampleDir)
    (fun path =>
       match path with
       | os.Join dir name =>
         bool_decide (dir = [str "home"; str "user"; str "project"])
         && bytes_eqb name (str ".env")
       | os.Bare _ => false
       end)
    (fun _ => inl 2).

(** A file system without the file anywhere. *)
Definition emptyFS : os.FileSystem :=
  os.mkFS (inr sampleDir) (fun _ => false) (fun _ => inl 2).

Definition sampleOptions (debug : bool) : LoadOptions :=
  mkLoadOptions (str ".env") false debug 3.

(** The three lines [DB_PORT=8080], [# comment] and [export NAME=] followed
    by [A] in double quotes. *)
Definition sampleStream : list ascii :=
  str "DB_PORT=8080" ++ [newline] ++ str "# comment" ++ [newline]
  ++ str "export NAME=" ++ [dquote] ++ str "A" ++ [dquote].

(** Three lines, the second with a NUL byte as its value. *)
Definition nulStream : list ascii :=
  str "A=1" ++ [newline] ++ str "B=" ++ ["000"%char] ++ [newline] ++ str "C=3".

(** Two good lines from a reader that fails after delivering them. *)
Definition failingReader : bufio.Reader :=
  bufio.mkReader (str "A=1" ++ [newline] ++ str "B=2") (Some 5).

(** The line [CONN_STR=] followed by [user=pass@host:5432] in double quotes. *)
Definition connStrLine : list ascii :=
  str "CONN_STR=" ++ [dquote] ++ str "user=pass@host:5432" ++ [dquote].

(** The line made of [K], a backslash, a double quote, an equals sign and
    [v]. *)
Definition escapedQuoteLine : list ascii :=
  str "K\" ++ [dquote] ++ str "=v".

(** The line made of a backslash, a double quote, [=x], a double quote and
    [=y]. *)
Definition escapedQuoteLine2 : list ascii :=
  str "\" ++ [dquote] ++ str "=x" ++ [dquote] ++ str "=y".

(** The key of the package's own test, [U+043A U+043E U+0448 U+043A U+0430]
    in UTF-8, and its first letter alone. *)
Definition cyrillicWord : list ascii :=
  ["208"; "186"; "208"; "190"; "209"; "136"; "208"; "186"; "208"; "176"]%char.

Definition cyrillicKa : list ascii := ["208"; "186"]%char.

(** The letter [a] followed by U+1E030, a letter since Unicode 15.0.0, and
    the letter [a] followed by U+1E4F0, a digit since that version; both in
    UTF-8. *)
Definition modifierLetterKey : list ascii :=
  ["097"; "240"; "158"; "128"; "176"]%char.

Definition nagMundariDigitKey : list ascii :=
  ["097"; "240"; "158"; "147"; "176"]%char.

(** File systems with [.env] in the working directory: one whose file is
    read through the failing reader, one whose file holds the stream with the
    NUL byte. *)
Definition failingFS : os.FileSystem :=
  os.mkFS (inr sampleDir)
    (fun path => match path with os.Bare _ => true | os.Join _ _ => false end)
    (fun _ => inr failingReader).

Definition nulFS : os.FileSystem :=
  os.mkFS (inr sampleDir)
    (fun path => match path with os.Bare _ => true | os.Join _ _ => false end)
    (fun _ => inr (bufio.mkReader nulStream None)).

(** A file system without the file, in a process whose working directory
    cannot be determined. *)
Definition noCwdFS : os.FileSystem :=
  os.mkFS (inl 2) (fun _ => false) (fun _ => inl 2).

(** ** Notions used for the further properties *)

(** The pairs the loader gets out of its texts, in order: one for each text
    that is neither blank, nor a comment, nor unparsable. *)
Definition entryOf {tables : unicode.Tables}
  (text : list ascii) : list (list ascii * list ascii) :=
  if isBlankOrComment text then []
  else match parseLine (strings.TrimSpace text) with
       | inr kv => [kv]
       | inl _ => []
       end.

Definition entries {tables : unicode.Tables}
  (texts : list (list ascii)) : list (list ascii * list ascii) :=
  flat_map entryOf texts.

(** Writing a list of pairs into an environment, first to last. *)
Definition writeAll (env : gmap (list ascii) (list ascii))
  (kvs : list (list ascii * list ascii)) : gmap (list ascii) (list ascii) :=
  fold_left (fun m kv => <[fst kv := snd kv]> m) kvs env.

(** The ASCII letters, and the characters of an ASCII identifier. *)
Definition asciiLetter (b : Z) : Prop := 65 <= b <= 90 \/ 97 <= b <= 122.

Definition asciiIdent (b : Z) : Prop :=
  asciiLetter b \/ 48 <= b <= 57 \/ b = 95.

Definition isAscii (s : list ascii) : Prop := Forall (fun c => byteZ c < 128) s.

Definition noNul (s : list ascii) : Prop := Forall (fun c => byteZ c <> 0) s.

(** A record with the fields parseOptions may replace set by hand. *)
Definition withDefaults (o : LoadOptions) : LoadOptions :=
  mkLoadOptions (if bytes_eqb (Pathname o) [] then str ".env" else Pathname o)
                (Overwrite o) (Debug o)
                (if MaxLevels o <=? 0 then 3 else MaxLevels o).

(** A file system with the file in the grandparent and again at the root's
    child [home]. *)
Definition twoHitsFS : os.FileSystem :=
  os.mkFS (inr sampleDir)
    (fun path =>
       match path with
       | os.Join dir name =>
         (bool_decide (dir = [str "home"; str "user"; str "project"])
          || bool_decide (dir = [str "home"]))
         && bytes_eqb name (str ".env")
       | os.Bare _ => false
       end)
    (fun _ => inl 2).

(** A file system whose [.env], in the working directory, holds the sample
    stream. *)
Definition loadedFS : os.FileSystem :=
  os.mkFS (inr sampleDir)
    (fun path => match path with os.Bare _ => true | os.Join _ _ => false end)
    (fun _ => inr (bufio.mkReader sampleStream None)).

(** A file system with the sample stream in the parent of the working
    directory only. *)
Definition parentFS : os.FileSystem :=
  os.mkFS (inr sampleDir)
    (fun path =>
       match path with
       | os.Join dir name =>
         bool_decide (dir = [str "home"; str "user"; str "project"; str "cmd"])
         && bytes_eqb name (str ".env")
       | os.Bare _ => false
       end)
    (fun _ => inr (bufio.mkReader sampleStream None)).

(** Options with an empty path name and no level of search. *)
Definition zeroOptions : LoadOptions := mkLoadOptions [] false false 0.

Definition overwriteOptions : LoadOptions :=
  mkLoadOptions (str ".env") true false 3.

Definition portProcess : Process :=
  mkProcess {[ str "DB_PORT" := str "5432" ]} [].

(** The same key on two lines: [K=a] then [K=b]. *)
Definition twiceReader : bufio.Reader :=
  bufio.mkReader (str "K=a" ++ [newline] ++ str "K=b") None.

Definition twiceLoaded : Process :=
  mkProcess (<[str "K" := str "b"]> (<[str "K" := str "a"]> ∅)) [].

(** * Properties *)

(** ** Bytes and slices *)

Lemma byteZ_range (c : ascii) : 0 <= byteZ c < 256.
Proof.
  unfold byteZ. pose proof (N_ascii_bounded c). lia.
Qed.

Lemma byteZ_inj (c d : ascii) : byteZ c = byteZ d -> c = d.
Proof.
  unfold byteZ. intros H. apply N2Z.inj in H.
  rewrite <- (ascii_N_embedding c), <- (ascii_N_embedding d). now rewrite H.
Qed.

Lemma bytes_eqb_true (a b : list ascii) : bytes_eqb a b = true <-> a = b.
Proof. unfold bytes_eqb. apply bool_decide_eq_true. Qed.

Lemma bytes_eqb_false (a b : list ascii) : bytes_eqb a b = false <-> a <> b.
Proof. unfold bytes_eqb. apply bool_decide_eq_false. Qed.

Lemma slice_0 (s : list ascii) (n : nat) : slice s 0 n = firstn n s.
Proof. unfold slice. now rewrite Nat.sub_0_r. Qed.

Lemma slice_to_end (s : list ascii) (n : nat) : slice s n (length s) = skipn n s.
Proof.
  unfold slice. apply firstn_all2. rewrite length_skipn. lia.
Qed.

Lemma byteAt_cons (c : ascii) (t : list ascii) (j : nat) :
  byteAt (c :: t) (S j) = byteAt t j.
Proof. reflexivity. Qed.

Lemma byteAt_head (c : ascii) (t : list ascii) : byteAt (c :: t) 0 = byteZ c.
Proof. reflexivity. Qed.

(** ** Decoding *)

Lemma lor_lower (a b : Z) : 0 <= b -> a <= Z.lor a b.
Proof.
  intros Hb. pose proof (Z.sub_lor_l_same_l b a) as H.
  assert (0 <= Z.land b (Z.lnot a)) by (apply Z.land_nonneg; lia).
  lia.
Qed.

Lemma lor_lower_r (a b : Z) : 0 <= a -> b <= Z.lor a b.
Proof. intros Ha. rewrite Z.lor_comm. now apply lor_lower. Qed.

Lemma land_low_bits (b : Z) (k : Z) : 0 <= k -> Z.land b (Z.ones k) = b mod 2 ^ k.
Proof. intros. now apply Z.land_ones. Qed.

Lemma DecodeRune_ascii (c : ascii) (t : list ascii) :
  byteZ c < 128 -> utf8.DecodeRuneInString (c :: t) = (byteZ c, 1%nat).
Proof.
  intros H. unfold utf8.DecodeRuneInString. rewrite byteAt_head.
  unfold utf8.first. destruct (Z.ltb_spec (byteZ c) 128); [reflexivity | lia].
Qed.

(** A rune decoded from a byte outside ASCII is itself outside ASCII, and
    the bytes that follow its first byte are continuation bytes. *)
(** Evaluate the closed integer subterms of a hypothesis. *)
Ltac ground_Z H :=
  repeat match type of H with
         | context [Z.land (Z.pos ?p) (Z.pos ?q)] =>
           let v := eval vm_compute in (Z.land (Z.pos p) (Z.pos q)) in
           change (Z.land (Z.pos p) (Z.pos q)) with v in H
         | context [Z.shiftr (Z.pos ?p) (Z.pos ?q)] =>
           let v := eval vm_compute in (Z.shiftr (Z.pos p) (Z.pos q)) in
           change (Z.shiftr (Z.pos p) (Z.pos q)) with v in H
         | context [Z.eqb (Z.pos ?p) (Z.pos ?q)] =>
           let v := eval vm_compute in (Z.eqb (Z.pos p) (Z.pos q)) in
           change (Z.eqb (Z.pos p) (Z.pos q)) with v in H
         | context [Z.eqb 0 (Z.pos ?q)] =>
           change (Z.eqb 0 (Z.pos q)) with false in H
         | context [Z.leb (Z.pos ?p) (Z.pos ?q)] =>
           let v := eval vm_compute in (Z.leb (Z.pos p) (Z.pos q)) in
           change (Z.leb (Z.pos p) (Z.pos q)) with v in H
         end.

Lemma DecodeRune_multibyte (c : ascii) (t : list ascii) (r : Z) (n : nat) :
  128 <= byteZ c ->
  utf8.DecodeRuneInString (c :: t) = (r, n) ->
  128 <= r /\ (1 <= n <= S (length t))%nat
  /\ forall j, (j < n - 1)%nat -> 128 <= byteAt t j <= 191.
Proof.
  intros Hc. pose proof (byteZ_range c) as Hr.
  unfold utf8.DecodeRuneInString. rewrite byteAt_head, !byteAt_cons.
  pose proof (byteZ_range (nth 0 t zero)) as R0.
  pose proof (byteZ_range (nth 1 t zero)) as R1.
  pose proof (byteZ_range (nth 2 t zero)) as R2.
  assert (Hlen : Z.of_nat (length (c :: t)) = Z.of_nat (length t) + 1)
    by (cbn [length]; lia).
  set (len := Z.of_nat (length (c :: t))) in *. clearbody len.
  unfold byteAt. set (b0 := byteZ c) in *.
  set (b1 := byteZ (nth 0 t zero)) in *.
  set (b2 := byteZ (nth 1 t zero)) in *.
  set (b3 := byteZ (nth 2 t zero)) in *.
  assert (M2 : Z.land b0 31 = b0 mod 32) by (apply (land_low_bits b0 5); lia).
  assert (M3 : Z.land b0 15 = b0 mod 16) by (apply (land_low_bits b0 4); lia).
  assert (M4 : Z.land b0 7 = b0 mod 8) by (apply (land_low_bits b0 3); lia).
  assert (Mx : Z.land b1 63 = b1 mod 64) by (apply (land_low_bits b1 6); lia).
  assert (Mx2 : 0 <= Z.land b2 63) by (apply Z.land_nonneg; lia).
  assert (Mx3 : 0 <= Z.land b3 63) by (apply Z.land_nonneg; lia).
  assert (S6 : forall a, Z.shiftl a 6 = a * 64)
    by (intros; now rewrite Z.shiftl_mul_pow2 by lia).
  assert (S12 : forall a, Z.shiftl a 12 = a * 4096)
    by (intros; now rewrite Z.shiftl_mul_pow2 by lia).
  assert (S18 : forall a, Z.shiftl a 18 = a * 262144)
    by (intros; now rewrite Z.shiftl_mul_pow2 by lia).
  unfold utf8.first. intros H.
  repeat match type of H with
         | context [if b0 <? ?b then _ else _] =>
           destruct (Z.ltb_spec b0 b); try lia
         | context [if b0 =? ?b then _ else _] =>
           destruct (Z.eqb_spec b0 b); try lia
         end.
  all: unfold utf8.as_, utf8.xx, utf8.s1, utf8.s2, utf8.s3, utf8.s4, utf8.s5,
         utf8.s6, utf8.s7, utf8.acceptRanges, utf8.locb, utf8.hicb,
         utf8.mask2, utf8.mask3, utf8.mask4, utf8.maskx, utf8.RuneError in H.
  all: ground_Z H; cbn [fst snd] in H.
  all: repeat match type of H with
         | context [Z.ltb ?a ?b] => destruct (Z.ltb_spec a b); cbn [orb] in H
         end.
  all: injection H as <- <-.
  all: split; [| split; [lia |]].
  all: try lia.
  all: try (intros j Hj; destruct j as [|[|[|j]]]; try lia;
            fold b1; fold b2; fold b3; lia).
  all: rewrite ?S6, ?S12, ?S18, ?M2, ?M3, ?M4, ?Mx.
  all: repeat match goal with
         | |- _ <= Z.lor (Z.lor ?a ?b) ?c =>
           transitivity (Z.lor a b); [| apply lor_lower; lia]
         end.
  all: match goal with
       | |- _ <= Z.lor ?a ?b =>
         first [ transitivity a;
                 [Z.div_mod_to_equations; lia
                 | apply lor_lower; Z.div_mod_to_equations; lia]
               | transitivity b;
                 [Z.div_mod_to_equations; lia
                 | apply lor_lower_r; Z.div_mod_to_equations; lia] ]
       end.
Qed.

Lemma DecodeRune_high (c : ascii) (t : list ascii) (r : Z) (n : nat) :
  128 <= byteZ c ->
  utf8.DecodeRuneInString (c :: t) = (r, n) ->
  128 <= r /\ (1 <= n <= S (length t))%nat
  /\ forall j, (j < n - 1)%nat -> 128 <= byteAt t j.
Proof.
  intros Hc E. destruct (DecodeRune_multibyte c t r n Hc E) as (Hr & Hn & Hj).
  split; [exact Hr |]. split; [exact Hn |].
  intros j Hlt. now apply Hj.
Qed.

(** A continuation byte, or one of 0xC0 and 0xC1, decodes to [RuneError]. *)
Lemma DecodeRune_continuation (c : ascii) (t : list ascii) :
  128 <= byteZ c < 194 ->
  utf8.DecodeRuneInString (c :: t) = (utf8.RuneError, 1%nat).
Proof.
  intros H. unfold utf8.DecodeRuneInString. rewrite byteAt_head.
  unfold utf8.first.
  destruct (Z.ltb_spec (byteZ c) 128); [lia |].
  destruct (Z.ltb_spec (byteZ c) 194); [reflexivity | lia].
Qed.

(** ** The range loop *)

Lemma rangeFrom_ascii (i : nat) (c : ascii) (t : list ascii) :
  byteZ c < 128 ->
  utf8.rangeFrom i 0 (c :: t) = (i, byteZ c) :: utf8.rangeFrom (S i) 0 t.
Proof.
  intros H. cbn [utf8.rangeFrom]. now rewrite DecodeRune_ascii.
Qed.

Lemma rangeFrom_high (i : nat) (c : ascii) (t : list ascii) :
  128 <= byteZ c ->
  exists r k, 128 <= r /\ highs k t
    /\ utf8.rangeFrom i 0 (c :: t) = (i, r) :: utf8.rangeFrom (S i) k t.
Proof.
  intros H. cbn [utf8.rangeFrom].
  destruct (utf8.DecodeRuneInString (c :: t)) as [r n] eqn:E.
  destruct (DecodeRune_high c t r n H E) as (Hr & Hn & Hj).
  exists r, (n - 1)%nat. split; [exact Hr |]. split; [| reflexivity].
  intros j Hj1 _. now apply Hj.
Qed.

Lemma highs_tail (k : nat) (c : ascii) (t : list ascii) :
  highs (S k) (c :: t) -> 128 <= byteZ c /\ highs k t.
Proof.
  intros H. split.
  - apply (H 0%nat); cbn; lia.
  - intros j Hj Hl. apply (H (S j)); cbn; lia.
Qed.

Lemma highs_0 (s : list ascii) : highs 0 s.
Proof. intros j Hj. lia. Qed.

(** The offsets of a range loop started at [S i] are those of one started at
    [i], moved by one. *)
Lemma rangeFrom_shift (i k : nat) (s : list ascii) :
  utf8.rangeFrom (S i) k s
  = map (fun '(j, r) => (S j, r)) (utf8.rangeFrom i k s).
Proof.
  revert i k. induction s as [|c t IH]; intros i k; [reflexivity |].
  destruct k as [|k]; cbn [utf8.rangeFrom].
  - destruct (utf8.DecodeRuneInString (c :: t)) as [r n].
    cbn [map]. now rewrite IH.
  - apply IH.
Qed.

(** The scan for the delimiter sees the same thing whether it walks runes
    or bytes: the three characters it tests are ASCII, and a byte of a longer
    encoding never is. *)
Lemma findEquals_bytes (s : list ascii) :
  forall i k inQuotes quoteChar,
    highs k s ->
    findEquals (utf8.rangeFrom i k s) inQuotes quoteChar
    = findEqualsBytes i s inQuotes quoteChar.
Proof.
  induction s as [|c t IH]; intros i k q qc Hk; [reflexivity |].
  destruct k as [|k].
  - destruct (Z.ltb_spec (byteZ c) 128) as [Hlt | Hge].
    + rewrite rangeFrom_ascii by exact Hlt.
      cbn [findEquals findEqualsBytes].
      rewrite !(IH (S i) 0%nat) by apply highs_0. reflexivity.
    + destruct (rangeFrom_high i c t Hge) as (r & n & Hr & Hn & ->).
      cbn [findEquals findEqualsBytes].
      destruct (Z.eqb_spec r 34); [lia |]. destruct (Z.eqb_spec r 39); [lia |].
      destruct (Z.eqb_spec r 61); [lia |].
      destruct (Z.eqb_spec (byteZ c) 34); [lia |].
      destruct (Z.eqb_spec (byteZ c) 39); [lia |].
      destruct (Z.eqb_spec (byteZ c) 61); [lia |].
      cbn [orb andb]. now apply IH.
  - apply highs_tail in Hk as [Hc Hk].
    cbn [utf8.rangeFrom findEqualsBytes].
    destruct (Z.eqb_spec (byteZ c) 34); [lia |].
    destruct (Z.eqb_spec (byteZ c) 39); [lia |].
    destruct (Z.eqb_spec (byteZ c) 61); [lia |].
    cbn [orb andb]. now apply IH.
Qed.

Lemma stateAfter_cons (st : bool * Z) (p : list ascii) (c : ascii) :
  stateAfter st (c :: p) = stateAfter (quoteStep st (byteZ c)) p.
Proof. reflexivity. Qed.

Lemma equals_byte (c : ascii) : byteZ c = 61 <-> c = equals.
Proof.
  split; [| now intros ->]. intros H. apply byteZ_inj. now rewrite H.
Qed.

(** What the byte scan returns: the least offset that holds an equals sign
    while the quote state is "outside". *)
Lemma findEqualsBytes_Some (s : list ascii) :
  forall i st j,
    findEqualsBytes i s (fst st) (snd st) = Some j ->
    exists m, j = (i + m)%nat
      /\ nth_error s m = Some equals
      /\ fst (stateAfter st (firstn m s)) = false
      /\ forall m', (m' < m)%nat ->
           ~ (nth_error s m' = Some equals
              /\ fst (stateAfter st (firstn m' s)) = false).
Proof.
  induction s as [|c t IH]; intros i st j H; [discriminate |].
  cbn [findEqualsBytes] in H.
  assert (Hstep : forall st',
             st' = quoteStep st (byteZ c) ->
             findEqualsBytes (S i) t (fst st') (snd st') = Some j ->
             ~ (byteZ c = 61 /\ fst st = false) ->
             exists m, j = (i + m)%nat
               /\ nth_error (c :: t) m = Some equals
               /\ fst (stateAfter st (firstn m (c :: t))) = false
               /\ forall m', (m' < m)%nat ->
                    ~ (nth_error (c :: t) m' = Some equals
                       /\ fst (stateAfter st (firstn m' (c :: t))) = false)).
  { intros st' -> Hrec Hnot.
    destruct (IH _ _ _ Hrec) as (m & -> & Hn & Hs & Hmin).
    exists (S m). split; [lia |]. split; [exact Hn |]. split; [exact Hs |].
    intros [|m'] Hlt.
    - cbn. intros [Hc Hst]. apply Hnot. split; [| exact Hst].
      injection Hc as ->. reflexivity.
    - cbn [nth_error firstn]. rewrite stateAfter_cons. apply Hmin. lia. }
  destruct st as [q qc]. cbn [fst snd] in *.
  unfold quoteStep in Hstep. cbn [fst snd] in Hstep.
  destruct ((byteZ c =? 34) || (byteZ c =? 39)) eqn:Eq.
  - assert (byteZ c <> 61).
    { intros E. rewrite E in Eq. discriminate. }
    destruct q; cbn [negb] in *.
    + destruct (byteZ c =? qc) eqn:Eqc.
      * apply (Hstep (false, qc)); [reflexivity | exact H | tauto].
      * apply (Hstep (true, qc)); [reflexivity | exact H | tauto].
    + apply (Hstep (true, byteZ c)); [reflexivity | exact H | tauto].
  - destruct ((byteZ c =? 61) && negb q) eqn:E61.
    + injection H as <-. apply andb_true_iff in E61 as [E1 E2].
      apply Z.eqb_eq in E1. apply negb_true_iff in E2. subst q.
      exists 0%nat. split; [lia |]. cbn.
      split; [f_equal; now apply equals_byte |]. split; [reflexivity |].
      intros m' Hm. lia.
    + apply (Hstep (q, qc)); [reflexivity | exact H |].
      intros [E1 E2]. subst q. rewrite E1 in E61. discriminate.
Qed.

Lemma findEqualsBytes_None (s : list ascii) :
  forall i st,
    findEqualsBytes i s (fst st) (snd st) = None ->
    forall m, ~ (nth_error s m = Some equals
                 /\ fst (stateAfter st (firstn m s)) = false).
Proof.
  induction s as [|c t IH]; intros i st H m.
  - destruct m; cbn; intros [? _]; discriminate.
  - cbn [findEqualsBytes] in H.
    assert (Hstep : forall st',
               st' = quoteStep st (byteZ c) ->
               findEqualsBytes (S i) t (fst st') (snd st') = None ->
               ~ (byteZ c = 61 /\ fst st = false) ->
               ~ (nth_error (c :: t) m = Some equals
                  /\ fst (stateAfter st (firstn m (c :: t))) = false)).
    { intros st' -> Hrec Hnot. destruct m as [|m].
      - cbn. intros [Hc Hst]. apply Hnot. split; [| exact Hst].
        injection Hc as ->. reflexivity.
      - cbn [nth_error firstn]. rewrite stateAfter_cons. now apply (IH (S i)). }
    destruct st as [q qc]. cbn [fst snd] in *.
    unfold quoteStep in Hstep. cbn [fst snd] in Hstep.
    destruct ((byteZ c =? 34) || (byteZ c =? 39)) eqn:Eq.
    + assert (byteZ c <> 61).
      { intros E. rewrite E in Eq. discriminate. }
      destruct q; cbn [negb] in *.
      * destruct (byteZ c =? qc) eqn:Eqc.
        -- apply (Hstep (false, qc)); [reflexivity | exact H | tauto].
        -- apply (Hstep (true, qc)); [reflexivity | exact H | tauto].
      * apply (Hstep (true, byteZ c)); [reflexivity | exact H | tauto].
    + destruct ((byteZ c =? 61) && negb q) eqn:E61; [discriminate |].
      apply (Hstep (q, qc)); [reflexivity | exact H |].
      intros [E1 E2]. subst q. rewrite E1 in E61. discriminate.
Qed.

(** ** Trimming *)

Lemma firstNot_Some (f : Z -> bool) (s : list ascii) :
  forall i k j,
    highs k s ->
    strings.firstNot f (utf8.rangeFrom i k s) = Some j ->
    exists m, j = (i + m)%nat /\ (m < length s)%nat /\ droppable f (firstn m s).
Proof.
  induction s as [|c t IH]; intros i k j Hk H; [discriminate |].
  destruct k as [|k].
  - destruct (Z.ltb_spec (byteZ c) 128) as [Hlt | Hge].
    + rewrite rangeFrom_ascii in H by exact Hlt. cbn [strings.firstNot] in H.
      destruct (f (byteZ c)) eqn:Ef.
      * destruct (IH _ _ _ (highs_0 t) H) as (m & -> & Hm & Hd).
        exists (S m). split; [lia |]. split; [cbn; lia |].
        cbn [firstn]. constructor; [now intros _ | exact Hd].
      * injection H as <-. exists 0%nat. split; [lia |].
        split; [cbn; lia | constructor].
    + destruct (rangeFrom_high i c t Hge) as (r & n & Hr & Hn & E).
      rewrite E in H. cbn [strings.firstNot] in H.
      destruct (f r).
      * destruct (IH _ _ _ Hn H) as (m & -> & Hm & Hd).
        exists (S m). split; [lia |]. split; [cbn; lia |].
        cbn [firstn]. constructor; [lia | exact Hd].
      * injection H as <-. exists 0%nat. split; [lia |].
        split; [cbn; lia | constructor].
  - apply highs_tail in Hk as [Hc Hk]. cbn [utf8.rangeFrom] in H.
    destruct (IH _ _ _ Hk H) as (m & -> & Hm & Hd).
    exists (S m). split; [lia |]. split; [cbn; lia |].
    cbn [firstn]. constructor; [lia | exact Hd].
Qed.

Lemma firstNot_None (f : Z -> bool) (s : list ascii) :
  forall i k,
    highs k s ->
    strings.firstNot f (utf8.rangeFrom i k s) = None ->
    droppable f s.
Proof.
  induction s as [|c t IH]; intros i k Hk H; [constructor |].
  destruct k as [|k].
  - destruct (Z.ltb_spec (byteZ c) 128) as [Hlt | Hge].
    + rewrite rangeFrom_ascii in H by exact Hlt. cbn [strings.firstNot] in H.
      destruct (f (byteZ c)) eqn:Ef; [| discriminate].
      constructor; [now intros _ | now apply (IH (S i) 0%nat); [apply highs_0 |]].
    + destruct (rangeFrom_high i c t Hge) as (r & n & Hr & Hn & E).
      rewrite E in H. cbn [strings.firstNot] in H.
      destruct (f r); [| discriminate].
      constructor; [lia | now apply (IH (S i) n)].
  - apply highs_tail in Hk as [Hc Hk]. cbn [utf8.rangeFrom] in H.
    constructor; [lia | now apply (IH (S i) k)].
Qed.

(** [TrimLeftFunc] drops a prefix of droppable bytes. *)
Lemma TrimLeftFunc_split (f : Z -> bool) (s : list ascii) :
  exists pre, s = pre ++ strings.TrimLeftFunc s f /\ droppable f pre.
Proof.
  unfold strings.TrimLeftFunc, strings.indexFuncFalse, utf8.rangeString.
  destruct (strings.firstNot f (utf8.rangeFrom 0 0 s)) as [j|] eqn:E.
  - destruct (firstNot_Some f s 0 0 j (highs_0 s) E) as (m & -> & Hm & Hd).
    exists (firstn m s). rewrite slice_to_end. cbn [Nat.add].
    split; [now rewrite firstn_skipn | exact Hd].
  - exists s. split; [now rewrite app_nil_r |].
    now apply (firstNot_None f s 0 0 (highs_0 s)).
Qed.

Lemma DecodeRune_size_pos (c : ascii) (t : list ascii) :
  (1 <= snd (utf8.DecodeRuneInString (c :: t)) <= S (length t))%nat.
Proof.
  destruct (Z.ltb_spec (byteZ c) 128) as [Hlt | Hge].
  - rewrite DecodeRune_ascii by exact Hlt. cbn. lia.
  - destruct (utf8.DecodeRuneInString (c :: t)) as [r n] eqn:E.
    destruct (DecodeRune_high c t r n Hge E) as (_ & Hn & _). exact Hn.
Qed.

Lemma backUp_le (fuel : nat) (s : list ascii) (start lim : Z) :
  utf8.backUp fuel s start lim <= start.
Proof.
  revert start. induction fuel as [|fuel IH]; intros start; cbn; [lia |].
  destruct (start <? lim); [lia |].
  destruct (utf8.RuneStart _); [lia |].
  specialize (IH (start - 1)). lia.
Qed.

Lemma byteAt_last (t : list ascii) (c : ascii) :
  byteAt (t ++ [c]) (length t) = byteZ c.
Proof.
  unfold byteAt. rewrite app_nth2 by lia. now rewrite Nat.sub_diag.
Qed.

Lemma byteAt_nth_error (s : list ascii) (j : nat) (c : ascii) :
  nth_error s j = Some c -> byteAt s j = byteZ c.
Proof.
  intros H. unfold byteAt. f_equal. now apply nth_error_nth.
Qed.

Lemma highs_all (c : ascii) (t : list ascii) (n : nat) :
  128 <= byteZ c ->
  (forall j, (j < n - 1)%nat -> 128 <= byteAt t j) ->
  (n <= S (length t))%nat ->
  Forall (fun d => 128 <= byteZ d) (firstn n (c :: t)).
Proof.
  intros Hc Hj Hn. apply List.Forall_forall. intros d Hd.
  apply In_nth_error in Hd as [j Hj'].
  assert (Hlt : (j < length (firstn n (c :: t)))%nat)
    by (apply nth_error_Some; congruence).
  rewrite length_firstn in Hlt. cbn [length] in Hlt.
  rewrite nth_error_firstn in Hj'.
  destruct (Nat.ltb_spec j n); [| discriminate].
  destruct j as [|j]; cbn in Hj'.
  - injection Hj' as <-. exact Hc.
  - rewrite <- (byteAt_nth_error t j d Hj'). apply Hj. lia.
Qed.

(** The last rune: at least one byte wide; one byte wide and equal to that
    byte when the byte is ASCII; and spanning only non-ASCII bytes when it is
    wider than one byte. *)
Lemma DecodeLastRune_spec (t : list ascii) (r : Z) (size : nat) :
  t <> [] ->
  utf8.DecodeLastRuneInString t = (r, size) ->
  (1 <= size <= length t)%nat
  /\ ((size = 1%nat
       /\ (byteAt t (length t - 1) < 128 -> r = byteAt t (length t - 1)))
      \/ Forall (fun d => 128 <= byteZ d) (skipn (length t - size) t)).
Proof.
  intros Hne. unfold utf8.DecodeLastRuneInString.
  assert (Hlen : (1 <= length t)%nat) by (destruct t; [congruence | cbn; lia]).
  destruct (Z.eqb_spec (Z.of_nat (length t)) 0) as [E0 | _]; [lia |].
  replace (Z.to_nat (Z.of_nat (length t) - 1)) with (length t - 1)%nat by lia.
  unfold utf8.RuneSelf.
  destruct (Z.ltb_spec (byteAt t (length t - 1)) 128) as [Hlt | Hge].
  - intros H. injection H as <- <-. split; [lia |]. left. now split.
  - set (start := Z.max (utf8.backUp 4 t (Z.of_nat (length t) - 1 - 1) _) 0).
    assert (Hs : 0 <= start <= Z.of_nat (length t) - 1).
    { subst start.
      pose proof (backUp_le 4 t (Z.of_nat (length t) - 1 - 1)
                    (Z.max (Z.of_nat (length t) - utf8.UTFMax) 0)). lia. }
    clearbody start.
    assert (Hlast : Forall (fun d => 128 <= byteZ d) (skipn (length t - 1) t)).
    { apply List.Forall_forall. intros d Hd.
      apply In_nth_error in Hd as [j Hj].
      assert (Hjl : (j < length (skipn (length t - 1) t))%nat)
        by (apply nth_error_Some; congruence).
      rewrite length_skipn in Hjl. assert (j = 0)%nat by lia. subst j.
      rewrite nth_error_skipn in Hj. rewrite Nat.add_0_r in Hj.
      now rewrite <- (byteAt_nth_error _ _ _ Hj). }
    destruct (utf8.DecodeRuneInString (slice t (Z.to_nat start) (length t)))
      as [r' size'] eqn:E.
    destruct (Z.eqb_spec (start + Z.of_nat size') (Z.of_nat (length t)))
      as [Eend | Nend]; cbn [negb]; intros H; injection H as <- <-.
    + rewrite slice_to_end in E.
      assert (Hsk : skipn (Z.to_nat start) t <> []).
      { intros Hnil. apply (f_equal (@length ascii)) in Hnil.
        rewrite length_skipn in Hnil. cbn in Hnil. lia. }
      destruct (skipn (Z.to_nat start) t) as [|c u] eqn:Esk; [congruence |].
      pose proof (DecodeRune_size_pos c u) as Hpos. rewrite E in Hpos.
      cbn [snd] in Hpos.
      split; [lia |].
      destruct (Nat.eq_dec size' 1%nat) as [-> | Hsz].
      * right. exact Hlast.
      * right. replace (length t - size')%nat with (Z.to_nat start) by lia.
        rewrite Esk.
        assert (Hul : length (c :: u) = size').
        { rewrite <- Esk, length_skipn. lia. }
        destruct (Z.ltb_spec (byteZ c) 128) as [Hc | Hc].
        -- rewrite DecodeRune_ascii in E by exact Hc. injection E as _ <-.
           congruence.
        -- destruct (DecodeRune_high c u r' size' Hc E) as (_ & Hn & Hj).
           rewrite <- (firstn_all (c :: u)). rewrite Hul.
           apply highs_all; [exact Hc | exact Hj | lia].
    + split; [lia |]. right. exact Hlast.
Qed.

Lemma droppable_app (f : Z -> bool) (a b : list ascii) :
  droppable f a -> droppable f b -> droppable f (a ++ b).
Proof. unfold droppable. intros. now apply List.Forall_app. Qed.

Lemma firstn_plus (n m : nat) (s : list ascii) :
  firstn (n + m) s = firstn n s ++ firstn m (skipn n s).
Proof.
  revert s. induction n as [|n IH]; intros s; [reflexivity |].
  destruct s as [|c t]; cbn [Nat.add firstn skipn app].
  - now rewrite firstn_nil.
  - now rewrite IH.
Qed.

Lemma slice_split (s : list ascii) (a b c : nat) :
  (a <= b)%nat -> (b <= c)%nat -> slice s a c = slice s a b ++ slice s b c.
Proof.
  intros Hab Hbc. unfold slice.
  replace (c - a)%nat with ((b - a) + (c - b))%nat by lia.
  rewrite firstn_plus. f_equal. rewrite skipn_skipn.
  now replace (b - a + a)%nat with b by lia.
Qed.

Lemma skipn_firstn_slice (s : list ascii) (a b : nat) :
  skipn a (firstn b s) = slice s a b.
Proof. unfold slice. now rewrite skipn_firstn_comm. Qed.

Lemma high_droppable (f : Z -> bool) (s : list ascii) :
  Forall (fun d => 128 <= byteZ d) s -> droppable f s.
Proof.
  unfold droppable. apply List.Forall_impl. intros c H1 H2. lia.
Qed.

Lemma slice_one (s : list ascii) (i : nat) :
  (1 <= i <= length s)%nat ->
  exists c, slice s (i - 1) i = [c] /\ byteAt (firstn i s) (i - 1) = byteZ c.
Proof.
  intros Hi. unfold slice. replace (i - (i - 1))%nat with 1%nat by lia.
  destruct (nth_error s (i - 1)) as [c|] eqn:E.
  - exists c. split.
    + destruct (skipn (i - 1) s) as [|d u] eqn:Es.
      * apply (f_equal (@length ascii)) in Es. rewrite length_skipn in Es.
        cbn in Es. lia.
      * pose proof (nth_error_skipn (i - 1) s 0) as Hn.
        rewrite Nat.add_0_r, Es, E in Hn. cbn in Hn. now injection Hn as ->.
    + apply byteAt_nth_error. rewrite nth_error_firstn.
      destruct (Nat.ltb_spec (i - 1) i); [exact E | lia].
  - apply nth_error_None in E. lia.
Qed.

(** Four rounds are all the backward search of [DecodeLastRuneInString]
    can use: it starts two bytes before the end and never goes below
    [end - UTFMax]. *)
Lemma backUp_fuel (s : list ascii) (start lim : Z) (extra : nat) :
  start <= lim + 2 ->
  utf8.backUp (4 + extra) s start lim = utf8.backUp 4 s start lim.
Proof.
  intros H.
  assert (Hgen : forall fuel st,
             st <= lim + Z.of_nat fuel - 2 ->
             utf8.backUp (fuel + extra) s st lim = utf8.backUp fuel s st lim).
  { induction fuel as [|fuel IH]; intros st Hst.
    - cbn [Nat.add utf8.backUp]. destruct extra as [|extra]; [reflexivity |].
      cbn [utf8.backUp]. destruct (Z.ltb_spec st lim); [reflexivity | lia].
    - cbn [Nat.add utf8.backUp]. destruct (st <? lim); [reflexivity |].
      destruct (utf8.RuneStart _); [reflexivity |]. apply IH. lia. }
  apply (Hgen 4%nat). lia.
Qed.

(** The backward loop of [TrimRightFunc]: with [i <= fuel] it runs to its end,
    and what lies between its result and [i] is droppable. *)
Lemma lastIndexLoop_spec (f : Z -> bool) (s : list ascii) :
  forall fuel i,
    (i <= fuel)%nat -> (i <= length s)%nat ->
    match strings.lastIndexLoop fuel s f i with
    | Some j => (j < i)%nat /\ droppable f (slice s (S j) i)
    | None => droppable f (firstn i s)
    end.
Proof.
  induction fuel as [|fuel IH]; intros i Hf Hi.
  - assert (i = 0)%nat by lia. subst i. cbn. constructor.
  - cbn [strings.lastIndexLoop].
    destruct (Nat.ltb_spec 0 i) as [Hpos | Hz].
    2:{ assert (i = 0)%nat by lia. subst i. constructor. }
    rewrite slice_0.
    destruct (utf8.DecodeLastRuneInString (firstn i s)) as [r size] eqn:E.
    assert (Hne : firstn i s <> []).
    { intros Hnil. apply (f_equal (@length ascii)) in Hnil.
      rewrite length_firstn in Hnil. cbn in Hnil. lia. }
    destruct (DecodeLastRune_spec _ _ _ Hne E) as (Hsz & Hcase).
    rewrite length_firstn in Hsz, Hcase.
    replace (Init.Nat.min i (length s)) with i in * by lia.
    rewrite skipn_firstn_slice in Hcase.
    assert (Hchunk : f r = true -> droppable f (slice s (i - size) i)).
    { intros Hfr. destruct Hcase as [[-> Hr] | Hall].
      - destruct (slice_one s i) as (c & -> & Hc); [lia |].
        constructor; [| constructor]. intros Hlt.
        rewrite Hc in Hr. now rewrite <- (Hr Hlt).
      - now apply high_droppable. }
    destruct (f r) eqn:Efr.
    + specialize (IH (i - size)%nat ltac:(lia) ltac:(lia)).
      destruct (strings.lastIndexLoop fuel s f (i - size)) as [j|].
      * destruct IH as [Hj Hd]. split; [lia |].
        rewrite (slice_split s (S j) (i - size) i) by lia.
        apply droppable_app; [exact Hd | now apply Hchunk].
      * rewrite <- (slice_0 s i).
        rewrite (slice_split s 0 (i - size) i) by lia.
        apply droppable_app; [now rewrite slice_0 | now apply Hchunk].
    + split; [lia |]. destruct Hcase as [[-> _] | Hall].
      * replace (S (i - 1)) with i by lia. unfold slice.
        rewrite Nat.sub_diag. constructor.
      * apply high_droppable.
        rewrite (slice_split s (i - size) (S (i - size)) i) in Hall by lia.
        now apply List.Forall_app in Hall as [_ Hall].
Qed.

(** More fuel than the length of the string changes nothing. *)
Lemma lastIndexLoop_fuel (f : Z -> bool) (s : list ascii) (extra : nat) :
  forall fuel i,
    (i <= fuel)%nat -> (i <= length s)%nat ->
    strings.lastIndexLoop (fuel + extra) s f i
    = strings.lastIndexLoop fuel s f i.
Proof.
  induction fuel as [|fuel IH]; intros i Hf Hi.
  - assert (i = 0)%nat by lia. subst i. cbn [Nat.add strings.lastIndexLoop].
    destruct extra; reflexivity.
  - cbn [Nat.add strings.lastIndexLoop].
    destruct (Nat.ltb_spec 0 i) as [Hpos | Hz]; [| reflexivity].
    rewrite slice_0.
    destruct (utf8.DecodeLastRuneInString (firstn i s)) as [r size] eqn:E.
    assert (Hne : firstn i s <> []).
    { intros Hnil. apply (f_equal (@length ascii)) in Hnil.
      rewrite length_firstn in Hnil. cbn in Hnil. lia. }
    destruct (DecodeLastRune_spec _ _ _ Hne E) as (Hsz & _).
    rewrite length_firstn in Hsz.
    destruct (f r); [| reflexivity]. apply IH; lia.
Qed.

(** [TrimRightFunc] drops a suffix of droppable bytes. *)
Lemma TrimRightFunc_split (f : Z -> bool) (s : list ascii) :
  exists post, s = strings.TrimRightFunc s f ++ post /\ droppable f post.
Proof.
  unfold strings.TrimRightFunc, strings.lastIndexFuncFalse.
  pose proof (lastIndexLoop_spec f s (length s) (length s)
                (Nat.le_refl _) (Nat.le_refl _)) as H.
  destruct (strings.lastIndexLoop (length s) s f (length s)) as [j|].
  - destruct H as [Hj Hd].
    assert (Hcut : forall m, (S j <= m)%nat ->
              exists post, s = slice s 0 m ++ post /\ droppable f post).
    { intros m Hm. exists (skipn m s). rewrite slice_0.
      split; [now rewrite firstn_skipn |].
      destruct (Nat.le_gt_cases m (length s)) as [Hle | Hgt].
      - rewrite (slice_split s (S j) m (length s)) in Hd by lia.
        unfold droppable in Hd. apply List.Forall_app in Hd as [_ Hd].
        now rewrite slice_to_end in Hd.
      - rewrite skipn_all2 by lia. constructor. }
    destruct (utf8.RuneSelf <=? byteAt s j).
    + rewrite slice_to_end.
      destruct (skipn j s) as [|c u] eqn:Es.
      { apply (f_equal (@length ascii)) in Es. rewrite length_skipn in Es.
        cbn in Es. lia. }
      pose proof (DecodeRune_size_pos c u) as Hpos.
      destruct (utf8.DecodeRuneInString (c :: u)) as [r wid].
      cbn [snd] in Hpos. apply Hcut. lia.
    + apply Hcut. lia.
  - exists s. split; [reflexivity |]. now rewrite firstn_all in H.
Qed.

(** [TrimFunc] keeps a contiguous part of its argument and drops only
    droppable bytes on either side. *)
Lemma TrimFunc_split (f : Z -> bool) (s : list ascii) :
  exists pre post,
    s = pre ++ strings.TrimFunc s f ++ post
    /\ droppable f pre /\ droppable f post.
Proof.
  unfold strings.TrimFunc.
  destruct (TrimLeftFunc_split f s) as (pre & Hs & Hpre).
  destruct (TrimRightFunc_split f (strings.TrimLeftFunc s f)) as (post & Ht & Hpost).
  exists pre, post. split; [| now split].
  now rewrite <- Ht.
Qed.

Lemma droppable_space_noEquals (s : list ascii) :
  droppable unicode.IsSpace s -> noEquals s.
Proof.
  unfold droppable, noEquals. apply List.Forall_impl. intros c H ->.
  specialize (H eq_refl). vm_compute in H. discriminate.
Qed.

(** [TrimSpace] never drops an equals sign. *)
Lemma TrimSpace_split (s : list ascii) :
  exists pre post,
    s = pre ++ strings.TrimSpace s ++ post /\ noEquals pre /\ noEquals post.
Proof.
  destruct (TrimFunc_split unicode.IsSpace s) as (pre & post & Hs & Hpre & Hpost).
  exists pre, post. split; [exact Hs |].
  split; now apply droppable_space_noEquals.
Qed.

Lemma firstNot_shift (f : Z -> bool) (rs : list (nat * Z)) :
  strings.firstNot f (map (fun '(j, r) => (S j, r)) rs)
  = option_map S (strings.firstNot f rs).
Proof.
  induction rs as [|[j r] rs IH]; [reflexivity |].
  cbn. destruct (f r); [exact IH | reflexivity].
Qed.

(** A leading blank does not change what [TrimSpace] returns. *)
Lemma TrimSpace_leading_space (s : list ascii) :
  strings.TrimSpace (space :: s) = strings.TrimSpace s.
Proof.
  unfold strings.TrimSpace, strings.TrimFunc. f_equal.
  unfold strings.TrimLeftFunc, strings.indexFuncFalse, utf8.rangeString.
  rewrite rangeFrom_ascii by reflexivity.
  cbn [strings.firstNot].
  change (unicode.IsSpace (byteZ space)) with true. cbn iota.
  rewrite rangeFrom_shift, firstNot_shift.
  destruct (strings.firstNot unicode.IsSpace (utf8.rangeFrom 0 0 s)) as [j|];
    [| reflexivity].
  cbn [option_map]. now rewrite !slice_to_end.
Qed.

(** ** unquoteValue *)

Lemma ends_split (v : list ascii) :
  (2 <= length v)%nat -> exists a mid b, v = a :: mid ++ [b].
Proof.
  intros H. destruct v as [|a t]; [cbn in H; lia |].
  destruct (exists_last (l := t)) as (mid & b & ->).
  { intros ->. cbn in H. lia. }
  now exists a, mid, b.
Qed.

Lemma byteAt_last_cons (a b : ascii) (mid : list ascii) :
  byteAt (a :: mid ++ [b]) (S (length mid)) = byteZ b.
Proof. exact (byteAt_last (a :: mid) b). Qed.

Lemma unquoteValue_wrapped (q : ascii) (mid : list ascii) :
  q = dquote \/ q = squote -> unquoteValue (q :: mid ++ [q]) = mid.
Proof.
  intros Hq. unfold unquoteValue.
  assert (Hlen : length (q :: mid ++ [q]) = S (S (length mid)))
    by (cbn; rewrite length_app; cbn; lia).
  rewrite Hlen. cbn [Nat.leb]. rewrite byteAt_head.
  replace (S (S (length mid)) - 1)%nat with (S (length mid)) by lia.
  rewrite !byteAt_last_cons.
  assert (Hc : ((byteZ q =? 34) && (byteZ q =? 34)
               || (byteZ q =? 39) && (byteZ q =? 39)) = true)
    by (destruct Hq as [-> | ->]; reflexivity).
  rewrite Hc. unfold slice.
  replace (S (length mid) - 1)%nat with (length mid) by lia.
  change (skipn 1 (q :: mid ++ [q])) with (mid ++ [q]).
  rewrite firstn_app, Nat.sub_diag, firstn_all.
  cbn [firstn]. apply app_nil_r.
Qed.

Lemma unquoteValue_cases (v : list ascii) :
  unquoteValue v = v
  \/ exists q mid, (q = dquote \/ q = squote) /\ v = q :: mid ++ [q].
Proof.
  unfold unquoteValue.
  destruct (Nat.leb_spec 2 (length v)) as [Hlen | _]; [| now left].
  destruct (ends_split v Hlen) as (a & mid & b & ->).
  rewrite byteAt_head.
  replace (length (a :: mid ++ [b]) - 1)%nat with (S (length mid))
    by (cbn; rewrite length_app; cbn; lia).
  rewrite !byteAt_last_cons.
  destruct ((byteZ a =? 34) && (byteZ b =? 34)
            || (byteZ a =? 39) && (byteZ b =? 39)) eqn:E; [| now left].
  right. exists a, mid.
  apply orb_true_iff in E as [E | E]; apply andb_true_iff in E as [Ea Eb];
    apply Z.eqb_eq in Ea, Eb.
  - assert (a = dquote) by now apply byteZ_inj.
    assert (b = dquote) by now apply byteZ_inj. subst. auto.
  - assert (a = squote) by now apply byteZ_inj.
    assert (b = squote) by now apply byteZ_inj. subst. auto.
Qed.

(** What [unquoteValue] removes holds no equals sign. *)
Lemma unquoteValue_split (v : list ascii) :
  exists pre post, v = pre ++ unquoteValue v ++ post
    /\ noEquals pre /\ noEquals post.
Proof.
  destruct (unquoteValue_cases v) as [E | (q & mid & Hq & ->)].
  - exists [], []. rewrite E, app_nil_r. repeat split; constructor.
  - rewrite unquoteValue_wrapped by exact Hq.
    exists [q], [q]. split; [reflexivity |].
    split; (constructor; [| constructor]); destruct Hq as [-> | ->]; discriminate.
Qed.


(** ** GetEnv and GetEnvOrPanic *)

Lemma Getenv_empty_iff (env : gmap (list ascii) (list ascii)) (key : list ascii) :
  os.Getenv env key = [] <-> env !! key = None \/ env !! key = Some [].
Proof.
  unfold os.Getenv. destruct (env !! key) as [v|]; cbn.
  - split; [intros ->; now right | intros [H | H]; congruence].
  - split; [now left | reflexivity].
Qed.

Lemma Getenv_Some (env : gmap (list ascii) (list ascii)) (key v : list ascii) :
  env !! key = Some v -> os.Getenv env key = v.
Proof. unfold os.Getenv. now intros ->. Qed.


(** ** findEnvFile *)

Lemma Dir_length (dir : list (list ascii)) :
  length (os.filepath_Dir dir) = (length dir - 1)%nat.
Proof.
  unfold os.filepath_Dir. rewrite removelast_firstn_len, length_firstn. lia.
Qed.

Lemma Dir_fixpoint (dir : list (list ascii)) :
  os.filepath_Dir dir = dir <-> dir = [].
Proof.
  unfold os.filepath_Dir. split; [| now intros ->].
  intros H. destruct dir as [|c t]; [reflexivity |].
  apply (f_equal (@length (list ascii))) in H.
  fold (os.filepath_Dir (c :: t)) in H. rewrite Dir_length in H. cbn in H. lia.
Qed.

Lemma ancestor_succ (k : nat) (dir : list (list ascii)) :
  ancestor (S k) dir = ancestor k (os.filepath_Dir dir).
Proof. unfold ancestor. apply Nat.iter_succ_r. Qed.

(** The climb visits the ancestors 1, 2, ... in order, at most [n] of them
    and none above the root, and stops at the first that holds the file. *)
Lemma climb_spec (fs : os.FileSystem) (pathname : list ascii) :
  forall n dir,
    match climb fs pathname n dir with
    | inr path =>
      exists k, (1 <= k <= n)%nat /\ (k <= length dir)%nat
        /\ path = os.Join (ancestor k dir) pathname
        /\ os.Stat fs path = true
        /\ forall j, (1 <= j < k)%nat ->
             os.Stat fs (os.Join (ancestor j dir) pathname) = false
    | inl err =>
      err = EnvFileNotFound pathname
      /\ forall k, (1 <= k <= n)%nat -> (k <= length dir)%nat ->
           os.Stat fs (os.Join (ancestor k dir) pathname) = false
    end.
Proof.
  induction n as [|n IH]; intros dir; cbn [climb].
  - split; [reflexivity | intros k Hk; lia].
  - destruct (bool_decide (os.filepath_Dir dir = dir)) eqn:Eroot.
    + apply bool_decide_eq_true in Eroot. apply Dir_fixpoint in Eroot.
      subst dir. split; [reflexivity |]. intros k Hk Hl. cbn in Hl. lia.
    + apply bool_decide_eq_false in Eroot.
      assert (Hlen : (1 <= length dir)%nat).
      { destruct dir; [now destruct Eroot | cbn; lia]. }
      destruct (os.Stat fs (os.Join (os.filepath_Dir dir) pathname)) eqn:Est.
      * exists 1%nat. split; [lia |]. split; [lia |].
        split; [reflexivity |]. split; [exact Est |]. intros j Hj. lia.
      * specialize (IH (os.filepath_Dir dir)).
        destruct (climb fs pathname n (os.filepath_Dir dir)) as [err | path].
        -- destruct IH as [-> Hall]. split; [reflexivity |].
           intros k Hk Hl. destruct k as [|k]; [lia |].
           destruct k as [|k]; [exact Est |].
           rewrite ancestor_succ. apply Hall; [lia |].
           rewrite Dir_length. lia.
        -- destruct IH as (k & Hk & Hl & -> & Hst & Hmin).
           rewrite Dir_length in Hl.
           exists (S k). split; [lia |]. split; [lia |].
           split; [now rewrite ancestor_succ |].
           split; [exact Hst |].
           intros j Hj. destruct j as [|j]; [lia |].
           destruct j as [|j]; [exact Est |].
           rewrite ancestor_succ. apply Hmin. lia.
Qed.


(** ** The loading loop, one text at a time *)

Section LoadSteps.

Variable options : LoadOptions.
Variable text : list ascii.
Variable rest : list (list ascii).
Variable p : Process.
Variable loaded : nat.

Lemma loadLines_blank {tables : unicode.Tables} :
  isBlankOrComment text = true ->
  loadLines options (text :: rest) p loaded = loadLines options rest p loaded.
Proof.
  unfold isBlankOrComment. intros H. cbn [loadLines]. now rewrite H.
Qed.

Lemma loadLines_unparsable {tables : unicode.Tables} (err : ParseError) :
  isBlankOrComment text = false ->
  parseLine (strings.TrimSpace text) = inl err ->
  loadLines options (text :: rest) p loaded
  = loadLines options rest
      (if Debug options
       then Fprintf p (DebugSkip (strings.TrimSpace text) err) else p)
      loaded.
Proof.
  unfold isBlankOrComment. intros H E. cbn [loadLines]. now rewrite H, E.
Qed.

Lemma loadLines_set {tables : unicode.Tables} (key value : list ascii)
  (env : gmap (list ascii) (list ascii)) :
  isBlankOrComment text = false ->
  parseLine (strings.TrimSpace text) = inr (key, value) ->
  Overwrite options || bytes_eqb (os.Getenv (environ p) key) [] = true ->
  os.Setenv (environ p) key value = inr env ->
  loadLines options (text :: rest) p loaded
  = loadLines options rest
      (if Debug options
       then Fprintf (mkProcess env (stderr p)) (DebugSet key (maskOf value))
       else mkProcess env (stderr p))
      (S loaded).
Proof.
  unfold isBlankOrComment. intros H E C S. cbn [loadLines].
  now rewrite H, E, C, S.
Qed.

Lemma loadLines_set_fails {tables : unicode.Tables}
  (key value : list ascii) (err : Z) :
  isBlankOrComment text = false ->
  parseLine (strings.TrimSpace text) = inr (key, value) ->
  Overwrite options || bytes_eqb (os.Getenv (environ p) key) [] = true ->
  os.Setenv (environ p) key value = inl err ->
  loadLines options (text :: rest) p loaded
  = (p, (loaded, Some (FailedToSet key err))).
Proof.
  unfold isBlankOrComment. intros H E C S. cbn [loadLines].
  now rewrite H, E, C, S.
Qed.

Lemma loadLines_keep {tables : unicode.Tables} (key value : list ascii) :
  isBlankOrComment text = false ->
  parseLine (strings.TrimSpace text) = inr (key, value) ->
  Overwrite options || bytes_eqb (os.Getenv (environ p) key) [] = false ->
  loadLines options (text :: rest) p loaded = loadLines options rest p loaded.
Proof.
  unfold isBlankOrComment. intros H E C. cbn [loadLines].
  now rewrite H, E, C.
Qed.

End LoadSteps.

Lemma set_condition (options : LoadOptions) (p : Process) (key : list ascii) :
  Overwrite options || bytes_eqb (os.Getenv (environ p) key) [] = true
  <-> Overwrite options = true
      \/ environ p !! key = None \/ environ p !! key = Some [].
Proof.
  rewrite orb_true_iff, bytes_eqb_true, Getenv_empty_iff. reflexivity.
Qed.

(** ** The debug mask *)

Lemma maskOf_short (value : list ascii) :
  (length value < 5)%nat -> maskOf value = repeat star (length value).
Proof.
  intros H. unfold maskOf, strings.Repeat.
  destruct (Nat.ltb_spec (length value) 5); [reflexivity | lia].
Qed.

Lemma maskOf_long (value : list ascii) :
  (5 <= length value)%nat -> maskOf value = str "***".
Proof.
  intros H. unfold maskOf.
  destruct (Nat.ltb_spec (length value) 5); [lia | reflexivity].
Qed.

Lemma maskOf_masked (key value : list ascii) :
  maskedEntry (DebugSet key (maskOf value)).
Proof.
  cbn. destruct (Nat.lt_ge_cases (length value) 5) as [H | H].
  - exists (length value). split; [lia | now apply maskOf_short].
  - exists 3%nat. split; [lia | now apply maskOf_long].
Qed.

(** Whatever the loop writes in debug mode is masked. *)
Lemma loadLines_log {tables : unicode.Tables}
  (options : LoadOptions) (texts : list (list ascii)) :
  forall p loaded p' r,
    loadLines options texts p loaded = (p', r) ->
    exists new, stderr p' = stderr p ++ new /\ Forall maskedEntry new.
Proof.
  induction texts as [|text rest IH]; intros p loaded p' r H.
  - cbn in H. injection H as <- _. exists []. split; [now rewrite app_nil_r | constructor].
  - cbn [loadLines] in H.
    assert (Hlog : forall q e n,
               loadLines options rest
                 (if Debug options then Fprintf q e else q) n = (p', r) ->
               stderr q = stderr p -> maskedEntry e ->
               exists new, stderr p' = stderr p ++ new /\ Forall maskedEntry new).
    { intros q e n Hrun Hq He. apply IH in Hrun as (new & Hnew & Hall).
      destruct (Debug options).
      - exists (e :: new). cbn [Fprintf stderr] in Hnew.
        rewrite Hnew, Hq, <- app_assoc. split; [reflexivity | now constructor].
      - exists new. rewrite Hnew, Hq. now split. }
    destruct (bytes_eqb (strings.TrimSpace text) []
              || strings.HasPrefix (strings.TrimSpace text) [hash]);
      [now apply IH in H |].
    destruct (parseLine (strings.TrimSpace text)) as [err | [key value]].
    + apply (Hlog _ _ _ H); [reflexivity | exact I].
    + destruct (Overwrite options || bytes_eqb (os.Getenv (environ p) key) []);
        [| now apply IH in H].
      destruct (os.Setenv (environ p) key value) as [err | env].
      * injection H as <- _. exists []. split; [now rewrite app_nil_r | constructor].
      * apply (Hlog _ _ _ H); [reflexivity | apply maskOf_masked].
Qed.


(** ** isValidEnvKey *)

Lemma restValid_forallb {tables : unicode.Tables} (rs : list (nat * Z)) :
  restValid rs = forallb okChar (map snd rs).
Proof.
  induction rs as [|[i ch] rs IH]; [reflexivity |].
  cbn [restValid map snd forallb]. rewrite <- IH. unfold okChar.
  destruct (unicode.IsLetter ch), (unicode.IsDigit ch), (ch =? 95); reflexivity.
Qed.

Lemma okChar_iff {tables : unicode.Tables} (ch : Z) :
  okChar ch = true
  <-> unicode.IsLetter ch = true \/ unicode.IsDigit ch = true \/ ch = 95.
Proof.
  unfold okChar. rewrite !orb_true_iff, Z.eqb_eq. tauto.
Qed.

(** The replacement character is no character of a key, whatever the
    tables. *)
Lemma okChar_RuneError {tables : unicode.Tables} : okChar utf8.RuneError = false.
Proof.
  unfold okChar, unicode.IsLetter, unicode.IsDigit.
  change ((0 <=? utf8.RuneError) && (utf8.RuneError <=? unicode.MaxLatin1))
    with false.
  change (utf8.RuneError <=? unicode.MaxLatin1) with false.
  change utf8.RuneError with 65533. cbv iota.
  now rewrite unicode.Letter_RuneError, unicode.Digit_RuneError.
Qed.

Lemma map_snd_shift (rs : list (nat * Z)) :
  map snd (map (fun '(j, r) => (S j, r)) rs) = map snd rs.
Proof.
  induction rs as [|[j r] rs IH]; [reflexivity |]. cbn. now rewrite IH.
Qed.

Lemma slice_tail (c : ascii) (rest : list ascii) :
  slice (c :: rest) 1 (length (c :: rest)) = rest.
Proof. rewrite slice_to_end. reflexivity. Qed.

Lemma isValidEnvKey_cons {tables : unicode.Tables}
  (c : ascii) (rest : list ascii) :
  isValidEnvKey (c :: rest)
  = (unicode.IsLetter (byteZ c) || (byteZ c =? 95))
    && forallb okChar (map snd (utf8.rangeString rest)).
Proof.
  unfold isValidEnvKey. rewrite slice_tail, byteAt_head, restValid_forallb.
  assert (E : bytes_eqb (c :: rest) [] = false) by now apply bytes_eqb_false.
  rewrite E.
  destruct (unicode.IsLetter (byteZ c)), (byteZ c =? 95); reflexivity.
Qed.

Lemma underscore_byte (c : ascii) : byteZ c = 95 <-> c = underscore.
Proof.
  split; [| now intros ->]. intros H. apply byteZ_inj. now rewrite H.
Qed.


(** ** parseLine *)

Lemma parseLine_body {tables : unicode.Tables} (line : list ascii) :
  parseLine line = parseBody (strings.TrimPrefix line (str "export")).
Proof. reflexivity. Qed.

Lemma parseBody_bytes {tables : unicode.Tables} (body : list ascii) :
  parseBody body
  = match findEqualsBytes 0 body false 0 with
    | None => inl MissingEquals
    | Some i =>
      checkEntry (strings.TrimSpace (firstn i body))
                 (strings.TrimSpace (skipn (S i) body))
    end.
Proof.
  unfold parseBody, utf8.rangeString.
  rewrite (findEquals_bytes body 0 0 false 0 (highs_0 body)).
  destruct (findEqualsBytes 0 body false 0) as [i|]; [| reflexivity].
  now rewrite slice_0, slice_to_end, Nat.add_1_r.
Qed.

(** The scan returns the first unquoted equals sign when there is one. *)
Lemma findEqualsBytes_first (body : list ascii) (i : nat) :
  unquotedEquals body i ->
  (forall j, (j < i)%nat -> ~ unquotedEquals body j) ->
  findEqualsBytes 0 body false 0 = Some i.
Proof.
  intros Hi Hmin.
  destruct (findEqualsBytes 0 body false 0) as [j|] eqn:E.
  - apply (findEqualsBytes_Some body 0 (false, 0)) in E
      as (m & -> & Hn & Hs & Hm).
    cbn [Nat.add]. f_equal.
    destruct (Nat.lt_trichotomy m i) as [Hlt | [-> | Hgt]].
    + destruct (Hmin m Hlt). now split.
    + reflexivity.
    + destruct (Hm i Hgt). exact Hi.
  - destruct (findEqualsBytes_None body 0 (false, 0) E i). exact Hi.
Qed.

Lemma findEqualsBytes_none_iff (body : list ascii) :
  findEqualsBytes 0 body false 0 = None
  <-> forall i, ~ unquotedEquals body i.
Proof.
  split.
  - intros E i. exact (findEqualsBytes_None body 0 (false, 0) E i).
  - intros Hno. destruct (findEqualsBytes 0 body false 0) as [j|] eqn:E;
      [| reflexivity].
    apply (findEqualsBytes_Some body 0 (false, 0)) in E
      as (m & -> & Hn & Hs & _).
    destruct (Hno m). now split.
Qed.

Lemma checkEntry_value {tables : unicode.Tables} (key value k v : list ascii) :
  checkEntry key value = inr (k, v) -> k = key /\ v = unquoteValue value.
Proof.
  unfold checkEntry. destruct (bytes_eqb key []); [discriminate |].
  destruct (negb (isValidEnvKey key)); [discriminate |].
  intros H. injection H as <- <-. now split.
Qed.

Lemma checkEntry_not_missing {tables : unicode.Tables}
  (key value : list ascii) :
  checkEntry key value <> inl MissingEquals.
Proof.
  unfold checkEntry. destruct (bytes_eqb key []); [discriminate |].
  destruct (negb (isValidEnvKey key)); discriminate.
Qed.

Lemma noEquals_app (a b : list ascii) :
  noEquals a -> noEquals b -> noEquals (a ++ b).
Proof. unfold noEquals. intros. now apply List.Forall_app. Qed.


(** ** The export prefix *)

Lemma TrimPrefix_export (rest : list ascii) :
  strings.TrimPrefix (str "export" ++ rest) (str "export") = rest.
Proof.
  unfold strings.TrimPrefix, strings.HasPrefix.
  rewrite length_app.
  change (length (str "export")) with 6%nat.
  change (slice (str "export" ++ rest) 0 6) with (str "export").
  assert (E : bytes_eqb (str "export") (str "export") = true)
    by now apply bytes_eqb_true.
  rewrite E. cbn [Nat.add Nat.leb andb].
  unfold slice. change (skipn 6 (str "export" ++ rest)) with rest.
  apply firstn_all2. lia.
Qed.

Lemma TrimPrefix_absent (line prefix : list ascii) :
  strings.HasPrefix line prefix = false -> strings.TrimPrefix line prefix = line.
Proof. unfold strings.TrimPrefix. now intros ->. Qed.

Lemma findEqualsBytes_shift (s : list ascii) :
  forall i inQuotes quoteChar,
    findEqualsBytes (S i) s inQuotes quoteChar
    = option_map S (findEqualsBytes i s inQuotes quoteChar).
Proof.
  induction s as [|c t IH]; intros i q qc; [reflexivity |].
  cbn [findEqualsBytes].
  destruct ((byteZ c =? 34) || (byteZ c =? 39)).
  - destruct (negb q); [apply IH |]. destruct (byteZ c =? qc); apply IH.
  - destruct ((byteZ c =? 61) && negb q); [reflexivity | apply IH].
Qed.

(** A blank in front of the body moves the delimiter by one and changes
    neither key nor value. *)
Lemma parseBody_leading_space {tables : unicode.Tables} (body : list ascii) :
  parseBody (space :: body) = parseBody body.
Proof.
  rewrite !parseBody_bytes.
  change (findEqualsBytes 0 (space :: body) false 0)
    with (findEqualsBytes 1 body false 0).
  rewrite findEqualsBytes_shift.
  destruct (findEqualsBytes 0 body false 0) as [i|]; [| reflexivity].
  cbn [option_map firstn skipn]. now rewrite TrimSpace_leading_space.
Qed.

Lemma HasPrefix_export_key (key value : list ascii) :
  strings.HasPrefix key (str "export") = false ->
  strings.HasPrefix (key ++ equals :: value) (str "export") = false.
Proof.
  intros H. unfold strings.HasPrefix in *.
  apply andb_false_iff. right. apply bytes_eqb_false.
  destruct key as [|a [|b [|c [|d [|e [|f key]]]]]]; try (intros E; discriminate E).
  apply andb_false_iff in H as [H | H]; [discriminate H |].
  apply bytes_eqb_false in H. exact H.
Qed.


(** ** The loader *)

Lemma TrimRightFunc_prefix (s : list ascii) (f : Z -> bool) :
  exists m, strings.TrimRightFunc s f = firstn m s.
Proof.
  unfold strings.TrimRightFunc.
  destruct (strings.lastIndexFuncFalse s f) as [i|].
  - destruct (utf8.RuneSelf <=? byteAt s i).
    + destruct (utf8.DecodeRuneInString _) as [r wid].
      eexists. apply slice_0.
    + eexists. apply slice_0.
  - exists 0%nat. apply slice_0.
Qed.

(** [TrimSpace] of a string that starts with [#] is empty or starts with
    [#]. *)
Lemma TrimSpace_hash (s : list ascii) :
  strings.TrimSpace (hash :: s) = []
  \/ exists t, strings.TrimSpace (hash :: s) = hash :: t.
Proof.
  unfold strings.TrimSpace, strings.TrimFunc.
  assert (E : strings.TrimLeftFunc (hash :: s) unicode.IsSpace = hash :: s).
  { unfold strings.TrimLeftFunc, strings.indexFuncFalse, utf8.rangeString.
    rewrite rangeFrom_ascii by reflexivity. cbn [strings.firstNot].
    change (unicode.IsSpace (byteZ hash)) with false. cbn iota.
    apply slice_to_end. }
  rewrite E.
  destruct (TrimRightFunc_prefix (hash :: s) unicode.IsSpace) as [m ->].
  destruct m as [|m]; [now left | right]. cbn [firstn]. eauto.
Qed.

Lemma HasPrefix_export_hash (rest : list ascii) :
  strings.HasPrefix (hash :: rest) (str "export") = false.
Proof.
  unfold strings.HasPrefix. apply andb_false_iff. right.
  apply bytes_eqb_false. rewrite slice_0. intros E. discriminate E.
Qed.

(** A line that parses is neither blank nor a comment. *)
Lemma parsed_not_skipped {tables : unicode.Tables}
  (line key value : list ascii) :
  parseLine line = inr (key, value) ->
  bytes_eqb line [] || strings.HasPrefix line [hash] = false.
Proof.
  intros H. destruct line as [|c rest]; [discriminate H |].
  apply orb_false_iff. split; [now apply bytes_eqb_false |].
  unfold strings.HasPrefix. cbn [length Nat.leb andb].
  unfold slice. cbn [Nat.sub skipn firstn].
  apply bytes_eqb_false. intros E. injection E as ->.
  rewrite parseLine_body in H.
  rewrite TrimPrefix_absent in H by apply HasPrefix_export_hash.
  rewrite parseBody_bytes in H.
  destruct (findEqualsBytes 0 (hash :: rest) false 0) as [i|]; [| discriminate].
  destruct i as [|i].
  - cbn [firstn] in H. discriminate H.
  - cbn [firstn] in H. unfold checkEntry in H.
    destruct (TrimSpace_hash (firstn i rest)) as [E | [t E]];
      rewrite E in H; [discriminate H |].
    assert (Eb : bytes_eqb (hash :: t) [] = false) by now apply bytes_eqb_false.
    rewrite Eb, isValidEnvKey_cons in H.
    change (unicode.IsLetter (byteZ hash) || (byteZ hash =? 95)) with false in H.
    discriminate H.
Qed.

Lemma parsed_not_blank {tables : unicode.Tables} (text key value : list ascii) :
  parseLine (strings.TrimSpace text) = inr (key, value) ->
  isBlankOrComment text = false.
Proof. apply parsed_not_skipped. Qed.

Lemma Setenv_inr (env env' : gmap (list ascii) (list ascii))
  (key value : list ascii) :
  os.Setenv env key value = inr env' -> env' = <[key := value]> env.
Proof.
  unfold os.Setenv. destruct (length key =? 0)%nat; [discriminate |].
  destruct (os.hasByte 61 key || os.hasByte 0 key); [discriminate |].
  destruct (os.hasByte 0 value); [discriminate |].
  intros H. now injection H as <-.
Qed.

Lemma keep_condition (options : LoadOptions) (p : Process) (key : list ascii) :
  Overwrite options || bytes_eqb (os.Getenv (environ p) key) [] = false
  <-> Overwrite options = false
      /\ exists v, v <> [] /\ environ p !! key = Some v.
Proof.
  rewrite orb_false_iff, bytes_eqb_false. unfold os.Getenv.
  destruct (environ p !! key) as [v|]; cbn.
  - split.
    + intros [H1 H2]. split; [exact H1 |]. now exists v.
    + intros [H1 (w & Hw & E)]. injection E as ->. now split.
  - split; [intros [_ H]; now destruct H |].
    intros [_ (w & _ & E)]. discriminate.
Qed.

(** With debug mode on, the count grows by the number of "set" entries
    written. *)
Lemma loadLines_count_log {tables : unicode.Tables}
  (options : LoadOptions) (texts : list (list ascii)) :
  Debug options = true ->
  forall p loaded p' loaded' err,
    loadLines options texts p loaded = (p', (loaded', err)) ->
    exists new,
      stderr p' = stderr p ++ new
      /\ loaded' = (loaded + length (List.filter isSetEntry new))%nat.
Proof.
  intros Hd. induction texts as [|text rest IH]; intros p loaded p' loaded' err H.
  - cbn in H. injection H as <- <- _. exists []. rewrite app_nil_r. cbn.
    split; [reflexivity | lia].
  - cbn [loadLines] in H. rewrite Hd in H.
    destruct (bytes_eqb (strings.TrimSpace text) []
              || strings.HasPrefix (strings.TrimSpace text) [hash]);
      [now apply IH in H |].
    destruct (parseLine (strings.TrimSpace text)) as [perr | [key value]].
    + apply IH in H as (new & Hnew & Hc). cbn [Fprintf stderr] in Hnew.
      exists (DebugSkip (strings.TrimSpace text) perr :: new).
      rewrite Hnew, <- app_assoc. split; [reflexivity | exact Hc].
    + destruct (Overwrite options || bytes_eqb (os.Getenv (environ p) key) []);
        [| now apply IH in H].
      destruct (os.Setenv (environ p) key value) as [e | env].
      * injection H as <- <- _. exists []. rewrite app_nil_r. cbn.
        split; [reflexivity | lia].
      * apply IH in H as (new & Hnew & Hc). cbn [Fprintf stderr] in Hnew.
        exists (DebugSet key (maskOf value) :: new).
        rewrite Hnew, <- app_assoc. split; [reflexivity |].
        cbn [List.filter isSetEntry length]. lia.
Qed.

Lemma sampleStream_scan :
  bufio.Scan (bufio.mkReader sampleStream None)
  = ([str "DB_PORT=8080"; str "# comment";
      str "export NAME=" ++ [dquote] ++ str "A" ++ [dquote]], None).
Proof. vm_compute. reflexivity. Qed.

(** The sample stream, loaded without overwriting into an environment that
    has [DB_PORT] and no [NAME]. *)
Lemma sampleStream_load {tables : unicode.Tables}
  (options : LoadOptions) (p : Process) (port : list ascii) :
  Overwrite options = false ->
  environ p !! str "DB_PORT" = Some port -> port <> [] ->
  environ p !! str "NAME" = None \/ environ p !! str "NAME" = Some [] ->
  exists p',
    loadFromReader (bufio.mkReader sampleStream None) options p
    = (p', (1%nat, None))
    /\ environ p' = <[str "NAME" := str "A"]> (environ p).
Proof.
  intros Ho Hport Hne Hname. unfold loadFromReader.
  rewrite sampleStream_scan.
  rewrite (loadLines_keep options _ _ p 0 (str "DB_PORT") (str "8080"));
    [| reflexivity | vm_compute; reflexivity
     | apply keep_condition; split; [exact Ho | now exists port]].
  rewrite loadLines_blank by (vm_compute; reflexivity).
  rewrite (loadLines_set options _ _ p 0 (str "NAME") (str "A")
             (<[str "NAME" := str "A"]> (environ p)));
    [| reflexivity | vm_compute; reflexivity
     | apply set_condition; now right | reflexivity].
  cbn [loadLines]. eexists. split; [reflexivity |].
  destruct (Debug options); reflexivity.
Qed.


Lemma loadLines_app {tables : unicode.Tables}
  (options : LoadOptions) (a b : list (list ascii)) :
  forall p loaded,
    loadLines options (a ++ b) p loaded
    = match loadLines options a p loaded with
      | (q, (n, None)) => loadLines options b q n
      | (q, (n, Some err)) => (q, (n, Some err))
      end.
Proof.
  induction a as [|text rest IH]; intros p loaded; [reflexivity |].
  cbn [app loadLines].
  destruct (bytes_eqb (strings.TrimSpace text) []
            || strings.HasPrefix (strings.TrimSpace text) [hash]); [apply IH |].
  destruct (parseLine (strings.TrimSpace text)) as [perr | [key value]];
    [apply IH |].
  destruct (Overwrite options || bytes_eqb (os.Getenv (environ p) key) []);
    [| apply IH].
  destruct (os.Setenv (environ p) key value) as [e | env]; [reflexivity |].
  apply IH.
Qed.

(** The loop reads the process state through the environment only: two
    states with the same environment end with the same environment, count
    and error. *)
Lemma loadLines_env_only {tables : unicode.Tables}
  (options : LoadOptions) (texts : list (list ascii)) :
  forall p q loaded p' r,
    environ p = environ q ->
    loadLines options texts p loaded = (p', r) ->
    exists q', loadLines options texts q loaded = (q', r)
               /\ environ q' = environ p'.
Proof.
  induction texts as [|text rest IH]; intros p q loaded p' r Henv H.
  - cbn in *. injection H as <- <-. now exists q.
  - cbn [loadLines] in *. rewrite <- Henv.
    destruct (bytes_eqb (strings.TrimSpace text) []
              || strings.HasPrefix (strings.TrimSpace text) [hash]);
      [now apply (IH p) |].
    destruct (parseLine (strings.TrimSpace text)) as [perr | [key value]].
    + eapply IH; [| exact H]. now destruct (Debug options).
    + destruct (Overwrite options || bytes_eqb (os.Getenv (environ p) key) []);
        [| now apply (IH p)].
      destruct (os.Setenv (environ p) key value) as [e | env].
      * injection H as <- <-. now exists q.
      * eapply IH; [| exact H]. now destruct (Debug options).
Qed.

Lemma isSkipped_false {tables : unicode.Tables} (text : list ascii) :
  isSkipped text = false ->
  isBlankOrComment text = false
  /\ exists key value, parseLine (strings.TrimSpace text) = inr (key, value).
Proof.
  unfold isSkipped, isBlankOrComment. intros H.
  apply orb_false_iff in H as [H1 H2]. split; [exact H1 |].
  destruct (parseLine (strings.TrimSpace text)) as [e | [key value]];
    [discriminate | eauto].
Qed.

Lemma isSkipped_true {tables : unicode.Tables} (text : list ascii) :
  isSkipped text = true ->
  isBlankOrComment text = true
  \/ (isBlankOrComment text = false
      /\ exists err, parseLine (strings.TrimSpace text) = inl err).
Proof.
  unfold isSkipped, isBlankOrComment. intros H.
  destruct (bytes_eqb (strings.TrimSpace text) []
            || strings.HasPrefix (strings.TrimSpace text) [hash]);
    [now left | right]. split; [reflexivity |].
  destruct (parseLine (strings.TrimSpace text)) as [e | kv];
    [eauto | discriminate].
Qed.

(** One skipped text: the loop goes on with the rest, with the environment
    and the count it had. *)
Lemma loadLines_skip {tables : unicode.Tables}
  (options : LoadOptions) (text : list ascii)
  (rest : list (list ascii)) (p : Process) (loaded : nat) :
  isSkipped text = true ->
  exists p1,
    environ p1 = environ p
    /\ (isBlankOrComment text = true \/ Debug options = false -> p1 = p)
    /\ loadLines options (text :: rest) p loaded
       = loadLines options rest p1 loaded.
Proof.
  intros H. apply isSkipped_true in H as [Hb | (Hb & err & Hp)].
  - exists p. split; [reflexivity |]. split; [reflexivity |].
    now apply loadLines_blank.
  - rewrite (loadLines_unparsable options text rest p loaded err Hb Hp).
    eexists. split; [| split; [| reflexivity]].
    + now destruct (Debug options).
    + intros [H | ->]; [congruence | reflexivity].
Qed.

(** Dropping the skipped texts from the input changes neither the final
    environment, nor the count, nor the error. *)
Lemma loadLines_filter {tables : unicode.Tables}
  (options : LoadOptions) (texts : list (list ascii)) :
  forall p loaded p' r,
    loadLines options texts p loaded = (p', r) ->
    exists q',
      loadLines options (List.filter (fun t => negb (isSkipped t)) texts) p loaded
      = (q', r)
      /\ environ q' = environ p'.
Proof.
  induction texts as [|text rest IH]; intros p loaded p' r H.
  - cbn in *. injection H as <- <-. now exists p.
  - cbn [List.filter]. destruct (isSkipped text) eqn:Es; cbn [negb].
    + destruct (loadLines_skip options text rest p loaded Es) as (p1 & He & _ & E).
      rewrite E in H. apply IH in H as (q' & Hq & Hqe).
      destruct (loadLines_env_only options _ p1 p loaded q' r He Hq)
        as (q'' & Hq'' & Hqe'').
      exists q''. split; [exact Hq'' | congruence].
    + apply isSkipped_false in Es as (Hb & key & value & Hp).
      unfold isBlankOrComment in Hb.
      cbn [loadLines] in *. rewrite Hb, Hp in *.
      destruct (Overwrite options || bytes_eqb (os.Getenv (environ p) key) []);
        [| now apply IH].
      destruct (os.Setenv (environ p) key value) as [e | env].
      * injection H as <- <-. now exists p.
      * now apply IH.
Qed.

Lemma loadLines_filter_blank {tables : unicode.Tables}
  (options : LoadOptions) (texts : list (list ascii)) :
  forall p loaded,
    loadLines options (List.filter (fun t => negb (isBlankOrComment t)) texts)
      p loaded
    = loadLines options texts p loaded.
Proof.
  induction texts as [|text rest IH]; intros p loaded; [reflexivity |].
  cbn [List.filter]. destruct (isBlankOrComment text) eqn:Eb; cbn [negb].
  - rewrite (loadLines_blank options text rest p loaded Eb). apply IH.
  - unfold isBlankOrComment in Eb. cbn [loadLines]. rewrite Eb.
    destruct (parseLine (strings.TrimSpace text)) as [perr | [key value]];
      [apply IH |].
    destruct (Overwrite options || bytes_eqb (os.Getenv (environ p) key) []);
      [| apply IH].
    destruct (os.Setenv (environ p) key value) as [e | env]; [reflexivity |].
    apply IH.
Qed.

(** The errors the loop can end with. *)
Lemma loadLines_error {tables : unicode.Tables}
  (options : LoadOptions) (texts : list (list ascii)) :
  forall p loaded p' loaded' err,
    loadLines options texts p loaded = (p', (loaded', Some err)) ->
    exists key code, err = FailedToSet key code.
Proof.
  induction texts as [|text rest IH]; intros p loaded p' loaded' err H;
    [discriminate |].
  cbn [loadLines] in H.
  destruct (bytes_eqb (strings.TrimSpace text) []
            || strings.HasPrefix (strings.TrimSpace text) [hash]);
    [now apply IH in H |].
  destruct (parseLine (strings.TrimSpace text)) as [perr | [key value]];
    [now apply IH in H |].
  destruct (Overwrite options || bytes_eqb (os.Getenv (environ p) key) []);
    [| now apply IH in H].
  destruct (os.Setenv (environ p) key value) as [e | env];
    [| now apply IH in H].
  injection H as _ _ <-. eauto.
Qed.

(** ** Errors of the load *)

Lemma climb_not_found (fs : os.FileSystem) (pathname : list ascii) (n : nat)
  (dir : list (list ascii)) :
  (forall path, os.Stat fs path = false) ->
  climb fs pathname n dir = inl (EnvFileNotFound pathname).
Proof.
  intros Hno. pose proof (climb_spec fs pathname n dir) as H.
  destruct (climb fs pathname n dir) as [err | path].
  - now destruct H as [-> _].
  - destruct H as (k & _ & _ & _ & Hst & _). rewrite Hno in Hst. discriminate.
Qed.


(** * Main results *)

(** C1 (amended).  [isValidEnvKey] accepts a string exactly when it is not
    empty, its first byte, read as a code point, is a letter or the
    underscore, and every character decoded from the bytes after the first is
    a letter, a digit or the underscore.  For a string that starts with an
    ASCII byte this is the rule "first character a letter or underscore,
    every later character a letter, digit or underscore".  A string that
    starts with a character of two or more bytes, a Cyrillic letter for one,
    is rejected, as the package's test of a Cyrillic word expects.  Letter
    and digit are what [unicode.IsLetter] and [unicode.IsDigit] say with the
    tables of the toolchain, whatever their version. *)
Theorem C1_isValidEnvKey_first_byte {tables : unicode.Tables} :
  (forall key,
      isValidEnvKey key = true
      <-> exists c rest,
            key = c :: rest
            /\ (unicode.IsLetter (byteZ c) = true \/ c = underscore)
            /\ Forall (fun ch => unicode.IsLetter ch = true
                                 \/ unicode.IsDigit ch = true \/ ch = 95)
                      (map snd (utf8.rangeString rest)))
  /\ (forall c rest,
         byteZ c < 128 ->
         isValidEnvKey (c :: rest) = Spec.validKey (c :: rest))
  /\ (forall key,
         (2 <= snd (utf8.DecodeRuneInString key))%nat ->
         isValidEnvKey key = false)
  /\ map isValidEnvKey [str "PORT"; str "_X"; str "Var1"] = [true; true; true]
  /\ map isValidEnvKey [str ""; str "123"; str "my-var"; str "a b"]
     = [false; false; false; false]
  /\ isValidEnvKey cyrillicWord = false.
Proof.
  assert (Hmulti : forall key,
             (2 <= snd (utf8.DecodeRuneInString key))%nat ->
             isValidEnvKey key = false).
  { intros key Hsz. destruct key as [|c rest]; [reflexivity |].
    rewrite isValidEnvKey_cons.
    destruct (Z.ltb_spec (byteZ c) 128) as [Hlt | Hge].
    { rewrite DecodeRune_ascii in Hsz by exact Hlt. cbn in Hsz. lia. }
    destruct (utf8.DecodeRuneInString (c :: rest)) as [r n] eqn:E.
    cbn [snd] in Hsz.
    destruct (DecodeRune_multibyte c rest r n Hge E) as (_ & Hn & Hj).
    destruct rest as [|c1 rest]; [cbn in Hn; lia |].
    specialize (Hj 0%nat ltac:(lia)). rewrite byteAt_head in Hj.
    unfold utf8.rangeString. cbn [utf8.rangeFrom].
    rewrite DecodeRune_continuation by lia.
    cbn [map snd forallb]. rewrite okChar_RuneError.
    cbn [andb]. apply andb_false_r. }
  split; [| split; [| split; [exact Hmulti | split; [| split]]]];
    [| | reflexivity | reflexivity | apply Hmulti; vm_compute; lia].
  - intros key. split.
    + destruct key as [|c rest]; [discriminate |].
      rewrite isValidEnvKey_cons. intros H.
      apply andb_true_iff in H as [H1 H2].
      exists c, rest. split; [reflexivity |]. split.
      * apply orb_true_iff in H1 as [H1 | H1]; [now left | right].
        apply Z.eqb_eq in H1. now apply underscore_byte.
      * rewrite forallb_forall in H2. apply List.Forall_forall.
        intros ch Hin. apply okChar_iff. now apply H2.
    + intros (c & rest & -> & Hc & Hrest).
      rewrite isValidEnvKey_cons. apply andb_true_iff. split.
      * apply orb_true_iff. destruct Hc as [Hc | ->]; [now left | now right].
      * apply forallb_forall. intros ch Hin. apply okChar_iff.
        rewrite List.Forall_forall in Hrest. now apply Hrest.
  - intros c rest Hc. rewrite isValidEnvKey_cons.
    unfold Spec.validKey, utf8.rangeString.
    rewrite rangeFrom_ascii by exact Hc.
    rewrite rangeFrom_shift. cbn [map snd]. rewrite map_snd_shift.
    reflexivity.
Qed.

Lemma C1_isValidEnvKey_first_byte_witness :
  isValidEnvKey (str "PORT") = Spec.validKey (str "PORT")
  /\ isValidEnvKey cyrillicKa = false
  /\ isValidEnvKey modifierLetterKey = true
  /\ isValidEnvKey nagMundariDigitKey = true.
Proof.
  destruct C1_isValidEnvKey_first_byte as (Hiff & Hascii & Hmulti & _).
  split; [| split; [| split]].
  - apply (Hascii "P"%char (str "ORT")). reflexivity.
  - apply (Hmulti cyrillicKa). vm_compute. lia.
  - apply Hiff. exists "a"%char, ["240"; "158"; "128"; "176"]%char.
    split; [reflexivity |]. split; [left; reflexivity |].
    constructor; [left; vm_compute; reflexivity | constructor].
  - apply Hiff. exists "a"%char, ["240"; "158"; "147"; "176"]%char.
    split; [reflexivity |]. split; [left; reflexivity |].
    constructor; [right; left; vm_compute; reflexivity | constructor].
Defined.

(** Against C1 as worded: the one-letter key U+043A (Cyrillic small
    letter ka, bytes D0 BA) is a single character and a letter, so the
    worded rule accepts it, and [isValidEnvKey] rejects it. *)
Lemma C1_counterexample_cyrillic_key :
  utf8.rangeString cyrillicKa = [(0%nat, 1082)]
  /\ unicode.IsLetter 1082 = true
  /\ Spec.validKey cyrillicKa = true
  /\ isValidEnvKey cyrillicKa = false.
Proof. repeat split; vm_compute; reflexivity. Qed.

(** C2 (amended).  When a variable is set in debug mode the entry written to
    standard error holds the key and a mask: as many asterisks as the value
    has bytes when it has fewer than five, and the fixed three asterisks for
    a value of five bytes or more.  The mask depends on the length of the
    value only, and nothing but such masks is written when variables are
    set. *)
Theorem C2_debug_mask_threshold_five {tables : unicode.Tables} :
  (forall value : list ascii,
      ((length value < 5)%nat -> maskOf value = repeat star (length value))
      /\ ((5 <= length value)%nat -> maskOf value = str "***"))
  /\ (forall v v' : list ascii, length v = length v' -> maskOf v = maskOf v')
  /\ (forall options text rest p loaded key value env,
         Debug options = true ->
         parseLine (strings.TrimSpace text) = inr (key, value) ->
         Overwrite options = true
         \/ environ p !! key = None \/ environ p !! key = Some [] ->
         os.Setenv (environ p) key value = inr env ->
         loadLines options (text :: rest) p loaded
         = loadLines options rest
             (mkProcess env (stderr p ++ [DebugSet key (maskOf value)]))
             (S loaded))
  /\ (forall reader options p p' r,
         loadFromReader reader options p = (p', r) ->
         exists new, stderr p' = stderr p ++ new /\ Forall maskedEntry new).
Proof.
  split; [intros value; split; [apply maskOf_short | apply maskOf_long] |].
  split; [intros v v' H; unfold maskOf; now rewrite H |].
  split.
  - intros options text rest p loaded key value env Hd Hp Hc Hs.
    pose proof (parsed_not_blank _ _ _ Hp) as Hb.
    apply set_condition in Hc.
    rewrite (loadLines_set options text rest p loaded key value env Hb Hp Hc Hs).
    now rewrite Hd.
  - intros reader options p p' r. unfold loadFromReader.
    destruct (bufio.Scan reader) as [texts scanErr].
    destruct (loadLines options texts p 0) as [q [n e]] eqn:E.
    apply loadLines_log in E.
    destruct e as [e|]; [| destruct scanErr]; intros H; injection H as <- _;
      exact E.
Qed.

Lemma C2_debug_mask_threshold_five_witness :
  loadLines (sampleOptions true) [str "KEY=abcd"] (mkProcess ∅ []) 0
  = loadLines (sampleOptions true) []
      (mkProcess {[ str "KEY" := str "abcd" ]}
                 [DebugSet (str "KEY") (str "****")]) 1.
Proof.
  destruct C2_debug_mask_threshold_five as (_ & _ & Hstep & _).
  apply (Hstep (sampleOptions true) (str "KEY=abcd") [] (mkProcess ∅ []) 0%nat
           (str "KEY") (str "abcd") {[ str "KEY" := str "abcd" ]}).
  - reflexivity.
  - vm_compute. reflexivity.
  - right. left. vm_compute. reflexivity.
  - vm_compute. reflexivity.
Defined.

(** Against C2 as worded: for a value of four bytes the code logs four
    asterisks where the wording asks for three. *)
Lemma C2_counterexample_four_bytes :
  stderr (fst (loadLines (sampleOptions true) [str "KEY=abcd"]
                 (mkProcess ∅ []) 0))
  = [DebugSet (str "KEY") (str "****")]
  /\ Spec.mask (str "abcd") = str "***"
  /\ maskOf (str "abcd") <> Spec.mask (str "abcd").
Proof.
  split; [| split; [reflexivity | discriminate]].
  vm_compute. reflexivity.
Qed.

(** C3 (amended).  After the [export] prefix is removed, [parseLine] splits
    the line at the first equals sign that is not inside a quoted span.  A
    span opens on any double or single quote met outside a span, whether or
    not a backslash precedes it, and closes when the same quote character
    recurs.  An equals sign inside a span never ends the key.  The parse
    fails with the missing-equals error exactly when the line has no equals
    sign outside a span.  The value is cut from what follows the delimiter
    by trimming blanks and one pair of quotes, so every later equals sign
    stays in it. *)
Theorem C3_split_at_first_unquoted_equals {tables : unicode.Tables} :
  (forall line i,
      let body := strings.TrimPrefix line (str "export") in
      unquotedEquals body i ->
      (forall j, (j < i)%nat -> ~ unquotedEquals body j) ->
      parseLine line
      = checkEntry (strings.TrimSpace (firstn i body))
                   (strings.TrimSpace (skipn (S i) body))
      /\ forall key value,
           parseLine line = inr (key, value) ->
           exists pre post,
             skipn (S i) body = pre ++ value ++ post
             /\ noEquals pre /\ noEquals post)
  /\ (forall line,
         parseLine line = inl MissingEquals
         <-> forall i,
               ~ unquotedEquals (strings.TrimPrefix line (str "export")) i)
  /\ parseLine connStrLine = inr (str "CONN_STR", str "user=pass@host:5432")
  /\ parseLine (str "NAME==John=Doe") = inr (str "NAME", str "=John=Doe").
Proof.
  split; [| split; [| split; reflexivity]].
  - intros line i body Hi Hmin.
    assert (E : parseLine line
                = checkEntry (strings.TrimSpace (firstn i body))
                             (strings.TrimSpace (skipn (S i) body))).
    { rewrite parseLine_body, parseBody_bytes. fold body.
      now rewrite (findEqualsBytes_first body i Hi Hmin). }
    split; [exact E |].
    intros key value Hp. rewrite E in Hp.
    apply checkEntry_value in Hp as [_ ->].
    destruct (TrimSpace_split (skipn (S i) body)) as (pre1 & post1 & Hs & Hp1 & Hq1).
    destruct (unquoteValue_split (strings.TrimSpace (skipn (S i) body)))
      as (pre2 & post2 & Hu & Hp2 & Hq2).
    exists (pre1 ++ pre2), (post2 ++ post1).
    split; [| split; now apply noEquals_app].
    rewrite Hs at 1. rewrite Hu at 1. now rewrite <- !app_assoc.
  - intros line. rewrite <- findEqualsBytes_none_iff.
    rewrite parseLine_body, parseBody_bytes.
    destruct (findEqualsBytes 0 (strings.TrimPrefix line (str "export")) false 0)
      as [i|].
    + split; [| discriminate]. intros H. now apply checkEntry_not_missing in H.
    + tauto.
Qed.

Lemma C3_split_at_first_unquoted_equals_witness :
  parseLine (str "NAME==John=Doe")
  = checkEntry (strings.TrimSpace (str "NAME"))
               (strings.TrimSpace (str "=John=Doe")).
Proof.
  destruct C3_split_at_first_unquoted_equals as (Hsplit & _).
  apply (Hsplit (str "NAME==John=Doe") 4%nat).
  - split; reflexivity.
  - intros j Hj [Hn _].
    do 4 (destruct j as [|j]; [discriminate Hn |]). lia.
Defined.

(** Against C3 as worded, where a quote follows a backslash.  By the
    wording such a quote opens no span, so the first equals sign of either
    line below is the delimiter (offsets 3 and 2).  [parseLine] lets the
    quote open a span: on the first line it finds no delimiter at all, and
    on the second it cuts the key at offset 5, after the closing quote. *)
Lemma C3_counterexample_escaped_quote :
  Spec.splitIndex escapedQuoteLine = Some 3%nat
  /\ parseLine escapedQuoteLine = inl MissingEquals
  /\ Spec.splitIndex escapedQuoteLine2 = Some 2%nat
  /\ parseLine escapedQuoteLine2
     = inl (InvalidKeyFormat (firstn 5 escapedQuoteLine2)).
Proof. repeat split; vm_compute; reflexivity. Qed.

(** C4.  For a line that parses, the loader writes the variable exactly
    when [Overwrite] is set or the variable is unset or empty, and the count
    goes up by one exactly when the variable has been written: a failed
    write ends the load with the count as it was, and a variable that is
    left alone leaves process state and count as they were.  With debug mode
    on, the count gained over a run is the number of "set" entries logged.
    The three-line sample, loaded without overwriting while [DB_PORT] is
    set and [NAME] is not, gives count 1, writes [NAME] only and leaves
    [DB_PORT] as it was. *)
Theorem C4_overwrite_policy_and_count {tables : unicode.Tables} :
  (forall options text rest p loaded key value,
      parseLine (strings.TrimSpace text) = inr (key, value) ->
      (Overwrite options = true
       \/ environ p !! key = None \/ environ p !! key = Some [] ->
       (forall env,
           os.Setenv (environ p) key value = inr env ->
           env = <[key := value]> (environ p)
           /\ exists p1,
                environ p1 = env
                /\ loadLines options (text :: rest) p loaded
                   = loadLines options rest p1 (S loaded))
       /\ (forall err,
              os.Setenv (environ p) key value = inl err ->
              loadLines options (text :: rest) p loaded
              = (p, (loaded, Some (FailedToSet key err)))))
      /\ (Overwrite options = false ->
          (exists v, v <> [] /\ environ p !! key = Some v) ->
          loadLines options (text :: rest) p loaded
          = loadLines options rest p loaded))
  /\ (forall options texts p loaded p' loaded' err,
         Debug options = true ->
         loadLines options texts p loaded = (p', (loaded', err)) ->
         exists new,
           stderr p' = stderr p ++ new
           /\ loaded' = (loaded + length (List.filter isSetEntry new))%nat)
  /\ (forall options p port,
         Overwrite options = false ->
         environ p !! str "DB_PORT" = Some port -> port <> [] ->
         environ p !! str "NAME" = None \/ environ p !! str "NAME" = Some [] ->
         exists p',
           loadFromReader (bufio.mkReader sampleStream None) options p
           = (p', (1%nat, None))
           /\ environ p' = <[str "NAME" := str "A"]> (environ p)
           /\ environ p' !! str "DB_PORT" = Some port).
Proof.
  split; [| split].
  - intros options text rest p loaded key value Hp.
    pose proof (parsed_not_blank _ _ _ Hp) as Hb.
    split.
    + intros Hc. apply set_condition in Hc. split.
      * intros env Hs. split; [now apply Setenv_inr |].
        rewrite (loadLines_set options text rest p loaded key value env Hb Hp Hc Hs).
        eexists. split; [| reflexivity]. now destruct (Debug options).
      * intros err Hs.
        exact (loadLines_set_fails options text rest p loaded key value err
                 Hb Hp Hc Hs).
    + intros Ho Hv.
      apply (loadLines_keep options text rest p loaded key value Hb Hp).
      apply keep_condition. now split.
  - intros options texts p loaded p' loaded' err Hd H.
    exact (loadLines_count_log options texts Hd p loaded p' loaded' err H).
  - intros options p port Ho Hport Hne Hname.
    destruct (sampleStream_load options p port Ho Hport Hne Hname)
      as (p' & Hrun & Henv).
    exists p'. split; [exact Hrun |]. split; [exact Henv |].
    rewrite Henv, lookup_insert_ne by discriminate. exact Hport.
Qed.

Lemma C4_overwrite_policy_and_count_witness :
  exists p',
    loadFromReader (bufio.mkReader sampleStream None) (sampleOptions false)
      (mkProcess {[ str "DB_PORT" := str "5432" ]} [])
    = (p', (1%nat, None))
    /\ environ p' = <[str "NAME" := str "A"]> {[ str "DB_PORT" := str "5432" ]}
    /\ environ p' !! str "DB_PORT" = Some (str "5432").
Proof.
  destruct C4_overwrite_policy_and_count as (_ & _ & Hsample).
  destruct (Hsample (sampleOptions false)
              (mkProcess {[ str "DB_PORT" := str "5432" ]} []) (str "5432"))
    as (p' & Hrun & Henv & Hport).
  - reflexivity.
  - vm_compute. reflexivity.
  - discriminate.
  - left. vm_compute. reflexivity.
  - exists p'. split; [exact Hrun |]. split; [exact Henv | exact Hport].
Defined.

(** C5.  Every error comes back with the count reached so far.  When the
    file is not found, or cannot be opened, [Load] returns count 0 and leaves
    the process state as it was.  When the scan ends with a read error, the
    count of the texts loaded before it comes back with the error.  When a
    write to the environment fails, the load stops there: the error comes
    back with the count reached before the failing text, which is not
    counted, and no later text is looked at.  [Load] hands on what the
    loader returns for the file it opened, so the read error and the failed
    write come out of [Load] with these counts. *)
Theorem C5_errors_keep_the_count {tables : unicode.Tables} :
  (forall fs opts p err,
      findEnvFile fs (Pathname (parseOptions opts)) (MaxLevels (parseOptions opts))
      = inl err ->
      Load fs opts p = (p, (0%nat, Some (Quickenv err))))
  /\ (forall fs opts p wd,
         (forall path, os.Stat fs path = false) ->
         os.Getwd fs = inr wd ->
         Load fs opts p
         = (p, (0%nat,
                Some (Quickenv (EnvFileNotFound (Pathname (parseOptions opts)))))))
  /\ (forall fs opts p path err,
         findEnvFile fs (Pathname (parseOptions opts)) (MaxLevels (parseOptions opts))
         = inr path ->
         os.Open fs path = inl err ->
         Load fs opts p = (p, (0%nat, Some (FailedToOpen path err))))
  /\ (forall reader options p texts scanErr q n,
         bufio.Scan reader = (texts, Some scanErr) ->
         loadLines options texts p 0 = (q, (n, None)) ->
         loadFromReader reader options p = (q, (n, Some (ReadError scanErr))))
  /\ (forall reader options p before text after scanErr q n key value err,
         bufio.Scan reader = (before ++ text :: after, scanErr) ->
         loadLines options before p 0 = (q, (n, None)) ->
         parseLine (strings.TrimSpace text) = inr (key, value) ->
         Overwrite options = true
         \/ environ q !! key = None \/ environ q !! key = Some [] ->
         os.Setenv (environ q) key value = inl err ->
         loadFromReader reader options p
         = (q, (n, Some (FailedToSet key err))))
  /\ (forall fs opts p path reader,
         findEnvFile fs (Pathname (parseOptions opts)) (MaxLevels (parseOptions opts))
         = inr path ->
         os.Open fs path = inr reader ->
         Load fs opts p = loadFromReader reader (parseOptions opts) p)
  /\ (forall fs opts p path reader texts scanErr q n,
         findEnvFile fs (Pathname (parseOptions opts)) (MaxLevels (parseOptions opts))
         = inr path ->
         os.Open fs path = inr reader ->
         bufio.Scan reader = (texts, Some scanErr) ->
         loadLines (parseOptions opts) texts p 0 = (q, (n, None)) ->
         Load fs opts p = (q, (n, Some (ReadError scanErr))))
  /\ (forall fs opts p path reader before text after scanErr q n key value err,
         findEnvFile fs (Pathname (parseOptions opts)) (MaxLevels (parseOptions opts))
         = inr path ->
         os.Open fs path = inr reader ->
         bufio.Scan reader = (before ++ text :: after, scanErr) ->
         loadLines (parseOptions opts) before p 0 = (q, (n, None)) ->
         parseLine (strings.TrimSpace text) = inr (key, value) ->
         Overwrite (parseOptions opts) = true
         \/ environ q !! key = None \/ environ q !! key = Some [] ->
         os.Setenv (environ q) key value = inl err ->
         Load fs opts p = (q, (n, Some (FailedToSet key err)))).
Proof.
  assert (Hread : forall reader options p texts scanErr q n,
             bufio.Scan reader = (texts, Some scanErr) ->
             loadLines options texts p 0 = (q, (n, None)) ->
             loadFromReader reader options p
             = (q, (n, Some (ReadError scanErr)))).
  { intros reader options p texts scanErr q n Hs Hl. unfold loadFromReader.
    now rewrite Hs, Hl. }
  assert (Hset : forall reader options p before text after scanErr q n
                        key value err,
             bufio.Scan reader = (before ++ text :: after, scanErr) ->
             loadLines options before p 0 = (q, (n, None)) ->
             parseLine (strings.TrimSpace text) = inr (key, value) ->
             Overwrite options = true
             \/ environ q !! key = None \/ environ q !! key = Some [] ->
             os.Setenv (environ q) key value = inl err ->
             loadFromReader reader options p
             = (q, (n, Some (FailedToSet key err)))).
  { intros reader options p before text after scanErr q n key value err
      Hs Hl Hp Hc He.
    unfold loadFromReader. rewrite Hs, loadLines_app, Hl.
    apply set_condition in Hc.
    rewrite (loadLines_set_fails options text after q n key value err
               (parsed_not_blank _ _ _ Hp) Hp Hc He).
    reflexivity. }
  assert (Hopen : forall fs opts p path reader,
             findEnvFile fs (Pathname (parseOptions opts))
               (MaxLevels (parseOptions opts)) = inr path ->
             os.Open fs path = inr reader ->
             Load fs opts p = loadFromReader reader (parseOptions opts) p).
  { intros fs opts p path reader Hf Ho. unfold Load. now rewrite Hf, Ho. }
  split; [| split; [| split; [| split; [exact Hread | split; [exact Hset |
    split; [exact Hopen | split]]]]]].
  - intros fs opts p err H. unfold Load. now rewrite H.
  - intros fs opts p wd Hno Hwd. unfold Load, findEnvFile.
    rewrite Hno, Hwd, climb_not_found by exact Hno. reflexivity.
  - intros fs opts p path err Hf Ho. unfold Load. now rewrite Hf, Ho.
  - intros fs opts p path reader texts scanErr q n Hf Ho Hs Hl.
    rewrite (Hopen _ _ _ _ _ Hf Ho). now apply (Hread _ _ _ texts).
  - intros fs opts p path reader before text after scanErr q n key value err
      Hf Ho Hs Hl Hp Hc He.
    rewrite (Hopen _ _ _ _ _ Hf Ho).
    exact (Hset _ _ _ before text after scanErr q n key value err
             Hs Hl Hp Hc He).
Qed.

Lemma C5_errors_keep_the_count_witness :
  Load emptyFS [] (mkProcess ∅ [])
  = (mkProcess ∅ [], (0%nat, Some (Quickenv (EnvFileNotFound (str ".env")))))
  /\ loadFromReader (bufio.mkReader nulStream None) (sampleOptions false)
       (mkProcess ∅ [])
     = (mkProcess {[ str "A" := str "1" ]} [],
        (1%nat, Some (FailedToSet (str "B") os.EINVAL)))
  /\ loadFromReader failingReader (sampleOptions false) (mkProcess ∅ [])
     = (mkProcess (<[str "B" := str "2"]> {[ str "A" := str "1" ]}) [],
        (2%nat, Some (ReadError (bufio.ErrReader 5))))
  /\ Load failingFS [] (mkProcess ∅ [])
     = (mkProcess (<[str "B" := str "2"]> {[ str "A" := str "1" ]}) [],
        (2%nat, Some (ReadError (bufio.ErrReader 5))))
  /\ Load nulFS [] (mkProcess ∅ [])
     = (mkProcess {[ str "A" := str "1" ]} [],
        (1%nat, Some (FailedToSet (str "B") os.EINVAL))).
Proof.
  destruct C5_errors_keep_the_count
    as (_ & Hnf & _ & Hread & Hset & _ & HLread & HLset).
  split; [| split; [| split; [| split]]].
  - apply (Hnf emptyFS [] (mkProcess ∅ []) sampleDir); reflexivity.
  - apply (Hset (bufio.mkReader nulStream None) (sampleOptions false)
             (mkProcess ∅ []) [str "A=1"] (str "B=" ++ ["000"%char])
             [str "C=3"] None
             (mkProcess {[ str "A" := str "1" ]} []) 1%nat
             (str "B") ["000"%char] os.EINVAL).
    + vm_compute. reflexivity.
    + vm_compute. reflexivity.
    + vm_compute. reflexivity.
    + right. left. vm_compute. reflexivity.
    + vm_compute. reflexivity.
  - apply (Hread failingReader (sampleOptions false) (mkProcess ∅ [])
             [str "A=1"; str "B=2"] (bufio.ErrReader 5)).
    + vm_compute. reflexivity.
    + vm_compute. reflexivity.
  - apply (HLread failingFS [] (mkProcess ∅ []) (os.Bare (str ".env"))
             failingReader [str "A=1"; str "B=2"] (bufio.ErrReader 5)).
    + reflexivity.
    + reflexivity.
    + vm_compute. reflexivity.
    + vm_compute. reflexivity.
  - apply (HLset nulFS [] (mkProcess ∅ []) (os.Bare (str ".env"))
             (bufio.mkReader nulStream None)
             [str "A=1"] (str "B=" ++ ["000"%char]) [str "C=3"] None
             (mkProcess {[ str "A" := str "1" ]} []) 1%nat
             (str "B") ["000"%char] os.EINVAL).
    + reflexivity.
    + reflexivity.
    + vm_compute. reflexivity.
    + vm_compute. reflexivity.
    + vm_compute. reflexivity.
    + right. left. vm_compute. reflexivity.
    + vm_compute. reflexivity.
Defined.

(** C6.  A text that is blank, a comment or not parsable is passed over:
    the loop goes on with the next text, with the environment and the count
    as they were, and nothing but a debug entry is written for it.  Taking
    all such texts out of the input changes neither the final environment,
    nor the count, nor the error; taking out the blank and comment ones
    changes nothing at all.  No parse error comes back from the loader: the
    only errors are a failed write to the environment and a failed read. *)
Theorem C6_unparsable_lines_are_skipped {tables : unicode.Tables} :
  (forall options text rest p loaded,
      isSkipped text = true ->
      exists p1,
        environ p1 = environ p
        /\ (isBlankOrComment text = true \/ Debug options = false -> p1 = p)
        /\ loadLines options (text :: rest) p loaded
           = loadLines options rest p1 loaded)
  /\ (forall options texts p loaded p' r,
         loadLines options texts p loaded = (p', r) ->
         exists q',
           loadLines options (List.filter (fun t => negb (isSkipped t)) texts)
             p loaded = (q', r)
           /\ environ q' = environ p')
  /\ (forall options texts p loaded,
         loadLines options (List.filter (fun t => negb (isBlankOrComment t)) texts)
           p loaded
         = loadLines options texts p loaded)
  /\ (forall reader options p p' loaded err,
         loadFromReader reader options p = (p', (loaded, Some err)) ->
         (exists key code, err = FailedToSet key code)
         \/ (exists scanErr, err = ReadError scanErr)).
Proof.
  split; [exact loadLines_skip |].
  split; [exact loadLines_filter |].
  split; [exact loadLines_filter_blank |].
  intros reader options p p' loaded err. unfold loadFromReader.
  destruct (bufio.Scan reader) as [texts scanErr].
  destruct (loadLines options texts p 0) as [q [n e]] eqn:E.
  destruct e as [e|].
  - intros H. injection H as _ _ <-. left.
    now apply loadLines_error in E.
  - destruct scanErr as [se|]; intros H; [| discriminate].
    injection H as _ _ <-. right. eauto.
Qed.

Lemma C6_unparsable_lines_are_skipped_witness :
  exists p1,
    environ p1 = ∅
    /\ loadLines (sampleOptions true) [str "justvalue"; str "A=1"]
         (mkProcess ∅ []) 0
       = loadLines (sampleOptions true) [str "A=1"] p1 0.
Proof.
  destruct C6_unparsable_lines_are_skipped as (Hskip & _).
  destruct (Hskip (sampleOptions true) (str "justvalue") [str "A=1"]
              (mkProcess ∅ []) 0%nat) as (p1 & He & _ & Hrun).
  - vm_compute. reflexivity.
  - exists p1. split; [exact He | exact Hrun].
Defined.

(** C7.  [unquoteValue] returns its argument without the first and the last
    byte exactly when the argument is at least two bytes long and both bytes
    are the double quote or both are the single quote; in every other case
    (length 0 or 1, no quotes, different quotes at the two ends) it returns
    the argument as it is.  One layer only is removed, and the inner bytes,
    backslashes included, come back untouched. *)
Theorem C7_unquoteValue_matching_pair :
  (forall q mid,
      q = dquote \/ q = squote ->
      unquoteValue (q :: mid ++ [q]) = mid)
  /\ (forall v,
         (forall q mid, q = dquote \/ q = squote -> v <> q :: mid ++ [q]) ->
         unquoteValue v = v)
  /\ (forall v, (length v < 2)%nat -> unquoteValue v = v)
  /\ (forall a b mid, a <> b -> unquoteValue (a :: mid ++ [b]) = a :: mid ++ [b])
  /\ (forall q mid,
         q = dquote \/ q = squote ->
         unquoteValue (q :: (q :: mid ++ [q]) ++ [q]) = q :: mid ++ [q])
  /\ unquoteValue (dquote :: str "with \" ++ dquote :: str " escaped" ++ [dquote])
     = str "with \" ++ dquote :: str " escaped"
  /\ unquoteValue (dquote :: str "mixed" ++ [squote]) = dquote :: str "mixed" ++ [squote]
  /\ unquoteValue [dquote] = [dquote]
  /\ unquoteValue [] = [].
Proof.
  assert (Hother : forall v,
             (forall q mid, q = dquote \/ q = squote -> v <> q :: mid ++ [q]) ->
             unquoteValue v = v).
  { intros v Hno. destruct (unquoteValue_cases v) as [E | (q & mid & Hq & E)];
      [exact E | now destruct (Hno q mid Hq)]. }
  split; [exact unquoteValue_wrapped |].
  split; [exact Hother |].
  split.
  { intros v Hlen. apply Hother. intros q mid _ ->.
    cbn in Hlen. rewrite length_app in Hlen. cbn in Hlen. lia. }
  split.
  { intros a b mid Hab. apply Hother. intros q m _ E.
    injection E as -> E. apply app_inj_tail in E as [_ <-]. now apply Hab. }
  split; [intros q mid Hq; now apply unquoteValue_wrapped |].
  repeat split; reflexivity.
Qed.

Lemma C7_unquoteValue_matching_pair_witness :
  unquoteValue (dquote :: str "hello" ++ [dquote]) = str "hello"
  /\ unquoteValue (str "noquotes") = str "noquotes".
Proof.
  destruct C7_unquoteValue_matching_pair as (Hwrap & Hother & _).
  split.
  - apply (Hwrap dquote (str "hello")). left. reflexivity.
  - apply (Hother (str "noquotes")). intros q mid [-> | ->] H; discriminate H.
Defined.

(** C8 (amended).  A line that begins with the six bytes [export] has just
    these six bytes taken off before the scan, whatever follows them.  So
    [export ] in front of a line that does not itself begin with [export]
    changes nothing: for every KEY that does not begin with [export] and
    every VALUE, [export KEY=VALUE] parses as [KEY=VALUE] does. *)
Theorem C8_export_prefix {tables : unicode.Tables} :
  (forall rest,
      strings.TrimPrefix (str "export" ++ rest) (str "export") = rest
      /\ parseLine (str "export" ++ rest) = parseBody rest)
  /\ (forall line,
         strings.HasPrefix line (str "export") = false ->
         parseLine (str "export " ++ line) = parseLine line)
  /\ (forall key value,
         strings.HasPrefix key (str "export") = false ->
         parseLine (str "export " ++ key ++ equals :: value)
         = parseLine (key ++ equals :: value))
  /\ parseLine (str "export API_KEY=abc123") = inr (str "API_KEY", str "abc123").
Proof.
  assert (Hline : forall line,
             strings.HasPrefix line (str "export") = false ->
             parseLine (str "export " ++ line) = parseLine line).
  { intros line H.
    change (str "export " ++ line) with (str "export" ++ space :: line).
    rewrite !parseLine_body, TrimPrefix_export, (TrimPrefix_absent _ _ H).
    apply parseBody_leading_space. }
  split; [| split; [exact Hline | split; [| reflexivity]]].
  - intros rest. split; [apply TrimPrefix_export |].
    now rewrite parseLine_body, TrimPrefix_export.
  - intros key value H. apply Hline. now apply HasPrefix_export_key.
Qed.

Lemma C8_export_prefix_witness :
  parseLine (str "export " ++ str "DB_PORT" ++ equals :: str "8080")
  = parseLine (str "DB_PORT" ++ equals :: str "8080").
Proof.
  destruct C8_export_prefix as (_ & _ & Hkey & _).
  apply (Hkey (str "DB_PORT") (str "8080")). reflexivity.
Defined.

(** Against C8 as worded, for a KEY that begins with [export]: with
    KEY [export_PATH] and VALUE [1], the line with the keyword yields the key
    [export_PATH], and the line without it loses its first six bytes and
    yields the key [_PATH]. *)
Lemma C8_counterexample_key_starting_with_export :
  parseLine (str "export " ++ str "export_PATH" ++ equals :: str "1")
  = inr (str "export_PATH", str "1")
  /\ parseLine (str "export_PATH" ++ equals :: str "1")
     = inr (str "_PATH", str "1")
  /\ parseLine (str "export " ++ str "export_PATH" ++ equals :: str "1")
     <> parseLine (str "export_PATH" ++ equals :: str "1").
Proof.
  split; [vm_compute; reflexivity |].
  split; [vm_compute; reflexivity |].
  vm_compute. discriminate.
Qed.

(** C9 (amended).  [findEnvFile] looks at the bare file name first, that is
    in the working directory, and returns it whenever it exists there,
    whatever the ancestors hold.  Otherwise it asks [os.Getwd] for the
    working directory.  When that fails no ancestor is looked at and the
    error is the one of [os.Getwd], wrapped, which does not name the file.
    When it succeeds the search looks at the parent, the grandparent and so
    on, at most [maxLevels] of them and never above the root (where the
    parent of a directory is the directory itself), and returns the nearest
    one holding the file; when none of these levels holds the file the error
    names the file that was asked for. *)
Theorem C9_findEnvFile_nearest_first :
  forall (fs : os.FileSystem) (pathname : list ascii) (maxLevels : Z),
    0 <= maxLevels ->
    (os.Stat fs (os.Bare pathname) = true ->
     findEnvFile fs pathname maxLevels = inr (os.Bare pathname))
    /\ (forall wd k,
           os.Getwd fs = inr wd ->
           os.Stat fs (os.Bare pathname) = false ->
           (1 <= k)%nat -> Z.of_nat k <= maxLevels -> (k <= length wd)%nat ->
           os.Stat fs (os.Join (ancestor k wd) pathname) = true ->
           (forall j, (1 <= j < k)%nat ->
                      os.Stat fs (os.Join (ancestor j wd) pathname) = false) ->
           findEnvFile fs pathname maxLevels
           = inr (os.Join (ancestor k wd) pathname))
    /\ (forall wd,
           os.Getwd fs = inr wd ->
           os.Stat fs (os.Bare pathname) = false ->
           (forall k, (1 <= k)%nat -> Z.of_nat k <= maxLevels ->
                      (k <= length wd)%nat ->
                      os.Stat fs (os.Join (ancestor k wd) pathname) = false) ->
           findEnvFile fs pathname maxLevels = inl (EnvFileNotFound pathname))
    /\ (forall e,
           os.Getwd fs = inl e ->
           os.Stat fs (os.Bare pathname) = false ->
           findEnvFile fs pathname maxLevels = inl (CannotGetCurrentDir e)).
Proof.
  intros fs pathname maxLevels Hd. unfold findEnvFile.
  split; [intros ->; reflexivity |].
  split; [| split; [| intros e -> ->; reflexivity]].
  - intros wd k Hwd -> Hk1 Hk2 Hk3 Hfound Hmin. rewrite Hwd.
    pose proof (climb_spec fs pathname (Z.to_nat maxLevels) wd) as Hc.
    destruct (climb fs pathname (Z.to_nat maxLevels) wd) as [err | path].
    + destruct Hc as [_ Hall]. rewrite Hall in Hfound by lia. discriminate.
    + destruct Hc as (k' & Hk' & Hl' & -> & Hst & Hmin').
      destruct (Nat.lt_trichotomy k k') as [Hlt | [-> | Hgt]].
      * rewrite Hmin' in Hfound by lia. discriminate.
      * reflexivity.
      * rewrite Hmin in Hst by lia. discriminate.
  - intros wd Hwd -> Hnone. rewrite Hwd.
    pose proof (climb_spec fs pathname (Z.to_nat maxLevels) wd) as Hc.
    destruct (climb fs pathname (Z.to_nat maxLevels) wd) as [err | path].
    + now destruct Hc as [-> _].
    + destruct Hc as (k' & Hk' & Hl' & -> & Hst & _).
      rewrite Hnone in Hst by lia. discriminate.
Qed.

Lemma C9_findEnvFile_nearest_first_witness :
  findEnvFile sampleFS (str ".env") 3
  = inr (os.Join [str "home"; str "user"; str "project"] (str ".env"))
  /\ findEnvFile emptyFS (str ".env") 3 = inl (EnvFileNotFound (str ".env")).
Proof.
  destruct (C9_findEnvFile_nearest_first sampleFS (str ".env") 3)
    as (_ & Hnear & _); [lia |].
  destruct (C9_findEnvFile_nearest_first emptyFS (str ".env") 3)
    as (_ & _ & Hnone & _); [lia |].
  split.
  - apply (Hnear sampleDir 2%nat); try reflexivity; try (cbn; lia).
    intros j Hj. assert (j = 1)%nat by lia. subst j. reflexivity.
  - apply (Hnone sampleDir); reflexivity.
Defined.

(** Against C9 as worded: in a process whose working directory cannot be
    determined, no level holds the file and the error is not the one that
    names the file: it is the wrapped error of [os.Getwd]. *)
Lemma C9_counterexample_unknown_working_directory :
  (forall path, os.Stat noCwdFS path = false)
  /\ findEnvFile noCwdFS (str ".env") 3 = inl (CannotGetCurrentDir 2)
  /\ findEnvFile noCwdFS (str ".env") 3 <> inl (EnvFileNotFound (str ".env")).
Proof.
  split; [intros path; reflexivity |].
  split; [reflexivity | discriminate].
Qed.

(** C10.  [GetEnv] returns the default, and [GetEnvOrPanic] panics, both
    when the variable is absent and when it is present with the empty string
    as its value: through the two accessors an empty variable cannot be told
    from an unset one.  A variable with a non-empty value is returned. *)
Theorem C10_empty_value_reads_as_unset :
  forall (p : Process) (key defaultValue : list ascii),
    (environ p !! key = None \/ environ p !! key = Some [] ->
     GetEnv p key defaultValue = defaultValue
     /\ GetEnvOrPanic p key
        = Panicked (str "quickenv: required environment variable " ++ key
                    ++ str " is not set"))
    /\ (forall value, value <> [] -> environ p !! key = Some value ->
        GetEnv p key defaultValue = value
        /\ GetEnvOrPanic p key = Returned value)
    /\ GetEnv (mkProcess (<[key := []]> (environ p)) (stderr p)) key defaultValue
       = GetEnv (mkProcess (delete key (environ p)) (stderr p)) key defaultValue
    /\ GetEnvOrPanic (mkProcess (<[key := []]> (environ p)) (stderr p)) key
       = GetEnvOrPanic (mkProcess (delete key (environ p)) (stderr p)) key.
Proof.
  intros p key d. split; [| split; [| split]].
  - intros H. apply Getenv_empty_iff in H.
    unfold GetEnv, GetEnvOrPanic. rewrite H. now split.
  - intros value Hne Hv. unfold GetEnv, GetEnvOrPanic.
    rewrite (Getenv_Some _ _ _ Hv).
    assert (E : bytes_eqb value [] = false) by now apply bytes_eqb_false.
    rewrite E. now split.
  - unfold GetEnv, os.Getenv. cbn [environ].
    now rewrite lookup_insert_eq, lookup_delete_eq.
  - unfold GetEnvOrPanic, os.Getenv. cbn [environ].
    now rewrite lookup_insert_eq, lookup_delete_eq.
Qed.

Lemma C10_empty_value_reads_as_unset_witness :
  GetEnv (mkProcess {[ str "PORT" := [] ]} []) (str "PORT") (str "8000")
  = str "8000"
  /\ GetEnv (mkProcess ∅ []) (str "PORT") (str "8000") = str "8000".
Proof.
  split.
  - destruct (C10_empty_value_reads_as_unset
                (mkProcess {[ str "PORT" := [] ]} []) (str "PORT") (str "8000"))
      as (H & _).
    apply H. right. vm_compute. reflexivity.
  - destruct (C10_empty_value_reads_as_unset
                (mkProcess ∅ []) (str "PORT") (str "8000")) as (H & _).
    apply H. left. vm_compute. reflexivity.
Defined.

(** * Further properties *)

(** ** Options and file search *)

Lemma parseOptions_valid (opts : list (option LoadOptions)) :
  Pathname (parseOptions opts) <> [] /\ 1 <= MaxLevels (parseOptions opts).
Proof.
  assert (Hform : parseOptions opts = DefaultLoadOptions
                  \/ exists o, parseOptions opts = withDefaults o).
  { destruct opts as [|[o|] rest]; [now left | right | now left].
    exists o. unfold parseOptions, withDefaults.
    destruct (bytes_eqb (Pathname o) []); cbn [MaxLevels Pathname Overwrite Debug];
      destruct (MaxLevels o <=? 0); destruct o; reflexivity. }
  destruct Hform as [-> | [o ->]]; [split; [discriminate | cbn; lia] |].
  unfold withDefaults. cbn [Pathname MaxLevels]. split.
  - destruct (bytes_eqb (Pathname o) []) eqn:E; [discriminate |].
    now apply bytes_eqb_false.
  - destruct (Z.leb_spec (MaxLevels o) 0); lia.
Qed.

(** X1.  Whatever it is given (nothing, a nil pointer, a record with empty or
    non-positive fields), [parseOptions] returns a record with a non-empty
    path name and at least one level of search; it keeps the two flags of the
    record it was given, and running it on its own result changes nothing. *)
Theorem X1_parseOptions_always_valid :
  forall opts,
    Pathname (parseOptions opts) <> []
    /\ 1 <= MaxLevels (parseOptions opts)
    /\ parseOptions [Some (parseOptions opts)] = parseOptions opts
    /\ (forall o rest,
           Overwrite (parseOptions (Some o :: rest)) = Overwrite o
           /\ Debug (parseOptions (Some o :: rest)) = Debug o).
Proof.
  intros opts. destruct (parseOptions_valid opts) as [Hp Hm].
  split; [exact Hp |]. split; [exact Hm |]. split.
  - unfold parseOptions at 1.
    apply bytes_eqb_false in Hp. rewrite Hp.
    destruct (Z.leb_spec (MaxLevels (parseOptions opts)) 0); [lia |].
    reflexivity.
  - intros o rest. unfold parseOptions.
    destruct (bytes_eqb (Pathname o) []); cbn [MaxLevels Pathname Overwrite Debug];
      destruct (MaxLevels o <=? 0); split; reflexivity.
Qed.

Lemma climb_more (fs : os.FileSystem) (pathname : list ascii) (extra : nat) :
  forall n dir path,
    climb fs pathname n dir = inr path ->
    climb fs pathname (n + extra) dir = inr path.
Proof.
  induction n as [|n IH]; intros dir path H; [discriminate |].
  cbn [Nat.add climb] in *.
  destruct (bool_decide (os.filepath_Dir dir = dir)); [discriminate |].
  destruct (os.Stat fs (os.Join (os.filepath_Dir dir) pathname)); [exact H |].
  now apply IH.
Qed.

(** X2.  [Load] never searches fewer than one level: whatever [MaxLevels]
    the caller passes, zero and negative included, a file that is not in the
    working directory but is in its parent is the one [Load] opens. *)
Theorem X2_Load_always_looks_at_parent {tables : unicode.Tables} :
  forall fs opts p wd,
    os.Stat fs (os.Bare (Pathname (parseOptions opts))) = false ->
    os.Getwd fs = inr wd -> wd <> [] ->
    os.Stat fs (os.Join (os.filepath_Dir wd) (Pathname (parseOptions opts)))
    = true ->
    Load fs opts p
    = match os.Open fs (os.Join (os.filepath_Dir wd)
                                (Pathname (parseOptions opts))) with
      | inl err =>
        (p, (0%nat,
             Some (FailedToOpen
                     (os.Join (os.filepath_Dir wd) (Pathname (parseOptions opts)))
                     err)))
      | inr file => loadFromReader file (parseOptions opts) p
      end.
Proof.
  intros fs opts p wd Hbare Hwd Hne Hst.
  destruct (parseOptions_valid opts) as [_ Hm].
  unfold Load, findEnvFile. rewrite Hbare, Hwd.
  destruct (Z.to_nat (MaxLevels (parseOptions opts))) as [|n] eqn:En; [lia |].
  cbn [climb].
  destruct (bool_decide (os.filepath_Dir wd = wd)) eqn:Er.
  - apply bool_decide_eq_true in Er. apply Dir_fixpoint in Er. contradiction.
  - now rewrite Hst.
Qed.

Lemma X2_Load_always_looks_at_parent_witness :
  Load parentFS [Some zeroOptions] (mkProcess ∅ [])
  = (mkProcess (<[str "NAME" := str "A"]> {[ str "DB_PORT" := str "8080" ]}) [],
     (2%nat, None)).
Proof.
  rewrite (X2_Load_always_looks_at_parent parentFS [Some zeroOptions]
             (mkProcess ∅ []) sampleDir).
  - vm_compute. reflexivity.
  - reflexivity.
  - reflexivity.
  - discriminate.
  - reflexivity.
Defined.

(** X3.  A path [findEnvFile] returns exists, and it is either the bare name
    or the name joined to one of the first [maxLevels] ancestors of the
    working directory: the search never makes up a path and never goes
    beyond its bound. *)
Theorem X3_findEnvFile_returns_existing_path :
  forall fs pathname maxLevels path,
    findEnvFile fs pathname maxLevels = inr path ->
    os.Stat fs path = true
    /\ (path = os.Bare pathname
        \/ exists wd k,
             os.Getwd fs = inr wd
             /\ (1 <= k <= length wd)%nat /\ Z.of_nat k <= maxLevels
             /\ path = os.Join (ancestor k wd) pathname).
Proof.
  intros fs pathname maxLevels path. unfold findEnvFile.
  destruct (os.Stat fs (os.Bare pathname)) eqn:Eb.
  - intros H. injection H as <-. split; [exact Eb | now left].
  - destruct (os.Getwd fs) as [e | wd]; [discriminate |].
    pose proof (climb_spec fs pathname (Z.to_nat maxLevels) wd) as Hc.
    destruct (climb fs pathname (Z.to_nat maxLevels) wd) as [err | found];
      [discriminate |].
    intros H. injection H as <-.
    destruct Hc as (k & Hk & Hl & -> & Hst & _).
    split; [exact Hst | right]. exists wd, k. repeat split; try lia.
Qed.

Lemma X3_findEnvFile_returns_existing_path_witness :
  os.Stat sampleFS (os.Join [str "home"; str "user"; str "project"] (str ".env"))
  = true.
Proof.
  apply (X3_findEnvFile_returns_existing_path sampleFS (str ".env") 3).
  reflexivity.
Defined.

(** X4.  A larger bound never changes a hit: what [findEnvFile] finds within
    [maxLevels] levels it also returns for every larger bound, even when a
    farther ancestor holds the file too. *)
Theorem X4_findEnvFile_stable_under_larger_bound :
  forall fs pathname maxLevels larger path,
    maxLevels <= larger ->
    findEnvFile fs pathname maxLevels = inr path ->
    findEnvFile fs pathname larger = inr path.
Proof.
  intros fs pathname m m' path Hle. unfold findEnvFile.
  destruct (os.Stat fs (os.Bare pathname)); [now intros H |].
  destruct (os.Getwd fs) as [e | wd]; [discriminate |].
  intros H.
  destruct (Z.to_nat m) as [|n] eqn:En; [discriminate |].
  replace (Z.to_nat m') with (S n + (Z.to_nat m' - S n))%nat by lia.
  now apply climb_more.
Qed.

Lemma X4_findEnvFile_stable_under_larger_bound_witness :
  findEnvFile twoHitsFS (str ".env") 5
  = inr (os.Join [str "home"; str "user"; str "project"] (str ".env")).
Proof.
  apply (X4_findEnvFile_stable_under_larger_bound twoHitsFS (str ".env") 2 5).
  - lia.
  - reflexivity.
Defined.

(** X5.  With a bound of zero or less, or with the root as working
    directory, no ancestor is looked at: the bare name alone decides between
    a hit and the not-found error. *)
Theorem X5_findEnvFile_without_ancestors :
  forall fs pathname maxLevels wd,
    os.Getwd fs = inr wd ->
    maxLevels <= 0 \/ wd = [] ->
    findEnvFile fs pathname maxLevels
    = if os.Stat fs (os.Bare pathname) then inr (os.Bare pathname)
      else inl (EnvFileNotFound pathname).
Proof.
  intros fs pathname m wd Hwd Hcase. unfold findEnvFile. rewrite Hwd.
  destruct (os.Stat fs (os.Bare pathname)); [reflexivity |].
  destruct Hcase as [Hm | ->].
  - replace (Z.to_nat m) with 0%nat by lia. reflexivity.
  - destruct (Z.to_nat m); reflexivity.
Qed.

Lemma X5_findEnvFile_without_ancestors_witness :
  findEnvFile sampleFS (str ".env") 0 = inl (EnvFileNotFound (str ".env")).
Proof.
  apply (X5_findEnvFile_without_ancestors sampleFS (str ".env") 0 sampleDir).
  - reflexivity.
  - left. lia.
Defined.

(** ** Keys and lines *)

Lemma IsLetter_ascii {tables : unicode.Tables} (b : Z) :
  0 <= b < 128 -> (unicode.IsLetter b = true <-> asciiLetter b).
Proof.
  intros Hb. unfold unicode.IsLetter, unicode.MaxLatin1, asciiLetter.
  destruct (Z.leb_spec 0 b); [| lia]. destruct (Z.leb_spec b 255); [| lia].
  cbn [andb]. unfold unicode.latin1Letter.
  rewrite !orb_true_iff, !andb_true_iff, !Z.leb_le, !Z.eqb_eq. lia.
Qed.

Lemma IsDigit_ascii {tables : unicode.Tables} (b : Z) :
  b < 128 -> (unicode.IsDigit b = true <-> 48 <= b <= 57).
Proof.
  intros Hb. unfold unicode.IsDigit, unicode.MaxLatin1.
  destruct (Z.leb_spec b 255); [| lia].
  rewrite andb_true_iff, !Z.leb_le. lia.
Qed.

Lemma IsSpace_latin1 (b : Z) :
  0 <= b < 256 ->
  (unicode.IsSpace b = true
   <-> 9 <= b <= 13 \/ b = 32 \/ b = 133 \/ b = 160).
Proof.
  intros Hb. unfold unicode.IsSpace, unicode.MaxLatin1.
  destruct (Z.leb_spec 0 b); [| lia]. destruct (Z.leb_spec b 255); [| lia].
  cbn [andb]. rewrite !orb_true_iff, !Z.eqb_eq. lia.
Qed.

Lemma okChar_ascii {tables : unicode.Tables} (b : Z) :
  0 <= b < 128 -> (okChar b = true <-> asciiIdent b).
Proof.
  intros Hb. unfold asciiIdent. rewrite okChar_iff.
  rewrite IsLetter_ascii, IsDigit_ascii by lia. reflexivity.
Qed.

Lemma asciiIdent_not_space (b : Z) :
  asciiIdent b -> b < 128 /\ unicode.IsSpace b = false.
Proof.
  intros H. unfold asciiIdent, asciiLetter in H. split; [lia |].
  destruct (unicode.IsSpace b) eqn:E; [| reflexivity].
  apply IsSpace_latin1 in E; lia.
Qed.

Lemma firstNot_forallb (f : Z -> bool) (rs : list (nat * Z)) :
  strings.firstNot f rs = None <-> forallb f (map snd rs) = true.
Proof.
  induction rs as [|[i r] rs IH]; cbn; [tauto |].
  destruct (f r); cbn; [exact IH | split; discriminate].
Qed.

(** Runes that all satisfy [f] leave no ASCII byte that does not. *)
Lemma forallb_runes_droppable (f : Z -> bool) (s : list ascii) :
  forallb f (map snd (utf8.rangeString s)) = true -> droppable f s.
Proof.
  intros H. apply firstNot_forallb in H.
  exact (firstNot_None f s 0 0 (highs_0 s) H).
Qed.

Lemma rangeFrom_all_ascii (s : list ascii) :
  forall i, isAscii s -> map snd (utf8.rangeFrom i 0 s) = map byteZ s.
Proof.
  induction s as [|c t IH]; intros i H; [reflexivity |].
  inversion H as [|? ? Hc Ht]; subst.
  rewrite rangeFrom_ascii by exact Hc. cbn [map snd]. now rewrite IH.
Qed.

(** The ASCII bytes of a valid key are letters, digits and underscores. *)
Lemma valid_key_ascii_bytes {tables : unicode.Tables} (key : list ascii) :
  isValidEnvKey key = true ->
  key <> []
  /\ Forall (fun c => byteZ c < 128 -> asciiIdent (byteZ c)) key.
Proof.
  intros H. destruct key as [|c rest]; [discriminate |].
  split; [discriminate |].
  rewrite isValidEnvKey_cons in H. apply andb_true_iff in H as [Hc Hrest].
  constructor.
  - intros Hlt. pose proof (byteZ_range c) as Hr.
    apply orb_true_iff in Hc as [Hc | Hc].
    + left. apply IsLetter_ascii; [lia | exact Hc].
    + apply Z.eqb_eq in Hc. right. now right.
  - apply forallb_runes_droppable in Hrest. unfold droppable in Hrest.
    revert Hrest. apply List.Forall_impl. intros d Hd Hlt.
    pose proof (byteZ_range d) as Hr.
    apply okChar_ascii; [lia | now apply Hd].
Qed.

Lemma hasByte_false (b : Z) (s : list ascii) :
  os.hasByte b s = false <-> Forall (fun c => byteZ c <> b) s.
Proof.
  unfold os.hasByte. induction s as [|c t IH]; cbn.
  - split; [constructor | reflexivity].
  - rewrite orb_false_iff, IH, Z.eqb_neq. split.
    + intros [H1 H2]. now constructor.
    + intros H. inversion H; subst. now split.
Qed.

Lemma valid_key_no_byte {tables : unicode.Tables} (key : list ascii) (b : Z) :
  isValidEnvKey key = true -> b < 128 -> ~ asciiIdent b ->
  os.hasByte b key = false.
Proof.
  intros H Hb Hno. apply hasByte_false.
  destruct (valid_key_ascii_bytes key H) as [_ Hall].
  revert Hall. apply List.Forall_impl. intros c Hc E.
  apply Hno. rewrite <- E. apply Hc. lia.
Qed.

Lemma parseLine_key_valid {tables : unicode.Tables}
  (line key value : list ascii) :
  parseLine line = inr (key, value) -> isValidEnvKey key = true.
Proof.
  rewrite parseLine_body, parseBody_bytes.
  destruct (findEqualsBytes 0 _ false 0) as [i|]; [| discriminate].
  unfold checkEntry. destruct (bytes_eqb _ []); [discriminate |].
  destruct (isValidEnvKey _) eqn:E; [| discriminate].
  cbn [negb]. intros H. injection H as <- _. exact E.
Qed.

(** A valid key is one [os.Setenv] takes: only a NUL byte in the value makes
    the write fail. *)
Lemma Setenv_valid_key {tables : unicode.Tables}
  (env : gmap (list ascii) (list ascii))
  (key value : list ascii) :
  isValidEnvKey key = true ->
  os.Setenv env key value
  = if os.hasByte 0 value then inl os.EINVAL else inr (<[key := value]> env).
Proof.
  intros H. unfold os.Setenv.
  destruct (valid_key_ascii_bytes key H) as [Hne _].
  destruct key as [|c rest]; [now destruct Hne |]. cbn [length Nat.eqb].
  rewrite (valid_key_no_byte _ 61 H), (valid_key_no_byte _ 0 H);
    try lia; try (unfold asciiIdent, asciiLetter; lia).
  reflexivity.
Qed.

(** X6.  A key that [parseLine] returns is valid, its ASCII bytes are
    letters, digits and underscores only (no blank, quote, equals sign or
    NUL), and [os.Setenv] accepts it: writing the parsed pair fails exactly
    when the value holds a NUL byte. *)
Theorem X6_parsed_key_is_settable {tables : unicode.Tables} :
  forall line key value,
    parseLine line = inr (key, value) ->
    isValidEnvKey key = true
    /\ Forall (fun c => byteZ c < 128 -> asciiIdent (byteZ c)) key
    /\ forall env,
         os.Setenv env key value
         = if os.hasByte 0 value then inl os.EINVAL
           else inr (<[key := value]> env).
Proof.
  intros line key value H. apply parseLine_key_valid in H.
  split; [exact H |]. split.
  - now apply valid_key_ascii_bytes.
  - intros env. now apply Setenv_valid_key.
Qed.

Lemma X6_parsed_key_is_settable_witness :
  os.Setenv ∅ (str "B") ["000"%char] = inl os.EINVAL
  /\ os.Setenv ∅ (str "NAME") (str "=John=Doe")
     = inr {[ str "NAME" := str "=John=Doe" ]}.
Proof.
  split.
  - destruct (X6_parsed_key_is_settable (str "B=" ++ ["000"%char]) (str "B")
                ["000"%char]) as (_ & _ & H); [vm_compute; reflexivity |].
    now rewrite H.
  - destruct (X6_parsed_key_is_settable (str "NAME==John=Doe") (str "NAME")
                (str "=John=Doe")) as (_ & _ & H); [vm_compute; reflexivity |].
    now rewrite H.
Defined.

(** X7.  On ASCII strings [isValidEnvKey] is the identifier rule: a letter
    or underscore first, then letters, digits and underscores. *)
Theorem X7_isValidEnvKey_ascii_identifier {tables : unicode.Tables} :
  forall key,
    isAscii key ->
    (isValidEnvKey key = true
     <-> exists c rest,
           key = c :: rest
           /\ (asciiLetter (byteZ c) \/ byteZ c = 95)
           /\ Forall (fun d => asciiIdent (byteZ d)) rest).
Proof.
  intros key Hascii. split.
  - intros H. destruct (valid_key_ascii_bytes key H) as [Hne Hall].
    destruct key as [|c rest]; [now destruct Hne |].
    inversion Hascii as [|? ? Hc Hrest]; subst.
    inversion Hall as [|? ? Hc' Hrest']; subst.
    exists c, rest. split; [reflexivity |]. split.
    + rewrite isValidEnvKey_cons in H. apply andb_true_iff in H as [H _].
      pose proof (byteZ_range c).
      apply orb_true_iff in H as [H | H];
        [left; apply IsLetter_ascii; [lia | exact H]
        | right; now apply Z.eqb_eq].
    + rewrite List.Forall_forall in *. intros d Hd. apply Hrest'; auto.
  - intros (c & rest & -> & Hc & Hrest).
    inversion Hascii as [|? ? Hc' Hrest']; subst.
    rewrite isValidEnvKey_cons. apply andb_true_iff. split.
    + pose proof (byteZ_range c). apply orb_true_iff.
      destruct Hc as [Hc | Hc];
        [left; apply IsLetter_ascii; [lia | exact Hc]
        | right; now apply Z.eqb_eq].
    + unfold utf8.rangeString. rewrite rangeFrom_all_ascii by exact Hrest'.
      apply forallb_forall. intros b Hb. apply in_map_iff in Hb as (d & <- & Hd).
      rewrite List.Forall_forall in Hrest, Hrest'.
      pose proof (byteZ_range d).
      apply okChar_ascii; [specialize (Hrest' d Hd); lia | now apply Hrest].
Qed.

Lemma X7_isValidEnvKey_ascii_identifier_witness :
  isValidEnvKey (str "Var1") = true.
Proof.
  apply (X7_isValidEnvKey_ascii_identifier (str "Var1")).
  - repeat constructor.
  - exists "V"%char, (str "ar1"). split; [reflexivity |].
    split; [left; left; vm_compute; split; discriminate |].
    apply List.Forall_forall. intros d Hd.
    repeat (destruct Hd as [<- | Hd]; [vm_compute; intuition discriminate |]).
    destruct Hd.
Defined.

Lemma DecodeLastRune_ascii (s : list ascii) :
  s <> [] -> byteAt s (length s - 1) < 128 ->
  utf8.DecodeLastRuneInString s = (byteAt s (length s - 1), 1%nat).
Proof.
  intros Hne Hlt. unfold utf8.DecodeLastRuneInString.
  assert (1 <= length s)%nat by (destruct s; [congruence | cbn; lia]).
  destruct (Z.eqb_spec (Z.of_nat (length s)) 0); [lia |].
  replace (Z.to_nat (Z.of_nat (length s) - 1)) with (length s - 1)%nat by lia.
  unfold utf8.RuneSelf.
  destruct (Z.ltb_spec (byteAt s (length s - 1)) 128); [reflexivity | lia].
Qed.

Lemma TrimLeft_keeps (c : ascii) (s : list ascii) :
  byteZ c < 128 -> unicode.IsSpace (byteZ c) = false ->
  strings.TrimLeftFunc (c :: s) unicode.IsSpace = c :: s.
Proof.
  intros Hc Hs.
  unfold strings.TrimLeftFunc, strings.indexFuncFalse, utf8.rangeString.
  rewrite rangeFrom_ascii by exact Hc. cbn [strings.firstNot].
  rewrite Hs. apply slice_to_end.
Qed.

(** [TrimSpace] leaves alone a string whose first and last bytes are ASCII
    and not white space. *)
Lemma TrimSpace_fixed (s : list ascii) :
  s <> [] ->
  byteAt s 0 < 128 -> unicode.IsSpace (byteAt s 0) = false ->
  byteAt s (length s - 1) < 128 ->
  unicode.IsSpace (byteAt s (length s - 1)) = false ->
  strings.TrimSpace s = s.
Proof.
  intros Hne Hf1 Hf2 Hl1 Hl2.
  unfold strings.TrimSpace, strings.TrimFunc.
  destruct s as [|c t]; [congruence |].
  rewrite byteAt_head in Hf1, Hf2.
  rewrite (TrimLeft_keeps c t Hf1 Hf2).
  unfold strings.TrimRightFunc, strings.lastIndexFuncFalse.
  set (s := c :: t) in *.
  assert (Hlen : length s = S (length t)) by reflexivity.
  rewrite Hlen at 1. cbn [strings.lastIndexLoop].
  destruct (Nat.ltb_spec 0 (length s)); [| lia].
  rewrite slice_0, firstn_all.
  rewrite (DecodeLastRune_ascii s Hne Hl1), Hl2.
  unfold utf8.RuneSelf.
  destruct (Z.leb_spec 128 (byteAt s (length s - 1))); [lia |].
  rewrite slice_0. replace (length s - 1 + 1)%nat with (length s) by lia.
  apply firstn_all.
Qed.

(** A string that starts with an ASCII byte other than white space trims to
    the empty string or to a string with the same first byte. *)
Lemma TrimSpace_keeps_head (c : ascii) (s : list ascii) :
  byteZ c < 128 -> unicode.IsSpace (byteZ c) = false ->
  strings.TrimSpace (c :: s) = []
  \/ exists t, strings.TrimSpace (c :: s) = c :: t.
Proof.
  intros Hc Hs. unfold strings.TrimSpace, strings.TrimFunc.
  rewrite (TrimLeft_keeps c s Hc Hs).
  destruct (TrimRightFunc_prefix (c :: s) unicode.IsSpace) as [m ->].
  destruct m as [|m]; [now left | right]. cbn [firstn]. eauto.
Qed.

Lemma findEqualsBytes_skip (s t : list ascii) :
  Forall (fun c => byteZ c <> 34 /\ byteZ c <> 39 /\ byteZ c <> 61) s ->
  forall i quoteChar,
    findEqualsBytes i (s ++ equals :: t) false quoteChar
    = Some (i + length s)%nat.
Proof.
  induction s as [|c s IH]; intros H i qc.
  - cbn. f_equal. lia.
  - inversion H as [|? ? (H1 & H2 & H3) Hs]; subst.
    cbn [app findEqualsBytes length].
    destruct (Z.eqb_spec (byteZ c) 34); [lia |].
    destruct (Z.eqb_spec (byteZ c) 39); [lia |].
    destruct (Z.eqb_spec (byteZ c) 61); [lia |].
    cbn [orb andb]. rewrite IH by exact Hs. f_equal. lia.
Qed.

Lemma byteAt_app_last (s : list ascii) (c : ascii) :
  byteAt (s ++ [c]) (length (s ++ [c]) - 1) = byteZ c.
Proof.
  rewrite length_app. cbn [length].
  replace (length s + 1 - 1)%nat with (length s) by lia. apply byteAt_last.
Qed.

(** A valid ASCII key is what [TrimSpace] returns for it. *)
Lemma TrimSpace_valid_key {tables : unicode.Tables} (key : list ascii) :
  isValidEnvKey key = true -> isAscii key -> strings.TrimSpace key = key.
Proof.
  intros Hv Ha. destruct (valid_key_ascii_bytes key Hv) as [Hne Hall].
  assert (Hident : Forall (fun c => asciiIdent (byteZ c)) key).
  { unfold isAscii in Ha. apply List.Forall_forall. intros c Hc.
    apply (proj1 (List.Forall_forall _ _) Hall c Hc).
    exact (proj1 (List.Forall_forall _ _) Ha c Hc). }
  assert (Hat : forall j, (j < length key)%nat ->
                          asciiIdent (byteAt key j)).
  { intros j Hj. destruct (nth_error key j) as [c|] eqn:E.
    - rewrite (byteAt_nth_error _ _ _ E).
      rewrite List.Forall_forall in Hident. apply Hident.
      now apply nth_error_In in E.
    - apply nth_error_None in E. lia. }
  assert (Hlen : (1 <= length key)%nat)
    by (destruct key; [congruence | cbn; lia]).
  destruct (asciiIdent_not_space _ (Hat 0%nat ltac:(lia))) as [F1 F2].
  destruct (asciiIdent_not_space _ (Hat (length key - 1)%nat ltac:(lia)))
    as [L1 L2].
  now apply TrimSpace_fixed.
Qed.

Lemma parseLine_key_value {tables : unicode.Tables} (key value : list ascii) :
  isValidEnvKey key = true -> isAscii key ->
  strings.HasPrefix key (str "export") = false ->
  parseLine (key ++ equals :: value)
  = inr (key, unquoteValue (strings.TrimSpace value)).
Proof.
  intros Hv Ha Hp.
  rewrite parseLine_body, TrimPrefix_absent by now apply HasPrefix_export_key.
  rewrite parseBody_bytes.
  destruct (valid_key_ascii_bytes key Hv) as [Hne Hall].
  assert (Hplain : Forall (fun c => byteZ c <> 34 /\ byteZ c <> 39
                                    /\ byteZ c <> 61) key).
  { unfold isAscii in Ha. apply List.Forall_forall. intros c Hc.
    pose proof (proj1 (List.Forall_forall _ _) Ha c Hc) as H1.
    pose proof (proj1 (List.Forall_forall _ _) Hall c Hc H1) as H2.
    unfold asciiIdent, asciiLetter in H2. lia. }
  rewrite (findEqualsBytes_skip key value Hplain).
  cbn [Nat.add].
  rewrite firstn_app, Nat.sub_diag, firstn_all. cbn [firstn].
  rewrite app_nil_r.
  replace (skipn (S (length key)) (key ++ equals :: value)) with value.
  2:{ change (equals :: value) with ([equals] ++ value).
      rewrite app_assoc.
      replace (S (length key)) with (length (key ++ [equals]))
        by (rewrite length_app; cbn; lia).
      now rewrite skipn_app, Nat.sub_diag, skipn_all. }
  rewrite (TrimSpace_valid_key key Hv Ha). unfold checkEntry.
  apply bytes_eqb_false in Hne. now rewrite Hne, Hv.
Qed.

(** X8.  For an ASCII key that is valid and does not begin with [export],
    the line [KEY=VALUE] parses to the key itself and to the value trimmed
    and unquoted, whatever bytes the value holds. *)
Theorem X8_parseLine_key_equals_value {tables : unicode.Tables} :
  forall key value,
    isValidEnvKey key = true -> isAscii key ->
    strings.HasPrefix key (str "export") = false ->
    parseLine (key ++ equals :: value)
    = inr (key, unquoteValue (strings.TrimSpace value)).
Proof. exact parseLine_key_value. Qed.

Lemma X8_parseLine_key_equals_value_witness :
  parseLine (str "DB_PORT" ++ equals :: str " 8080 ")
  = inr (str "DB_PORT", unquoteValue (strings.TrimSpace (str " 8080 "))).
Proof.
  apply (X8_parseLine_key_equals_value (str "DB_PORT") (str " 8080 ")).
  - reflexivity.
  - apply List.Forall_forall. intros c Hc.
    repeat (destruct Hc as [<- | Hc]; [reflexivity |]). destruct Hc.
  - reflexivity.
Defined.

(** X9.  Quoting is a round trip: for such a key and any byte string at
    all (blanks at either end, equals signs, quotes, backslashes), the line
    made of the key, an equals sign and the string between two double quotes
    or two single quotes parses back to the key and the very same string. *)
Theorem X9_quoted_value_round_trip {tables : unicode.Tables} :
  forall key q value,
    isValidEnvKey key = true -> isAscii key ->
    strings.HasPrefix key (str "export") = false ->
    q = dquote \/ q = squote ->
    parseLine (key ++ equals :: q :: value ++ [q]) = inr (key, value).
Proof.
  intros key q value Hv Ha Hp Hq.
  rewrite (parseLine_key_value key (q :: value ++ [q]) Hv Ha Hp).
  assert (Hqs : byteZ q < 128 /\ unicode.IsSpace (byteZ q) = false)
    by (destruct Hq as [-> | ->]; split; reflexivity).
  destruct Hqs as [Hq1 Hq2].
  rewrite TrimSpace_fixed.
  - now rewrite unquoteValue_wrapped.
  - discriminate.
  - now rewrite byteAt_head.
  - now rewrite byteAt_head.
  - change (q :: value ++ [q]) with ((q :: value) ++ [q]).
    now rewrite byteAt_app_last.
  - change (q :: value ++ [q]) with ((q :: value) ++ [q]).
    now rewrite byteAt_app_last.
Qed.

Lemma X9_quoted_value_round_trip_witness :
  parseLine (str "MESSAGE" ++ equals :: dquote :: str " a=b 'c' " ++ [dquote])
  = inr (str "MESSAGE", str " a=b 'c' ").
Proof.
  apply (X9_quoted_value_round_trip (str "MESSAGE") dquote (str " a=b 'c' ")).
  - reflexivity.
  - apply List.Forall_forall. intros c Hc.
    repeat (destruct Hc as [<- | Hc]; [reflexivity |]). destruct Hc.
  - reflexivity.
  - now left.
Defined.

Lemma HasPrefix_export_head (c : ascii) (rest : list ascii) :
  c <> "e"%char -> strings.HasPrefix (c :: rest) (str "export") = false.
Proof.
  intros Hc. unfold strings.HasPrefix. apply andb_false_iff. right.
  apply bytes_eqb_false. rewrite slice_0. intros E. injection E as E _.
  now apply Hc.
Qed.

(** X10.  A line whose first byte is an ASCII character that is neither a
    letter, nor the underscore, nor white space (a digit, a quote, a dash, a
    dot, the equals sign itself) never parses: a key in quotes or a key
    that starts with a digit is an error. *)
Theorem X10_parseLine_rejects_non_letter_start {tables : unicode.Tables} :
  forall c rest,
    byteZ c < 128 ->
    ~ asciiLetter (byteZ c) -> byteZ c <> 95 ->
    unicode.IsSpace (byteZ c) = false ->
    exists err, parseLine (c :: rest) = inl err.
Proof.
  intros c rest Hc Hl Hu Hs.
  pose proof (byteZ_range c) as Hr.
  assert (Hhead : unicode.IsLetter (byteZ c) || (byteZ c =? 95) = false).
  { apply orb_false_iff. split; [| now apply Z.eqb_neq].
    destruct (unicode.IsLetter (byteZ c)) eqn:E; [| reflexivity].
    apply IsLetter_ascii in E; [contradiction | lia]. }
  rewrite parseLine_body, TrimPrefix_absent.
  2:{ apply HasPrefix_export_head. intros ->. apply Hl. right.
      vm_compute. split; discriminate. }
  rewrite parseBody_bytes.
  destruct (findEqualsBytes 0 (c :: rest) false 0) as [i|]; [| eauto].
  unfold checkEntry. destruct i as [|i]; cbn [firstn].
  - change (bytes_eqb (strings.TrimSpace []) []) with true. eauto.
  - destruct (TrimSpace_keeps_head c (firstn i rest) Hc Hs) as [E | [t E]];
      rewrite E.
    + change (bytes_eqb [] []) with true. eauto.
    + assert (Eb : bytes_eqb (c :: t) [] = false) by now apply bytes_eqb_false.
      rewrite Eb, isValidEnvKey_cons, Hhead. cbn. eauto.
Qed.

Lemma X10_parseLine_rejects_non_letter_start_witness :
  exists err, parseLine (squote :: str "NAME='=John=Doe") = inl err.
Proof.
  apply (X10_parseLine_rejects_non_letter_start squote (str "NAME='=John=Doe")).
  - reflexivity.
  - vm_compute. intuition discriminate.
  - discriminate.
  - reflexivity.
Defined.

(** ** The loader as a whole *)

Lemma environ_log (debug : bool) (q : Process) (e : LogEntry) :
  environ (if debug then Fprintf q e else q) = environ q.
Proof. now destruct debug. Qed.

(** What [loadFromReader] returns, in terms of the loop over the scanned
    texts. *)
Lemma loadFromReader_lines {tables : unicode.Tables}
  (reader : bufio.Reader) (options : LoadOptions)
  (p p' : Process) (n : nat) (e : option Error) :
  loadFromReader reader options p = (p', (n, e)) ->
  exists e0,
    loadLines options (fst (bufio.Scan reader)) p 0 = (p', (n, e0))
    /\ (e0 = None -> e = option_map ReadError (snd (bufio.Scan reader)))
    /\ (e0 <> None -> e = e0).
Proof.
  unfold loadFromReader.
  destruct (bufio.Scan reader) as [texts scanErr]. cbn [fst snd].
  destruct (loadLines options texts p 0) as [q [m e0]].
  destruct e0 as [err|].
  - intros H. injection H as <- <- <-. exists (Some err).
    split; [reflexivity |]. split; [discriminate | reflexivity].
  - destruct scanErr as [se|]; intros H; injection H as <- <- <-;
      exists None; (split; [reflexivity |]);
      (split; [intros _; reflexivity | intros Hc; now destruct Hc]).
Qed.

(** What [Load] returns: the state untouched and an error, or what
    [loadFromReader] returns for the file it opened. *)
Lemma Load_cases {tables : unicode.Tables}
  (fs : os.FileSystem) (opts : list (option LoadOptions))
  (p p' : Process) (r : nat * option Error) :
  Load fs opts p = (p', r) ->
  (p' = p /\ exists err, r = (0%nat, Some err))
  \/ exists path reader,
       findEnvFile fs (Pathname (parseOptions opts))
         (MaxLevels (parseOptions opts)) = inr path
       /\ os.Open fs path = inr reader
       /\ loadFromReader reader (parseOptions opts) p = (p', r).
Proof.
  unfold Load.
  destruct (findEnvFile fs _ _) as [err | path].
  - intros H. injection H as <- <-. left. eauto.
  - destruct (os.Open fs path) as [err | reader] eqn:Eo.
    + intros H. injection H as <- <-. left. eauto.
    + intros H. right. eauto.
Qed.

Lemma loadLines_keeps_nonempty {tables : unicode.Tables} (options : LoadOptions)
  (texts : list (list ascii)) :
  Overwrite options = false ->
  forall p loaded p' r key v,
    loadLines options texts p loaded = (p', r) ->
    environ p !! key = Some v -> v <> [] ->
    environ p' !! key = Some v.
Proof.
  intros Ho. induction texts as [|text rest IH];
    intros p loaded p' r key v H Hk Hv.
  - cbn in H. now injection H as <- _.
  - cbn [loadLines] in H. rewrite Ho in H. cbn [orb] in H.
    destruct (bytes_eqb (strings.TrimSpace text) []
              || strings.HasPrefix (strings.TrimSpace text) [hash]);
      [now apply (IH _ _ _ _ _ _ H) |].
    destruct (parseLine (strings.TrimSpace text)) as [perr | [k value]].
    + apply (IH _ _ _ _ _ _ H); [now rewrite environ_log | exact Hv].
    + destruct (bytes_eqb (os.Getenv (environ p) k) []) eqn:Eg;
        [| now apply (IH _ _ _ _ _ _ H)].
      destruct (os.Setenv (environ p) k value) as [e | env] eqn:Es.
      * now injection H as <- _.
      * apply (IH _ _ _ _ _ _ H); [| exact Hv].
        rewrite environ_log. cbn [environ].
        apply Setenv_inr in Es. subst env.
        apply bytes_eqb_true in Eg.
        rewrite lookup_insert_ne; [exact Hk |].
        intros ->. rewrite (Getenv_Some _ _ _ Hk) in Eg. contradiction.
Qed.

(** X11.  Without [Overwrite], [Load] never changes a variable that has a
    non-empty value: whatever the file holds and however the load ends, such
    a variable has the same value afterwards. *)
Theorem X11_Load_keeps_existing_values {tables : unicode.Tables} :
  forall fs opts p p' r key v,
    Overwrite (parseOptions opts) = false ->
    Load fs opts p = (p', r) ->
    environ p !! key = Some v -> v <> [] ->
    environ p' !! key = Some v.
Proof.
  intros fs opts p p' [n e] key v Ho H Hk Hv.
  apply Load_cases in H as [[-> _] | (path & reader & _ & _ & H)];
    [exact Hk |].
  apply loadFromReader_lines in H as (e0 & H & _).
  exact (loadLines_keeps_nonempty _ _ Ho _ _ _ _ _ _ H Hk Hv).
Qed.

Lemma X11_Load_keeps_existing_values_witness :
  environ (fst (Load loadedFS [] portProcess)) !! str "DB_PORT"
  = Some (str "5432").
Proof.
  destruct (Load loadedFS [] portProcess) as [p' r] eqn:E. cbn [fst].
  apply (X11_Load_keeps_existing_values loadedFS [] portProcess p' r
           (str "DB_PORT") (str "5432")).
  - reflexivity.
  - exact E.
  - vm_compute. reflexivity.
  - discriminate.
Defined.

Lemma entryOf_parsed {tables : unicode.Tables} (text key value : list ascii) :
  parseLine (strings.TrimSpace text) = inr (key, value) ->
  entryOf text = [(key, value)].
Proof.
  intros H. unfold entryOf. rewrite (parsed_not_blank _ _ _ H). now rewrite H.
Qed.

Lemma entryOf_blank {tables : unicode.Tables} (text : list ascii) :
  bytes_eqb (strings.TrimSpace text) []
  || strings.HasPrefix (strings.TrimSpace text) [hash] = true ->
  entryOf text = [].
Proof. intros H. unfold entryOf, isBlankOrComment. now rewrite H. Qed.

Lemma entryOf_unparsable {tables : unicode.Tables}
  (text : list ascii) (err : ParseError) :
  parseLine (strings.TrimSpace text) = inl err -> entryOf text = [].
Proof.
  intros H. unfold entryOf. rewrite H. now destruct (isBlankOrComment text).
Qed.

Lemma entries_app {tables : unicode.Tables} (a b : list (list ascii)) :
  entries (a ++ b) = entries a ++ entries b.
Proof. unfold entries. apply flat_map_app. Qed.

Lemma loadLines_overwrite {tables : unicode.Tables}
  (options : LoadOptions) (texts : list (list ascii)) :
  Overwrite options = true ->
  forall p loaded p' loaded',
    loadLines options texts p loaded = (p', (loaded', None)) ->
    environ p' = writeAll (environ p) (entries texts)
    /\ loaded' = (loaded + length (entries texts))%nat.
Proof.
  intros Ho. induction texts as [|text rest IH]; intros p loaded p' loaded' H.
  - cbn in H. injection H as <- <-. cbn. split; [reflexivity | lia].
  - cbn [loadLines] in H. rewrite Ho in H. cbn [orb] in H.
    unfold entries. cbn [flat_map]. fold (entries rest).
    destruct (bytes_eqb (strings.TrimSpace text) []
              || strings.HasPrefix (strings.TrimSpace text) [hash]) eqn:Eb.
    { rewrite (entryOf_blank _ Eb). now apply IH. }
    destruct (parseLine (strings.TrimSpace text)) as [perr | [k value]] eqn:Ep.
    + rewrite (entryOf_unparsable _ _ Ep).
      apply IH in H. now rewrite environ_log in H.
    + rewrite (entryOf_parsed _ _ _ Ep).
      destruct (os.Setenv (environ p) k value) as [e | env] eqn:Es;
        [discriminate |].
      apply IH in H as [He Hn]. rewrite environ_log in He. cbn [environ] in He.
      apply Setenv_inr in Es. subst env.
      cbn [app length]. split; [exact He | lia].
Qed.

(** X12.  With [Overwrite], a load that ends without error has written the
    pairs of the parsable lines into the environment, one after the other
    in the order of the file, and its count is the number of these lines. *)
Theorem X12_overwrite_load_writes_every_pair {tables : unicode.Tables} :
  forall reader options p p' n,
    Overwrite options = true ->
    loadFromReader reader options p = (p', (n, None)) ->
    environ p' = writeAll (environ p) (entries (fst (bufio.Scan reader)))
    /\ n = length (entries (fst (bufio.Scan reader))).
Proof.
  intros reader options p p' n Ho H.
  apply loadFromReader_lines in H as (e0 & H & He & Hne).
  destruct e0 as [err|]; [specialize (Hne ltac:(discriminate)); discriminate |].
  apply (loadLines_overwrite _ _ Ho) in H as [H1 H2]. now split.
Qed.

Lemma X12_overwrite_load_writes_every_pair_witness :
  <[str "NAME" := str "A"]> (<[str "DB_PORT" := str "8080"]> (environ portProcess))
  = writeAll (environ portProcess)
      (entries (fst (bufio.Scan (bufio.mkReader sampleStream None))))
  /\ 2%nat = length (entries (fst (bufio.Scan (bufio.mkReader sampleStream None)))).
Proof.
  destruct (X12_overwrite_load_writes_every_pair
              (bufio.mkReader sampleStream None) overwriteOptions portProcess
              (mkProcess (<[str "NAME" := str "A"]>
                            (<[str "DB_PORT" := str "8080"]> (environ portProcess)))
                         []) 2%nat) as [H1 H2].
  - reflexivity.
  - vm_compute. reflexivity.
  - cbn [environ] in H1. split; [exact H1 | exact H2].
Defined.

Lemma writeAll_app (env : gmap (list ascii) (list ascii))
  (a b : list (list ascii * list ascii)) :
  writeAll env (a ++ b) = writeAll (writeAll env a) b.
Proof. unfold writeAll. apply fold_left_app. Qed.

Lemma writeAll_other (kvs : list (list ascii * list ascii)) (key : list ascii) :
  Forall (fun kv => fst kv <> key) kvs ->
  forall env, writeAll env kvs !! key = env !! key.
Proof.
  induction kvs as [|[k v] kvs IH]; intros H env; [reflexivity |].
  inversion H as [|? ? Hk Hrest]; subst. cbn [fst] in Hk.
  change (writeAll env ((k, v) :: kvs)) with (writeAll (<[k := v]> env) kvs).
  rewrite IH by exact Hrest. now apply lookup_insert_ne.
Qed.

(** X13.  With [Overwrite], the last line that names a key wins: after a
    load without error the variable holds the value of the last parsable
    line for its key, and [GetEnv] returns that value when it is not
    empty. *)
Theorem X13_last_assignment_wins {tables : unicode.Tables} :
  forall reader options p p' n before text after key value,
    Overwrite options = true ->
    loadFromReader reader options p = (p', (n, None)) ->
    fst (bufio.Scan reader) = before ++ text :: after ->
    parseLine (strings.TrimSpace text) = inr (key, value) ->
    Forall (fun kv => fst kv <> key) (entries after) ->
    environ p' !! key = Some value
    /\ (value <> [] -> forall defaultValue, GetEnv p' key defaultValue = value).
Proof.
  intros reader options p p' n before text after key value Ho H Hs Hp Hafter.
  apply loadFromReader_lines in H as (e0 & H & He & Hne).
  destruct e0 as [err|]; [specialize (Hne ltac:(discriminate)); discriminate |].
  apply (loadLines_overwrite _ _ Ho) in H as [H _].
  assert (Hk : environ p' !! key = Some value).
  { rewrite H, Hs, entries_app. unfold entries at 2. cbn [flat_map].
    fold (entries after). rewrite (entryOf_parsed _ _ _ Hp).
    rewrite writeAll_app. cbn [app].
    change (writeAll ?m ((key, value) :: entries after))
      with (writeAll (<[key := value]> m) (entries after)).
    rewrite writeAll_other by exact Hafter. apply lookup_insert_eq. }
  split; [exact Hk |].
  intros Hv d. unfold GetEnv. rewrite (Getenv_Some _ _ _ Hk).
  apply bytes_eqb_false in Hv. now rewrite Hv.
Qed.

Lemma X13_last_assignment_wins_witness :
  GetEnv twiceLoaded (str "K") (str "fallback") = str "b".
Proof.
  destruct (X13_last_assignment_wins twiceReader overwriteOptions
              (mkProcess ∅ []) twiceLoaded 2%nat
              [str "K=a"] (str "K=b") [] (str "K") (str "b")) as [_ Hget].
  - reflexivity.
  - vm_compute. reflexivity.
  - vm_compute. reflexivity.
  - vm_compute. reflexivity.
  - constructor.
  - apply Hget. discriminate.
Defined.

Lemma loadLines_frame {tables : unicode.Tables}
  (options : LoadOptions) (texts : list (list ascii))
  (key : list ascii) :
  Forall (fun kv => fst kv <> key) (entries texts) ->
  forall p loaded p' r,
    loadLines options texts p loaded = (p', r) ->
    environ p' !! key = environ p !! key.
Proof.
  induction texts as [|text rest IH]; intros Hall p loaded p' r H.
  - cbn in H. now injection H as <- _.
  - unfold entries in Hall. cbn [flat_map] in Hall. fold (entries rest) in Hall.
    apply List.Forall_app in Hall as [Hhead Hrest].
    cbn [loadLines] in H.
    destruct (bytes_eqb (strings.TrimSpace text) []
              || strings.HasPrefix (strings.TrimSpace text) [hash]);
      [now apply (IH Hrest _ _ _ _ H) |].
    destruct (parseLine (strings.TrimSpace text)) as [perr | [k value]] eqn:Ep.
    + rewrite (IH Hrest _ _ _ _ H). now rewrite environ_log.
    + rewrite (entryOf_parsed _ _ _ Ep) in Hhead.
      inversion Hhead as [|? ? Hk _]; subst. cbn [fst] in Hk.
      destruct (Overwrite options || bytes_eqb (os.Getenv (environ p) k) []);
        [| now apply (IH Hrest _ _ _ _ H)].
      destruct (os.Setenv (environ p) k value) as [e | env] eqn:Es.
      * now injection H as <- _.
      * rewrite (IH Hrest _ _ _ _ H), environ_log. cbn [environ].
        apply Setenv_inr in Es. subst env. now apply lookup_insert_ne.
Qed.

Lemma loadLines_grows {tables : unicode.Tables}
  (options : LoadOptions) (texts : list (list ascii))
  (key : list ascii) :
  forall p loaded p' r,
    loadLines options texts p loaded = (p', r) ->
    is_Some (environ p !! key) -> is_Some (environ p' !! key).
Proof.
  induction texts as [|text rest IH]; intros p loaded p' r H Hk.
  - cbn in H. now injection H as <- _.
  - cbn [loadLines] in H.
    destruct (bytes_eqb (strings.TrimSpace text) []
              || strings.HasPrefix (strings.TrimSpace text) [hash]);
      [now apply (IH _ _ _ _ H) |].
    destruct (parseLine (strings.TrimSpace text)) as [perr | [k value]].
    + apply (IH _ _ _ _ H). now rewrite environ_log.
    + destruct (Overwrite options || bytes_eqb (os.Getenv (environ p) k) []);
        [| now apply (IH _ _ _ _ H)].
      destruct (os.Setenv (environ p) k value) as [e | env] eqn:Es.
      * now injection H as <- _.
      * apply (IH _ _ _ _ H). rewrite environ_log. cbn [environ].
        apply Setenv_inr in Es. subst env.
        destruct (decide (k = key)) as [-> | Hne].
        -- rewrite lookup_insert_eq. eauto.
        -- now rewrite lookup_insert_ne.
Qed.

(** X14.  [Load] touches only the variables the file names and never removes
    one: a variable that is not the key of any parsable line is afterwards
    what it was (set or unset), and every variable that was set is still
    set, whatever the options and however the load ends. *)
Theorem X14_Load_touches_only_named_keys {tables : unicode.Tables} :
  forall fs opts p p' r key,
    Load fs opts p = (p', r) ->
    (is_Some (environ p !! key) -> is_Some (environ p' !! key))
    /\ (forall path reader,
           findEnvFile fs (Pathname (parseOptions opts))
             (MaxLevels (parseOptions opts)) = inr path ->
           os.Open fs path = inr reader ->
           Forall (fun kv => fst kv <> key) (entries (fst (bufio.Scan reader))) ->
           environ p' !! key = environ p !! key).
Proof.
  intros fs opts p p' [n e] key H.
  apply Load_cases in H as [[-> _] | (path & reader & Hf & Ho & H)];
    [split; [tauto | reflexivity] |].
  apply loadFromReader_lines in H as (e0 & H & _).
  split.
  - now apply (loadLines_grows _ _ _ _ _ _ _ H).
  - intros path' reader' Hf' Ho' Hall.
    rewrite Hf in Hf'. injection Hf' as <-.
    rewrite Ho in Ho'. injection Ho' as <-.
    exact (loadLines_frame _ _ _ Hall _ _ _ _ H).
Qed.

Lemma X14_Load_touches_only_named_keys_witness :
  environ (fst (Load loadedFS [] (mkProcess {[ str "HOME" := str "/root" ]} [])))
  !! str "HOME" = Some (str "/root").
Proof.
  destruct (Load loadedFS [] (mkProcess {[ str "HOME" := str "/root" ]} []))
    as [p' r] eqn:E. cbn [fst].
  destruct (X14_Load_touches_only_named_keys loadedFS []
              (mkProcess {[ str "HOME" := str "/root" ]} []) p' r (str "HOME") E)
    as [_ Hframe].
  rewrite (Hframe (os.Bare (str ".env")) (bufio.mkReader sampleStream None)).
  - vm_compute. reflexivity.
  - reflexivity.
  - reflexivity.
  - vm_compute. repeat constructor; discriminate.
Defined.

Lemma loadLines_debug_only {tables : unicode.Tables}
  (o1 o2 : LoadOptions) (texts : list (list ascii)) :
  Overwrite o1 = Overwrite o2 ->
  forall p q loaded p' r,
    environ p = environ q ->
    loadLines o1 texts p loaded = (p', r) ->
    exists q', loadLines o2 texts q loaded = (q', r)
               /\ environ q' = environ p'.
Proof.
  intros Ho. induction texts as [|text rest IH]; intros p q loaded p' r Henv H.
  - cbn in *. injection H as <- <-. now exists q.
  - cbn [loadLines] in *. rewrite <- Henv, <- Ho.
    destruct (bytes_eqb (strings.TrimSpace text) []
              || strings.HasPrefix (strings.TrimSpace text) [hash]);
      [now apply (IH p) |].
    destruct (parseLine (strings.TrimSpace text)) as [perr | [key value]].
    + eapply IH; [| exact H]. now rewrite !environ_log.
    + destruct (Overwrite o1 || bytes_eqb (os.Getenv (environ p) key) []);
        [| now apply (IH p)].
      destruct (os.Setenv (environ p) key value) as [e | env].
      * injection H as <- <-. now exists q.
      * eapply IH; [| exact H]. now rewrite !environ_log.
Qed.

Lemma loadLines_quiet {tables : unicode.Tables}
  (options : LoadOptions) (texts : list (list ascii)) :
  Debug options = false ->
  forall p loaded p' r,
    loadLines options texts p loaded = (p', r) -> stderr p' = stderr p.
Proof.
  intros Hd. induction texts as [|text rest IH]; intros p loaded p' r H.
  - cbn in H. now injection H as <- _.
  - cbn [loadLines] in H. rewrite Hd in H.
    destruct (bytes_eqb (strings.TrimSpace text) []
              || strings.HasPrefix (strings.TrimSpace text) [hash]);
      [now apply IH in H |].
    destruct (parseLine (strings.TrimSpace text)) as [perr | [key value]];
      [now apply IH in H |].
    destruct (Overwrite options || bytes_eqb (os.Getenv (environ p) key) []);
      [| now apply IH in H].
    destruct (os.Setenv (environ p) key value) as [e | env].
    + now injection H as <- _.
    + now apply IH in H.
Qed.

(** X15.  The debug flag changes nothing but the log: two loads of the same
    reader that differ in [Debug] only end with the same environment, the
    same count and the same error; and with [Debug] off nothing is written
    to standard error. *)
Theorem X15_debug_changes_only_the_log {tables : unicode.Tables} :
  forall reader o1 o2 p p1 r,
    Overwrite o1 = Overwrite o2 ->
    loadFromReader reader o1 p = (p1, r) ->
    (exists p2, loadFromReader reader o2 p = (p2, r)
                /\ environ p2 = environ p1)
    /\ (Debug o1 = false -> stderr p1 = stderr p).
Proof.
  intros reader o1 o2 p p1 r Ho. unfold loadFromReader.
  destruct (bufio.Scan reader) as [texts scanErr].
  destruct (loadLines o1 texts p 0) as [q1 r1] eqn:E1.
  destruct (loadLines_debug_only o1 o2 texts Ho p p 0%nat q1 r1 eq_refl E1)
    as (q2 & E2 & Henv).
  rewrite E2. destruct r1 as [n [e|]].
  - intros H. injection H as <- <-. split; [eauto |].
    intros Hd. exact (loadLines_quiet _ _ Hd _ _ _ _ E1).
  - destruct scanErr as [se|]; intros H; injection H as <- <-;
      (split; [eauto |]); intros Hd; exact (loadLines_quiet _ _ Hd _ _ _ _ E1).
Qed.

Lemma X15_debug_changes_only_the_log_witness :
  exists p2,
    loadFromReader (bufio.mkReader sampleStream None) (sampleOptions true)
      portProcess
    = (p2, (1%nat, None))
    /\ environ p2 = <[str "NAME" := str "A"]> (environ portProcess).
Proof.
  destruct (X15_debug_changes_only_the_log
              (bufio.mkReader sampleStream None)
              (sampleOptions false) (sampleOptions true) portProcess
              (mkProcess (<[str "NAME" := str "A"]> (environ portProcess)) [])
              (1%nat, None)) as [(p2 & H1 & H2) _].
  - reflexivity.
  - vm_compute. reflexivity.
  - exists p2. split; [exact H1 | exact H2].
Defined.

Lemma loadLines_count_bounds {tables : unicode.Tables} (options : LoadOptions)
  (texts : list (list ascii)) :
  forall p loaded p' loaded' err,
    loadLines options texts p loaded = (p', (loaded', err)) ->
    (loaded <= loaded' <= loaded + length (entries texts))%nat.
Proof.
  induction texts as [|text rest IH]; intros p loaded p' loaded' err H.
  - cbn in H. injection H as _ <- _. cbn. lia.
  - cbn [loadLines] in H.
    unfold entries. cbn [flat_map]. fold (entries rest). rewrite length_app.
    destruct (bytes_eqb (strings.TrimSpace text) []
              || strings.HasPrefix (strings.TrimSpace text) [hash]);
      [apply IH in H; lia |].
    destruct (parseLine (strings.TrimSpace text)) as [perr | [key value]] eqn:Ep;
      [apply IH in H; lia |].
    rewrite (entryOf_parsed _ _ _ Ep). cbn [length].
    destruct (Overwrite options || bytes_eqb (os.Getenv (environ p) key) []);
      [| apply IH in H; lia].
    destruct (os.Setenv (environ p) key value) as [e | env].
    + injection H as _ <- _. lia.
    + apply IH in H. lia.
Qed.

Lemma entries_length {tables : unicode.Tables} (texts : list (list ascii)) :
  (length (entries texts) <= length texts)%nat.
Proof.
  induction texts as [|text rest IH]; [cbn; lia |].
  unfold entries in *. cbn [flat_map length]. rewrite length_app.
  assert (length (entryOf text) <= 1)%nat.
  { unfold entryOf. destruct (isBlankOrComment text); [cbn; lia |].
    destruct (parseLine _); cbn; lia. }
  lia.
Qed.

(** X16.  The count [Load] returns is never more than the number of lines of
    the file that parse, which is never more than the number of its
    lines. *)
Theorem X16_count_bounded_by_parsable_lines {tables : unicode.Tables} :
  forall reader options p p' n e,
    loadFromReader reader options p = (p', (n, e)) ->
    (n <= length (entries (fst (bufio.Scan reader))))%nat
    /\ (length (entries (fst (bufio.Scan reader)))
        <= length (fst (bufio.Scan reader)))%nat.
Proof.
  intros reader options p p' n e H.
  apply loadFromReader_lines in H as (e0 & H & _).
  apply loadLines_count_bounds in H.
  split; [lia | apply entries_length].
Qed.

Lemma X16_count_bounded_by_parsable_lines_witness :
  (1 <= length (entries (fst (bufio.Scan (bufio.mkReader sampleStream None)))))%nat.
Proof.
  destruct (X16_count_bounded_by_parsable_lines
              (bufio.mkReader sampleStream None) (sampleOptions false) portProcess
              (mkProcess (<[str "NAME" := str "A"]> (environ portProcess)) [])
              1%nat None) as [H _].
  - vm_compute. reflexivity.
  - exact H.
Defined.

(** ** When a load cannot fail *)

Section BytesKept.

Variable P : ascii -> Prop.

Lemma rawLines_forall (data : list ascii) :
  forall cur,
    Forall P cur -> Forall P data ->
    Forall (fun lb => Forall P (fst lb)) (bufio.rawLines cur data).
Proof.
  induction data as [|c rest IH]; intros cur Hcur Hdata; cbn [bufio.rawLines].
  - destruct cur; [constructor |].
    constructor; [| constructor]. cbn [fst]. now apply List.Forall_rev.
  - inversion Hdata; subst.
    destruct (bool_decide (c = newline)).
    + constructor; [cbn [fst]; now apply List.Forall_rev |].
      apply IH; [constructor | assumption].
    + apply IH; [now constructor | assumption].
Qed.

Lemma dropCR_forall (data : list ascii) :
  Forall P data -> Forall P (bufio.dropCR data).
Proof.
  intros H. unfold bufio.dropCR.
  destruct (rev data) as [|c before] eqn:E; [exact H |].
  destruct (bool_decide (c = creturn)); [| exact H].
  apply List.Forall_rev. apply List.Forall_rev in H. rewrite E in H.
  now inversion H.
Qed.

Lemma tokens_forall (ls : list (list ascii * bool)) :
  Forall (fun lb => Forall P (fst lb)) ls ->
  Forall (Forall P) (fst (bufio.tokens ls)).
Proof.
  induction ls as [|[l b] rest IH]; intros H; cbn [bufio.tokens];
    [constructor |].
  inversion H; subst.
  destruct (Z.of_nat (length l) <? bufio.MaxScanTokenSize); [| constructor].
  destruct (bufio.tokens rest) as [ts long]. cbn [fst] in *.
  constructor; [now apply dropCR_forall | now apply IH].
Qed.

Lemma Scan_forall (reader : bufio.Reader) :
  Forall P (bufio.content reader) ->
  Forall (Forall P) (fst (bufio.Scan reader)).
Proof.
  intros H. unfold bufio.Scan.
  pose proof (tokens_forall _ (rawLines_forall _ [] (List.Forall_nil P) H)) as Ht.
  destruct (bufio.tokens _) as [ts long]. exact Ht.
Qed.

Lemma TrimSpace_forall (s : list ascii) :
  Forall P s -> Forall P (strings.TrimSpace s).
Proof.
  intros H.
  destruct (TrimFunc_split unicode.IsSpace s) as (pre & post & E & _).
  fold (strings.TrimSpace s) in E. rewrite E in H.
  apply List.Forall_app in H as [_ H]. now apply List.Forall_app in H as [H _].
Qed.

Lemma slice_forall (s : list ascii) (lo hi : nat) :
  Forall P s -> Forall P (slice s lo hi).
Proof. intros H. unfold slice. now apply Forall_take, Forall_drop. Qed.

Lemma unquoteValue_forall (v : list ascii) :
  Forall P v -> Forall P (unquoteValue v).
Proof.
  intros H. destruct (unquoteValue_split v) as (pre & post & E & _).
  rewrite E in H.
  apply List.Forall_app in H as [_ H]. now apply List.Forall_app in H as [H _].
Qed.

(** The value [parseLine] returns is made of bytes of the line. *)
Lemma parseLine_value_forall {tables : unicode.Tables}
  (line key value : list ascii) :
  parseLine line = inr (key, value) -> Forall P line -> Forall P value.
Proof.
  intros H Hline. rewrite parseLine_body, parseBody_bytes in H.
  assert (Hbody : Forall P (strings.TrimPrefix line (str "export"))).
  { unfold strings.TrimPrefix. destruct (strings.HasPrefix _ _);
      [now apply slice_forall | exact Hline]. }
  destruct (findEqualsBytes 0 _ false 0) as [i|]; [| discriminate].
  apply checkEntry_value in H as [_ ->].
  apply unquoteValue_forall, TrimSpace_forall. now apply Forall_drop.
Qed.

End BytesKept.

Lemma loadLines_no_error {tables : unicode.Tables}
  (options : LoadOptions) (texts : list (list ascii)) :
  Forall noNul texts ->
  forall p loaded,
    exists p' n, loadLines options texts p loaded = (p', (n, None)).
Proof.
  induction texts as [|text rest IH]; intros Hall p loaded; [cbn; eauto |].
  inversion Hall as [|? ? Htext Hrest]; subst.
  cbn [loadLines].
  destruct (bytes_eqb (strings.TrimSpace text) []
            || strings.HasPrefix (strings.TrimSpace text) [hash]);
    [now apply IH |].
  destruct (parseLine (strings.TrimSpace text)) as [perr | [key value]] eqn:Ep;
    [now apply IH |].
  destruct (Overwrite options || bytes_eqb (os.Getenv (environ p) key) []);
    [| now apply IH].
  rewrite (Setenv_valid_key _ _ _ (parseLine_key_valid _ _ _ Ep)).
  assert (Hv : os.hasByte 0 value = false).
  { apply hasByte_false.
    apply (parseLine_value_forall _ _ _ _ Ep).
    now apply TrimSpace_forall. }
  rewrite Hv. now apply IH.
Qed.

Lemma loadFromReader_no_error {tables : unicode.Tables}
  (reader : bufio.Reader) (options : LoadOptions)
  (p : Process) :
  snd (bufio.Scan reader) = None ->
  noNul (bufio.content reader) ->
  exists p' n, loadFromReader reader options p = (p', (n, None)).
Proof.
  intros Hs Hn. unfold loadFromReader.
  pose proof (Scan_forall _ reader Hn) as Ht.
  destruct (bufio.Scan reader) as [texts scanErr]. cbn [fst snd] in *.
  subst scanErr.
  destruct (loadLines_no_error options texts Ht p 0%nat) as (p' & n & ->).
  eauto.
Qed.

(** X17.  Once the file is open, only three things make the load fail: a
    failing read, a line too long for the scanner, and a NUL byte.  When the
    scan reports no error and the content holds no NUL byte, the load ends
    without error whatever the lines look like: malformed lines, keys that
    are not valid and unbalanced quotes are passed over. *)
Theorem X17_load_fails_only_on_read_or_nul {tables : unicode.Tables} :
  forall reader options p,
    snd (bufio.Scan reader) = None ->
    noNul (bufio.content reader) ->
    exists p' n, loadFromReader reader options p = (p', (n, None)).
Proof. exact loadFromReader_no_error. Qed.

Lemma X17_load_fails_only_on_read_or_nul_witness :
  exists p' n,
    loadFromReader
      (bufio.mkReader (str "justvalue" ++ [newline] ++ str "1x=2") None)
      (sampleOptions false) (mkProcess ∅ [])
    = (p', (n, None)).
Proof.
  apply X17_load_fails_only_on_read_or_nul.
  - reflexivity.
  - apply List.Forall_forall. intros c Hc.
    repeat (destruct Hc as [<- | Hc]; [discriminate |]). destruct Hc.
Defined.

Lemma loadFromReader_errors {tables : unicode.Tables}
  (reader : bufio.Reader) (options : LoadOptions)
  (p p' : Process) (n : nat) (err : Error) :
  loadFromReader reader options p = (p', (n, Some err)) ->
  (exists key code, err = FailedToSet key code)
  \/ (exists scanErr, err = ReadError scanErr).
Proof.
  intros H. apply loadFromReader_lines in H as (e0 & H & He & Hne).
  destruct e0 as [e|].
  - specialize (Hne ltac:(discriminate)). injection Hne as ->.
    left. now apply loadLines_error in H.
  - specialize (He eq_refl).
    destruct (snd (bufio.Scan reader)) as [se|]; [| discriminate].
    injection He as ->. right. eauto.
Qed.

(** X18.  [MustLoad] returns the count exactly when [Load] returns no error,
    and panics with the error otherwise.  It does not panic when the file is
    found and opened, the scan reports no error and the content holds no NUL
    byte; and when it panics over the search or the opening of the file, the
    process state is as it was. *)
Theorem X18_MustLoad_panics_only_on_load_errors {tables : unicode.Tables} :
  forall fs opts p,
    (forall p' n,
        MustLoad fs opts p = (p', Count n) <-> Load fs opts p = (p', (n, None)))
    /\ (forall p' err,
           MustLoad fs opts p = (p', Panic err)
           <-> exists n, Load fs opts p = (p', (n, Some err)))
    /\ (forall path reader,
           findEnvFile fs (Pathname (parseOptions opts))
             (MaxLevels (parseOptions opts)) = inr path ->
           os.Open fs path = inr reader ->
           snd (bufio.Scan reader) = None ->
           noNul (bufio.content reader) ->
           exists p' n, MustLoad fs opts p = (p', Count n))
    /\ (forall p' err,
           MustLoad fs opts p = (p', Panic err) ->
           (exists e, err = Quickenv e)
           \/ (exists path e, err = FailedToOpen path e) ->
           p' = p).
Proof.
  intros fs opts p.
  assert (Hc : forall p' n,
             MustLoad fs opts p = (p', Count n)
             <-> Load fs opts p = (p', (n, None))).
  { intros p' n. unfold MustLoad.
    destruct (Load fs opts p) as [q [m [e|]]]; split; intros H;
      try discriminate; injection H as <- <-; reflexivity. }
  assert (Hp : forall p' err,
             MustLoad fs opts p = (p', Panic err)
             <-> exists n, Load fs opts p = (p', (n, Some err))).
  { intros p' err. unfold MustLoad.
    destruct (Load fs opts p) as [q [m [e|]]]; split.
    - intros H. injection H as <- <-. eauto.
    - intros [n H]. now injection H as <- _ <-.
    - discriminate.
    - intros [n H]. discriminate. }
  split; [exact Hc |]. split; [exact Hp |]. split.
  - intros path reader Hf Ho Hs Hn.
    destruct (loadFromReader_no_error reader (parseOptions opts) p Hs Hn)
      as (p' & n & H).
    exists p', n. apply Hc. unfold Load. now rewrite Hf, Ho.
  - intros p' err H Hkind. apply Hp in H as [n H].
    apply Load_cases in H as [[-> _] | (path & reader & _ & _ & H)];
      [reflexivity |].
    apply loadFromReader_errors in H as [(k & c & ->) | (se & ->)];
      destruct Hkind as [[e He] | (pa & e & He)]; discriminate.
Qed.

Lemma X18_MustLoad_panics_only_on_load_errors_witness :
  MustLoad emptyFS [] portProcess
  = (portProcess, Panic (Quickenv (EnvFileNotFound (str ".env"))))
  /\ exists p' n, MustLoad loadedFS [] portProcess = (p', Count n).
Proof.
  destruct (X18_MustLoad_panics_only_on_load_errors emptyFS [] portProcess)
    as (_ & Hp & _).
  destruct (X18_MustLoad_panics_only_on_load_errors loadedFS [] portProcess)
    as (_ & _ & Hok & _).
  split.
  - apply Hp. exists 0%nat. reflexivity.
  - apply (Hok (os.Bare (str ".env")) (bufio.mkReader sampleStream None)).
    + reflexivity.
    + reflexivity.
    + reflexivity.
    + apply List.Forall_forall. intros c Hc.
      repeat (destruct Hc as [<- | Hc]; [discriminate |]). destruct Hc.
Defined.

(** X19.  The two accessors agree: [GetEnvOrPanic] returns a value exactly
    when the variable is set to a non-empty string, the value it returns is
    never empty, and then [GetEnv] returns the same value for every default;
    when [GetEnvOrPanic] panics, [GetEnv] returns its default.  With a
    non-empty default [GetEnv] never returns the empty string. *)
Theorem X19_accessors_agree :
  forall p key,
    (forall v, GetEnvOrPanic p key = Returned v
               <-> v <> [] /\ environ p !! key = Some v)
    /\ (forall v, GetEnvOrPanic p key = Returned v ->
                  forall d, GetEnv p key d = v)
    /\ (forall message, GetEnvOrPanic p key = Panicked message ->
                        forall d, GetEnv p key d = d)
    /\ (forall d, d <> [] -> GetEnv p key d <> []).
Proof.
  intros p key. unfold GetEnvOrPanic, GetEnv, os.Getenv.
  destruct (environ p !! key) as [w|] eqn:Ek; cbn [default from_option id].
  - destruct (bytes_eqb w []) eqn:Ew; cbn [negb].
    + apply bytes_eqb_true in Ew. subst w.
      split; [| split; [| split]].
      * intros v. split; [discriminate |].
        intros [Hv E]. injection E as <-. now destruct Hv.
      * discriminate.
      * reflexivity.
      * tauto.
    + apply bytes_eqb_false in Ew.
      split; [| split; [| split]].
      * intros v. split.
        -- intros E. injection E as <-. now split.
        -- intros [_ E]. now injection E as <-.
      * intros v E d. now injection E as <-.
      * discriminate.
      * intros d _. exact Ew.
  - change (bytes_eqb [] []) with true. cbn [negb].
    split; [| split; [| split]].
    + intros v. split; [discriminate |]. intros [_ E]. discriminate.
    + discriminate.
    + reflexivity.
    + tauto.
Qed.

Lemma X19_accessors_agree_witness :
  GetEnv portProcess (str "DB_PORT") (str "8000") = str "5432"
  /\ GetEnv portProcess (str "HOST") (str "localhost") <> [].
Proof.
  destruct (X19_accessors_agree portProcess (str "DB_PORT")) as (_ & H & _).
  destruct (X19_accessors_agree portProcess (str "HOST")) as (_ & _ & _ & H').
  split.
  - apply H. vm_compute. reflexivity.
  - apply H'. discriminate.
Defined.

(** ** Loading the same file again *)

Lemma writeAll_independent (kvs : list (list ascii * list ascii))
  (key : list ascii) :
  Exists (fun kv => fst kv = key) kvs ->
  forall env env', writeAll env kvs !! key = writeAll env' kvs !! key.
Proof.
  induction kvs as [|[k v] kvs IH]; intros H env env';
    [now apply List.Exists_nil in H |].
  change (writeAll env ((k, v) :: kvs)) with (writeAll (<[k := v]> env) kvs).
  change (writeAll env' ((k, v) :: kvs)) with (writeAll (<[k := v]> env') kvs).
  destruct (List.Exists_dec (fun kv => fst kv = key) kvs
              (fun kv => decide (fst kv = key))) as [Hin | Hout].
  - now apply IH.
  - apply List.Forall_Exists_neg in Hout.
    rewrite !writeAll_other by exact Hout.
    apply List.Exists_cons in H as [H | H].
    + cbn [fst] in H. subst k. now rewrite !lookup_insert_eq.
    + apply List.Forall_Exists_neg in Hout. contradiction.
Qed.

Lemma writeAll_idem (env : gmap (list ascii) (list ascii))
  (kvs : list (list ascii * list ascii)) :
  writeAll (writeAll env kvs) kvs = writeAll env kvs.
Proof.
  apply map_eq. intros key.
  destruct (List.Exists_dec (fun kv => fst kv = key) kvs
              (fun kv => decide (fst kv = key))) as [Hin | Hout].
  - now apply writeAll_independent.
  - apply List.Forall_Exists_neg in Hout.
    now rewrite !writeAll_other by exact Hout.
Qed.

(** With [Overwrite], whether the loop fails does not depend on the
    environment it starts from. *)
Lemma loadLines_overwrite_again {tables : unicode.Tables}
  (options : LoadOptions)
  (texts : list (list ascii)) :
  Overwrite options = true ->
  forall p loaded p' n,
    loadLines options texts p loaded = (p', (n, None)) ->
    forall q loaded0,
      exists q' m, loadLines options texts q loaded0 = (q', (m, None)).
Proof.
  intros Ho. induction texts as [|text rest IH];
    intros p loaded p' n H q loaded0; [cbn; eauto |].
  cbn [loadLines] in *. rewrite Ho in *. cbn [orb] in *.
  destruct (bytes_eqb (strings.TrimSpace text) []
            || strings.HasPrefix (strings.TrimSpace text) [hash]);
    [now apply (IH _ _ _ _ H) |].
  destruct (parseLine (strings.TrimSpace text)) as [perr | [k value]] eqn:Ep;
    [now apply (IH _ _ _ _ H) |].
  pose proof (parseLine_key_valid _ _ _ Ep) as Hk.
  rewrite (Setenv_valid_key _ _ _ Hk).
  rewrite (Setenv_valid_key _ _ _ Hk) in H.
  destruct (os.hasByte 0 value); cbv iota in H; [discriminate H |].
  cbv iota. now apply (IH _ _ _ _ H).
Qed.

(** Without [Overwrite], after a load without error every key of a parsable
    line is set, and to the empty string only where the line gives the empty
    value. *)
Lemma loadLines_settled {tables : unicode.Tables}
  (options : LoadOptions) (texts : list (list ascii)) :
  Overwrite options = false ->
  forall p loaded p' n,
    loadLines options texts p loaded = (p', (n, None)) ->
    Forall (fun kv => exists w, environ p' !! fst kv = Some w
                                /\ (w = [] -> snd kv = []))
           (entries texts).
Proof.
  intros Ho. induction texts as [|text rest IH]; intros p loaded p' n H;
    [constructor |].
  unfold entries. cbn [flat_map]. fold (entries rest).
  cbn [loadLines] in H. rewrite Ho in H. cbn [orb] in H.
  destruct (bytes_eqb (strings.TrimSpace text) []
            || strings.HasPrefix (strings.TrimSpace text) [hash]) eqn:Eb.
  { rewrite (entryOf_blank _ Eb). now apply (IH _ _ _ _ H). }
  destruct (parseLine (strings.TrimSpace text)) as [perr | [k value]] eqn:Ep.
  { rewrite (entryOf_unparsable _ _ Ep). now apply (IH _ _ _ _ H). }
  rewrite (entryOf_parsed _ _ _ Ep). cbn [app].
  destruct (bytes_eqb (os.Getenv (environ p) k) []) eqn:Eg.
  - destruct (os.Setenv (environ p) k value) as [e | env] eqn:Es;
      [discriminate |].
    apply Setenv_inr in Es. subst env.
    constructor; [| now apply (IH _ _ _ _ H)].
    cbn [fst snd].
    destruct (decide (value = [])) as [-> | Hv].
    + destruct (loadLines_grows options rest k _ _ _ _ H) as [w Hw].
      { rewrite environ_log. cbn [environ]. rewrite lookup_insert_eq. eauto. }
      exists w. split; [exact Hw | reflexivity].
    + exists value. split; [| intros E; contradiction].
      apply (loadLines_keeps_nonempty options rest Ho _ _ _ _ _ _ H);
        [| exact Hv].
      rewrite environ_log. cbn [environ]. apply lookup_insert_eq.
  - constructor; [| now apply (IH _ _ _ _ H)].
    cbn [fst snd]. apply bytes_eqb_false in Eg.
    unfold os.Getenv in Eg.
    destruct (environ p !! k) as [w|] eqn:Ek; [| now destruct Eg].
    cbn in Eg. exists w. split; [| intros E; contradiction].
    now apply (loadLines_keeps_nonempty options rest Ho _ _ _ _ _ _ H).
Qed.

(** Without [Overwrite], the loop leaves such an environment as it is. *)
Lemma loadLines_again_keeps {tables : unicode.Tables}
  (options : LoadOptions) (texts : list (list ascii))
  (env : gmap (list ascii) (list ascii)) :
  Overwrite options = false ->
  Forall (fun kv => exists w, env !! fst kv = Some w
                              /\ (w = [] -> snd kv = []))
         (entries texts) ->
  forall q loaded,
    environ q = env ->
    exists q' m,
      loadLines options texts q loaded = (q', (m, None)) /\ environ q' = env.
Proof.
  intros Ho. induction texts as [|text rest IH]; intros Hall q loaded Hq;
    [cbn; eauto |].
  unfold entries in Hall. cbn [flat_map] in Hall. fold (entries rest) in Hall.
  apply List.Forall_app in Hall as [Hhead Hrest].
  cbn [loadLines]. rewrite Ho. cbn [orb].
  destruct (bytes_eqb (strings.TrimSpace text) []
            || strings.HasPrefix (strings.TrimSpace text) [hash]) eqn:Eb;
    [now apply IH |].
  destruct (parseLine (strings.TrimSpace text)) as [perr | [k value]] eqn:Ep;
    [apply IH; [exact Hrest | now rewrite environ_log] |].
  rewrite (entryOf_parsed _ _ _ Ep) in Hhead.
  inversion Hhead as [|? ? (w & Hw & Hwv) _]; subst. cbn [fst snd] in *.
  rewrite (Getenv_Some _ _ _ Hw).
  destruct (bytes_eqb w []) eqn:Ew; [| now apply IH].
  apply bytes_eqb_true in Ew. subst w. rewrite (Hwv eq_refl).
  rewrite (Setenv_valid_key _ _ _ (parseLine_key_valid _ _ _ Ep)).
  change (os.hasByte 0 []) with false. cbv iota.
  apply IH; [exact Hrest |].
  rewrite environ_log. cbn [environ]. now apply insert_id.
Qed.

Lemma loadFromReader_again {tables : unicode.Tables}
  (reader : bufio.Reader) (options : LoadOptions)
  (p p' : Process) (n : nat) :
  loadFromReader reader options p = (p', (n, None)) ->
  exists p'' m,
    loadFromReader reader options p' = (p'', (m, None))
    /\ environ p'' = environ p'.
Proof.
  intros H. apply loadFromReader_lines in H as (e0 & H & He & Hne).
  destruct e0 as [e|]; [now specialize (Hne ltac:(discriminate)) |].
  specialize (He eq_refl).
  destruct (snd (bufio.Scan reader)) as [se|] eqn:Es; [discriminate |].
  assert (Hagain : exists p'' m,
             loadLines options (fst (bufio.Scan reader)) p' 0
             = (p'', (m, None))
             /\ environ p'' = environ p').
  { destruct (Overwrite options) eqn:Ho.
    - destruct (loadLines_overwrite_again options _ Ho _ _ _ _ H p' 0%nat)
        as (q' & m & Hq).
      exists q', m. split; [exact Hq |].
      apply (loadLines_overwrite options _ Ho) in H as [H1 _].
      apply (loadLines_overwrite options _ Ho) in Hq as [H2 _].
      rewrite H2, H1. apply writeAll_idem.
    - apply (loadLines_again_keeps options _ (environ p') Ho);
        [| reflexivity].
      exact (loadLines_settled options _ Ho _ _ _ _ H). }
  destruct Hagain as (p'' & m & Hl & Henv).
  exists p'', m. split; [| exact Henv].
  unfold loadFromReader.
  destruct (bufio.Scan reader) as [texts scanErr]. cbn [fst snd] in *.
  subst scanErr. now rewrite Hl.
Qed.

(** X20.  Loading the same content twice is the same as loading it once.
    After a [Load] that ended without error, a second [Load] with the same
    options whose search, run anew on the system as it then is, opens a
    file with the same content ends without error too and leaves every
    variable as the first one left it, with or without [Overwrite]. *)
Theorem X20_reloading_same_content_changes_nothing {tables : unicode.Tables} :
  forall fs opts p p' n,
    Load fs opts p = (p', (n, None)) ->
    exists path reader,
      findEnvFile fs (Pathname (parseOptions opts))
        (MaxLevels (parseOptions opts)) = inr path
      /\ os.Open fs path = inr reader
      /\ forall fs' path',
           findEnvFile fs' (Pathname (parseOptions opts))
             (MaxLevels (parseOptions opts)) = inr path' ->
           os.Open fs' path' = inr reader ->
           exists p'' m,
             Load fs' opts p' = (p'', (m, None)) /\ environ p'' = environ p'.
Proof.
  intros fs opts p p' n H.
  apply Load_cases in H as [[_ [err Herr]] | (path & reader & Hf & Ho & H)];
    [discriminate |].
  exists path, reader. split; [exact Hf |]. split; [exact Ho |].
  intros fs' path' Hf' Ho'.
  destruct (loadFromReader_again _ _ _ _ _ H) as (p'' & m & H2 & Henv).
  exists p'', m. split; [| exact Henv].
  unfold Load. now rewrite Hf', Ho'.
Qed.

Lemma X20_reloading_same_content_changes_nothing_witness :
  exists p'' m,
    Load parentFS [] (fst (Load loadedFS [] portProcess)) = (p'', (m, None))
    /\ environ p'' = environ (fst (Load loadedFS [] portProcess)).
Proof.
  destruct (X20_reloading_same_content_changes_nothing loadedFS []
              portProcess (fst (Load loadedFS [] portProcess))
              (fst (snd (Load loadedFS [] portProcess))))
    as (path & reader & _ & Ho & Hagain).
  - vm_compute. reflexivity.
  - apply (Hagain parentFS
             (os.Join [str "home"; str "user"; str "project"; str "cmd"]
                (str ".env"))).
    + vm_compute. reflexivity.
    + cbn in Ho. injection Ho as <-. reflexivity.
Defined.
